(** * The AI-assisted visual comparison pipeline

    A shallow embedding of [src/helpers/VisualTestHelper.ts],
    [src/ai/LocalLLMService.ts], [src/ai/GoogleLLMService.ts] (constructor),
    [src/ai/LLMUtils.ts] ([getLLMService]) and [src/config/config.ts], and the
    properties of the response interpreter, the baseline lifecycle, the
    gateway and the backend selection.

    JavaScript strings are sequences of UTF-16 code units: [jsstring] is
    [list N].  Asynchronous calls are awaited one after the other in the
    source, so they are modelled by explicit state passing over a [World]
    (files, folders and trace of effects).  Exceptions are explicit: a
    [completion] is either a normal value or a thrown value.  [Logger]
    writes to the console only and is left out. *)

From Stdlib Require Import String Ascii NArith ZArith List Bool Lia.
From Stdlib Require Import Floats.SpecFloat.
From stdpp Require Import gmap strings.

Local Open Scope N_scope.

(** ** JavaScript strings *)

Abbreviation jsstring := (list N).

(** The code units of an ASCII literal. *)
Fixpoint u (s : string) : jsstring :=
  match s with
  | EmptyString => []
  | String c r => N_of_ascii c :: u r
  end.

Arguments u : simpl never.

(** The same, with every apostrophe standing for a double quote (code unit
    34), to write JSON texts as literals. *)
Definition uq (s : string) : jsstring :=
  map (fun c => if c =? 39 then 34 else c) (u s).

Definition dquote : N := 34.
Definition newline : N := 10.
Definition carriage_return : N := 13.
Definition space : N := 32.
Definition lbrace : N := 123.
Definition rbrace : N := 125.
Definition slash : N := 47.
Definition backslash : N := 92.

(** The class [\s] of ECMAScript regular expressions, which is also the set
    removed by [String.prototype.trim] (WhiteSpace and LineTerminator). *)
Definition is_whitespace (c : N) : bool :=
  ((9 <=? c) && (c <=? 13)) || (c =? 32) || (c =? 160) || (c =? 5760)
  || ((8192 <=? c) && (c <=? 8202)) || (c =? 8232) || (c =? 8233)
  || (c =? 8239) || (c =? 8287) || (c =? 12288) || (c =? 65279).

Fixpoint starts_with (p s : jsstring) : bool :=
  match p, s with
  | [], _ => true
  | a :: p', b :: s' => (a =? b) && starts_with p' s'
  | _ :: _, [] => false
  end.

Definition ends_with (p s : jsstring) : bool :=
  starts_with (rev p) (rev s).

Fixpoint take_while (f : N -> bool) (s : jsstring) : jsstring :=
  match s with
  | [] => []
  | c :: r => if f c then c :: take_while f r else []
  end.

Fixpoint drop_while (f : N -> bool) (s : jsstring) : jsstring :=
  match s with
  | [] => []
  | c :: r => if f c then drop_while f r else s
  end.

(** [s.trim()] *)
Definition trim (s : jsstring) : jsstring :=
  rev (drop_while is_whitespace (rev (drop_while is_whitespace s))).

(** [s.indexOf(c)] and [s.lastIndexOf(c)] for a one-unit needle: the index
    of the first (last) occurrence, or -1. *)
Fixpoint indexOf_from (c : N) (s : jsstring) (i : Z) : Z :=
  match s with
  | [] => (-1)%Z
  | x :: r => if x =? c then i else indexOf_from c r (i + 1)%Z
  end.

Definition indexOf (c : N) (s : jsstring) : Z := indexOf_from c s 0.

Fixpoint lastIndexOf_from (c : N) (s : jsstring) (i last : Z) : Z :=
  match s with
  | [] => last
  | x :: r => lastIndexOf_from c r (i + 1)%Z (if x =? c then i else last)
  end.

Definition lastIndexOf (c : N) (s : jsstring) : Z :=
  lastIndexOf_from c s 0 (-1).

(** [s.substring(a, b)]: both indices are clamped to [0, s.length] and
    swapped when [a > b]. *)
Definition substring (s : jsstring) (a b : Z) : jsstring :=
  let len := Z.of_nat (length s) in
  let a' := Z.min (Z.max a 0) len in
  let b' := Z.min (Z.max b 0) len in
  let lo := Z.min a' b' in
  let hi := Z.max a' b' in
  take (Z.to_nat (hi - lo)) (drop (Z.to_nat lo) s).

(** [s.replace(/re/g, ...)] for a regular expression whose matches are never
    empty.  [m before rest] is asked at every position that no earlier match
    has consumed: [before] is the text to the left of the position,
    reversed (what a lookbehind sees), [rest] the text from the position on;
    it answers the length of the match that starts here and the text that
    replaces it. *)
Fixpoint replace_all (m : jsstring -> jsstring -> option (nat * jsstring))
    (before : jsstring) (skip : nat) (s : jsstring) : jsstring :=
  match s with
  | [] => []
  | c :: tl =>
      match skip with
      | S k => replace_all m (c :: before) k tl
      | O =>
          match m before s with
          | Some (S k, r) => r ++ replace_all m (c :: before) k tl
          | _ => c :: replace_all m (c :: before) O tl
          end
      end
  end.

(** [/```json\n?/]: the fence opener and, greedily, one newline. *)
Definition fence_open_match (before rest : jsstring) : option (nat * jsstring) :=
  if starts_with (u "```json") rest then
    match drop 7 rest with
    | c :: _ => if c =? newline then Some (8%nat, []) else Some (7%nat, [])
    | [] => Some (7%nat, [])
    end
  else None.

(** [s.replace(/```json\n?/g, '')] *)
Definition strip_json_fence (s : jsstring) : jsstring :=
  replace_all fence_open_match [] 0 s.

(** [s.replace(/```$/g, '')]: without the [m] flag [$] is the end of the
    input, so at most the last three units go. *)
Definition strip_end_fence (s : jsstring) : jsstring :=
  if ends_with (u "```") s then take (length s - 3) s else s.

(** [s.replace(/\n/g, ' ')] and [s.replace(/\r/g, ' ')] *)
Definition replace_unit (c : N) (by_ : N) (s : jsstring) : jsstring :=
  map (fun x => if x =? c then by_ else x) s.

Definition key_passed : jsstring := dquote :: u "passed" ++ dquote :: u ":".
Definition key_reason : jsstring := dquote :: u "reason" ++ dquote :: u ":".

(** The lookbehind of the repair expression, on the reversed text to the
    left of a position: the key passed in double quotes and a colon, any
    whitespace, then true or false, ending at the position. *)
Definition after_passed_bool (before : jsstring) : bool :=
  let after_key (b : jsstring) :=
    starts_with (rev key_passed) (drop_while is_whitespace b) in
  (starts_with (rev (u "true")) before && after_key (drop 4 before))
  || (starts_with (rev (u "false")) before && after_key (drop 5 before)).

(** The repair expression: after that lookbehind, any whitespace (group 1)
    and the key reason in double quotes with its colon; the match is
    replaced by a comma, group 1 and the key. *)
Definition missing_comma_match (before rest : jsstring) : option (nat * jsstring) :=
  let ws := take_while is_whitespace rest in
  if after_passed_bool before
     && starts_with key_reason (drop (length ws) rest)
  then Some ((length ws + length key_reason)%nat, u "," ++ ws ++ key_reason)
  else None.

Definition fix_missing_comma (s : jsstring) : jsstring :=
  replace_all missing_comma_match [] 0 s.

(** ** Exceptions *)

(** A thrown value: an [Error] object with its message, or anything else
    with its [String(e)] rendering. *)
Inductive thrown :=
| ErrorObj (message : jsstring)
| NonError (text : jsstring).

(** [e instanceof Error ? e.message : String(e)] *)
Definition error_message (e : thrown) : jsstring :=
  match e with
  | ErrorObj m => m
  | NonError t => t
  end.

Inductive completion (A : Type) :=
| Normal (a : A)
| Throw (e : thrown).

Arguments Normal {A} a.
Arguments Throw {A} e.

Definition bind {A B} (c : completion A) (k : A -> completion B) : completion B :=
  match c with
  | Normal a => k a
  | Throw e => Throw e
  end.

Notation "'let*' x ':=' c 'in' k" := (bind c (fun x => k))
  (at level 10, x name, c at level 100, k at level 200).

(** [try { body } catch (e) { handler(e) }] *)
Definition try_catch {A} (body : completion A) (handler : thrown -> completion A)
    : completion A :=
  match body with
  | Normal a => Normal a
  | Throw e => handler e
  end.

(** ** JSON values *)

#[warnings="-register-all"]
Inductive json :=
| JNull
| JBool (b : bool)
| JNumber (literal : jsstring)
| JString (s : jsstring)
| JArray (items : list json)
| JObject (fields : list (jsstring * json)).

Definition jsstring_eqb (a b : jsstring) : bool := bool_decide (a = b).

(** The value of an own property of a parsed object: the last member with
    that key wins. *)
Fixpoint lookup_field (key : jsstring) (fields : list (jsstring * json))
    : option json :=
  match fields with
  | [] => None
  | (k, v) :: r =>
      match lookup_field key r with
      | Some v' => Some v'
      | None => if jsstring_eqb k key then Some v else None
      end
  end.

(** [v.passed] and [v.reason] on a parsed value: [None] is [undefined];
    reading a property of [null] throws a [TypeError].  Arrays and primitive
    values have neither property. *)
Definition get_prop (v : json) (key : jsstring) : completion (option json) :=
  match v with
  | JNull =>
      Throw (ErrorObj (u "Cannot read properties of null (reading '" ++ key ++ u "')"))
  | JObject fields => Normal (lookup_field key fields)
  | _ => Normal None
  end.

(** ** The response interpreter *)

Record AnalysisResult := { passed : bool; reason : jsstring }.

Section Interpreter.

(** [JSON.parse] of the host: a value, or a thrown [SyntaxError]. *)
Variable JSON_parse : jsstring -> completion json.

(** Step 1 of the [try] block. *)
Definition strip_fences (responseText : jsstring) : jsstring :=
  trim (strip_end_fence (strip_json_fence responseText)).

(** Steps 3 and 4, on the text between the braces. *)
Definition flatten_and_fix (jsonString : jsstring) : jsstring :=
  fix_missing_comma
    (replace_unit carriage_return space (replace_unit newline space jsonString)).

Definition lacked_fields (responseText : jsstring) : AnalysisResult :=
  {| passed := false;
     reason := u "AI response was valid JSON but lacked expected fields: "
               ++ substring responseText 0 200 ++ u "..." |}.

(** Steps 1 to 4 of the [try] block: the text handed to [JSON.parse], or
    the error thrown when the braces are not found. *)
Definition extract_json (responseText : jsstring) : completion jsstring :=
  let jsonString := strip_fences responseText in
  let firstBrace := indexOf lbrace jsonString in
  let lastBrace := lastIndexOf rbrace jsonString in
  if (firstBrace =? -1)%Z || (lastBrace =? -1)%Z || (lastBrace <? firstBrace)%Z
  then Throw (ErrorObj (u "Could not find valid JSON object delimiters {} in response."))
  else Normal (flatten_and_fix (substring jsonString firstBrace (lastBrace + 1))).

(** Step 6: the two [typeof] tests, the second one only when the first one
    holds. *)
Definition validate (responseText : jsstring) (parsed : json)
    : completion AnalysisResult :=
  let* p := get_prop parsed (u "passed") in
  match p with
  | Some (JBool b) =>
      let* r := get_prop parsed (u "reason") in
      match r with
      | Some (JString r) => Normal {| passed := b; reason := r |}
      | _ => Normal (lacked_fields responseText)
      end
  | _ => Normal (lacked_fields responseText)
  end.

(** The body of the [try] block of [interpretAIJsonResponse]. *)
Definition interpret_try (responseText : jsstring) : completion AnalysisResult :=
  let* jsonString := extract_json responseText in
  let* parsed := JSON_parse jsonString in
  validate responseText parsed.

(** The [catch] block. *)
Definition interpret_catch (responseText : jsstring) (e : thrown)
    : completion AnalysisResult :=
  Normal {| passed := false;
            reason := u "AI response could not be parsed as valid JSON: "
                      ++ error_message e ++ u " (Original: "
                      ++ substring responseText 0 100 ++ u "...)" |}.

Definition interpretAIJsonResponse (responseText : jsstring)
    : completion AnalysisResult :=
  try_catch (interpret_try responseText) (interpret_catch responseText).

End Interpreter.

(** ** A model of [JSON.parse]

    The JSON grammar of ECMA-404, which [JSON.parse] accepts exactly: a value
    between optional whitespace, nothing else.  A number keeps its literal
    text.  [None] stands for the [SyntaxError] the host throws. *)

Module JSON.

Definition is_ws (c : N) : bool :=
  (c =? 32) || (c =? 9) || (c =? 10) || (c =? 13).

Definition skip_ws (s : jsstring) : jsstring := drop_while is_ws s.

Definition is_digit (c : N) : bool := (48 <=? c) && (c <=? 57).

Definition hex_value (c : N) : option N :=
  if (48 <=? c) && (c <=? 57) then Some (c - 48)
  else if (97 <=? c) && (c <=? 102) then Some (c - 87)
  else if (65 <=? c) && (c <=? 70) then Some (c - 55)
  else None.

Definition hex4 (a b c d : N) : option N :=
  match hex_value a, hex_value b, hex_value c, hex_value d with
  | Some x, Some y, Some z, Some w => Some (((x * 16 + y) * 16 + z) * 16 + w)
  | _, _, _, _ => None
  end.

(** The unit a one-letter escape stands for. *)
Definition simple_escape (c : N) : option N :=
  if c =? 34 then Some 34            (* quote *)
  else if c =? 92 then Some 92       (* backslash *)
  else if c =? 47 then Some 47       (* slash *)
  else if c =? 98 then Some 8        (* b *)
  else if c =? 102 then Some 12      (* f *)
  else if c =? 110 then Some 10      (* n *)
  else if c =? 114 then Some 13      (* r *)
  else if c =? 116 then Some 9       (* t *)
  else None.

(** A string after its opening quote: the decoded units and the text after
    the closing quote. *)
Fixpoint string_body (s : jsstring) : option (jsstring * jsstring) :=
  match s with
  | [] => None
  | c :: r =>
      if c =? 34 then Some ([], r)
      else if c =? 92 then
        match r with
        | [] => None
        | e :: r1 =>
            if e =? 117 then
              match r1 with
              | h1 :: h2 :: h3 :: h4 :: r2 =>
                  match hex4 h1 h2 h3 h4, string_body r2 with
                  | Some cu, Some (t, rest) => Some (cu :: t, rest)
                  | _, _ => None
                  end
              | _ => None
              end
            else
              match simple_escape e, string_body r1 with
              | Some cu, Some (t, rest) => Some (cu :: t, rest)
              | _, _ => None
              end
        end
      else if c <? 32 then None
      else
        match string_body r with
        | Some (t, rest) => Some (c :: t, rest)
        | None => None
        end
  end.

(** One or more digits. *)
Definition digits1 (s : jsstring) : option (jsstring * jsstring) :=
  match take_while is_digit s with
  | [] => None
  | d => Some (d, drop (length d) s)
  end.

(** The integer part: a lone 0, or a digit from 1 to 9 and more digits. *)
Definition int_part (s : jsstring) : option (jsstring * jsstring) :=
  match s with
  | c :: r =>
      if c =? 48 then Some ([c], r)
      else if is_digit c then
        let d := take_while is_digit r in Some (c :: d, drop (length d) r)
      else None
  | [] => None
  end.

Definition frac_part (s : jsstring) : option (jsstring * jsstring) :=
  match s with
  | c :: r =>
      if c =? 46 then
        match digits1 r with
        | Some (d, rest) => Some (c :: d, rest)
        | None => None
        end
      else Some ([], s)
  | [] => Some ([], s)
  end.

Definition exp_part (s : jsstring) : option (jsstring * jsstring) :=
  match s with
  | c :: r =>
      if (c =? 101) || (c =? 69) then
        let '(sign, r1) :=
          match r with
          | g :: r' => if (g =? 43) || (g =? 45) then ([g], r') else ([], r)
          | [] => ([], r)
          end in
        match digits1 r1 with
        | Some (d, rest) => Some (c :: sign ++ d, rest)
        | None => None
        end
      else Some ([], s)
  | [] => Some ([], s)
  end.

Definition number (s : jsstring) : option (jsstring * jsstring) :=
  let '(sign, r0) :=
    match s with
    | c :: r => if c =? 45 then ([c], r) else ([], s)
    | [] => ([], s)
    end in
  match int_part r0 with
  | Some (i, r1) =>
      match frac_part r1 with
      | Some (f, r2) =>
          match exp_part r2 with
          | Some (e, r3) => Some (sign ++ i ++ f ++ e, r3)
          | None => None
          end
      | None => None
      end
  | None => None
  end.

(** The code units of [true], [false] and [null]. *)
Definition lit_true : jsstring := Eval vm_compute in u "true".
Definition lit_false : jsstring := Eval vm_compute in u "false".
Definition lit_null : jsstring := Eval vm_compute in u "null".

Fixpoint value (fuel : nat) (s : jsstring) : option (json * jsstring) :=
  match fuel with
  | O => None
  | S f =>
      match skip_ws s with
      | [] => None
      | c :: r =>
          if c =? 123 then
            match skip_ws r with
            | c2 :: r2 =>
                if c2 =? 125 then Some (JObject [], r2)
                else
                  match members f r with
                  | Some (ms, rest) => Some (JObject ms, rest)
                  | None => None
                  end
            | [] => None
            end
          else if c =? 91 then
            match skip_ws r with
            | c2 :: r2 =>
                if c2 =? 93 then Some (JArray [], r2)
                else
                  match elements f r with
                  | Some (vs, rest) => Some (JArray vs, rest)
                  | None => None
                  end
            | [] => None
            end
          else if c =? 34 then
            match string_body r with
            | Some (t, rest) => Some (JString t, rest)
            | None => None
            end
          else if starts_with lit_true (c :: r) then
            Some (JBool true, drop 4 (c :: r))
          else if starts_with lit_false (c :: r) then
            Some (JBool false, drop 5 (c :: r))
          else if starts_with lit_null (c :: r) then
            Some (JNull, drop 4 (c :: r))
          else
            match number (c :: r) with
            | Some (n, rest) => Some (JNumber n, rest)
            | None => None
            end
      end
  end
with members (fuel : nat) (s : jsstring)
    : option (list (jsstring * json) * jsstring) :=
  match fuel with
  | O => None
  | S f =>
      match skip_ws s with
      | c :: r =>
          if c =? 34 then
            match string_body r with
            | Some (k, r1) =>
                match skip_ws r1 with
                | c1 :: r2 =>
                    if c1 =? 58 then
                      match value f r2 with
                      | Some (v, r3) =>
                          match skip_ws r3 with
                          | c3 :: r4 =>
                              if c3 =? 44 then
                                match members f r4 with
                                | Some (ms, r5) => Some ((k, v) :: ms, r5)
                                | None => None
                                end
                              else if c3 =? 125 then Some ([(k, v)], r4)
                              else None
                          | [] => None
                          end
                      | None => None
                      end
                    else None
                | [] => None
                end
            | None => None
            end
          else None
      | [] => None
      end
  end
with elements (fuel : nat) (s : jsstring) : option (list json * jsstring) :=
  match fuel with
  | O => None
  | S f =>
      match value f s with
      | Some (v, r1) =>
          match skip_ws r1 with
          | c :: r2 =>
              if c =? 44 then
                match elements f r2 with
                | Some (vs, r3) => Some (v :: vs, r3)
                | None => None
                end
              else if c =? 93 then Some ([v], r2)
              else None
          | [] => None
          end
      | None => None
      end
  end.

(** The whole text is one value; every nested call consumes a unit first,
    so the length of the text bounds the depth. *)
Definition parse (text : jsstring) : option json :=
  match value (S (length text)) text with
  | Some (v, rest) =>
      match skip_ws rest with
      | [] => Some v
      | _ :: _ => None
      end
  | None => None
  end.

End JSON.

(** [JSON.parse] as the interpreter calls it.  The message of the
    [SyntaxError] is the engine's own: [syntax_error text] stands for it. *)
Definition JSON_parse (syntax_error : jsstring -> jsstring) (text : jsstring)
    : completion json :=
  match JSON.parse text with
  | Some v => Normal v
  | None => Throw (ErrorObj (syntax_error text))
  end.

(** ** Paths ([path.posix])

    [normalizeString] with [allowAboveRoot = false]: empty segments and [.]
    disappear, [..] removes the segment before it and is dropped at the
    root. *)

Module Path.

Fixpoint split (s : jsstring) : list jsstring :=
  match s with
  | [] => [[]]
  | c :: r =>
      if c =? slash then [] :: split r
      else
        match split r with
        | seg :: segs => (c :: seg) :: segs
        | [] => [[c]]
        end
  end.

Definition is_dot (seg : jsstring) : bool := bool_decide (seg = [46]).
Definition is_dotdot (seg : jsstring) : bool := bool_decide (seg = [46; 46]).
Definition is_empty (seg : jsstring) : bool := bool_decide (seg = []).

(** The segments kept so far, last one first. *)
Definition step (stack : list jsstring) (seg : jsstring) : list jsstring :=
  if is_empty seg || is_dot seg then stack
  else if is_dotdot seg then tail stack
  else seg :: stack.

Definition normalize_segments (segs : list jsstring) : list jsstring :=
  rev (fold_left step segs []).

Fixpoint join_segments (segs : list jsstring) : jsstring :=
  match segs with
  | [] => []
  | [x] => x
  | x :: r => x ++ slash :: join_segments r
  end.

(** [normalize] of an absolute path without a trailing separator. *)
Definition normalize_absolute (p : jsstring) : jsstring :=
  slash :: join_segments (normalize_segments (split p)).

(** [path.resolve(cwd, rel)] for an absolute [cwd] and a relative, non-empty
    [rel]. *)
Definition resolve (cwd rel : jsstring) : jsstring :=
  normalize_absolute (cwd ++ slash :: rel ++ [slash]).

(** [path.join(dir, file)] for an absolute [dir] and a non-empty [file] that
    does not end in a separator. *)
Definition join (dir file : jsstring) : jsstring :=
  normalize_absolute (dir ++ slash :: file).

(** [path.dirname(p)] for an absolute [p]: the folder [p] lies in. *)
Definition dirname (p : jsstring) : jsstring :=
  slash :: join_segments (removelast (normalize_segments (split p))).

Fixpoint prefixes (segs : list jsstring) : list (list jsstring) :=
  match segs with
  | [] => [[]]
  | x :: r => [] :: map (cons x) (prefixes r)
  end.

(** The folders on the way to [p]: the root, every folder above [p], and
    [p] itself. *)
Definition folders_to (p : jsstring) : list jsstring :=
  map (fun segs => slash :: join_segments segs)
      (prefixes (normalize_segments (split p))).

End Path.

(** ** Numbers

    A JavaScript number is an IEEE 754 binary64 value. *)

Abbreviation number := spec_float.

(** [ToBoolean] of a number: zero of either sign and NaN are falsy. *)
Definition truthy_number (x : number) : bool :=
  match x with
  | S754_zero _ => false
  | S754_nan => false
  | _ => true
  end.

Definition is_zero (x : number) : bool :=
  match x with
  | S754_zero _ => true
  | _ => false
  end.

(** The binary64 values of the literals [0.1], [0.2] and [2048]:
    0x1999999999999A * 2^-56, 0x1999999999999A * 2^-55 and 2^52 * 2^-41. *)
Definition num_0_1 : number := S754_finite false 7205759403792794 (-56).
Definition num_0_2 : number := S754_finite false 7205759403792794 (-55).
Definition num_2048 : number := S754_finite false 4503599627370496 (-41).

(** [x || d] on an optional number *)
Definition number_or (x : option number) (d : number) : number :=
  match x with
  | Some v => if truthy_number v then v else d
  | None => d
  end.

(** [s || d] on strings: the empty string is falsy. *)
Definition string_or (s d : jsstring) : jsstring :=
  match s with
  | [] => d
  | _ :: _ => s
  end.

Definition opt_string_or (s : option jsstring) (d : jsstring) : jsstring :=
  match s with
  | Some v => string_or v d
  | None => d
  end.

(** ** Configuration ([Config], read from the environment at load time) *)

Record Config := {
  ollamaBaseUrl : jsstring;
  ollamaDefaultModel : jsstring;
  ollamaVisualModel : jsstring;
  aiServiceMode : jsstring;
  googleApiKey : jsstring;
  googleGeminiModel : jsstring
}.

(** ** Requests, responses and the world *)

Record MultimodalLLMRequest := {
  prompt : jsstring;
  model : option jsstring;
  temperature : option number;
  maxTokens : option number;
  systemPrompt : option jsstring;
  images : option (list jsstring)
}.

(** The body posted to [/generate]. *)
Record Payload := {
  p_model : jsstring;
  p_prompt : jsstring;
  p_system : option jsstring;
  p_temperature : number;
  p_max_tokens : number;
  p_stream : bool;
  p_images : option (list jsstring)
}.

(** [text] is whatever [response.data.response] holds: [None] is
    [undefined]. *)
Record LLMResponse := {
  text : option json;
  success : bool;
  error : option jsstring
}.

(** What [axios.post] does: a response with its [data], or a thrown error
    (no connection, a status outside 2xx, a timeout). *)
Inductive HttpOutcome :=
| HttpResponse (data : option json)
| HttpFailure (e : thrown).

Record SysError := { code : jsstring; sys_message : jsstring }.

Inductive event :=
| EvMkdir (dir : jsstring)
| EvScreenshot (path : jsstring) (mask : list jsstring)
| EvReadFile (path : jsstring)
| EvAccess (path : jsstring)
| EvCopyFile (src dst : jsstring)
| EvPost (url : jsstring) (payload : Payload).

(** The regular files with their bytes, the folders, and the effects so
    far.  There are no links, and a file that is there can be read. *)
Record World := {
  files : gmap (list N) (list Byte.byte);
  folders : gset (list N);
  trace : list event
}.

(** The page handle: what a full-page screenshot with these masked
    selectors yields. *)
Record Page := {
  screenshot_result : list jsstring -> completion (list Byte.byte)
}.

(** The process and the machine around it: the working directory, the
    configuration, what the operating system refuses when asked to make a
    folder (permissions, a read-only disk, a regular file standing where a
    folder above it should be), and what the HTTP endpoint does. *)
Record Env := {
  cwd : jsstring;
  config : Config;
  mkdir : jsstring -> option SysError;
  http_post : jsstring -> Payload -> HttpOutcome
}.

(** State and exceptions. *)
Definition M (A : Type) : Type := World -> World * completion A.

Definition ret {A} (a : A) : M A := fun w => (w, Normal a).

Definition throw {A} (e : thrown) : M A := fun w => (w, Throw e).

Definition bindM {A B} (c : M A) (k : A -> M B) : M B :=
  fun w =>
    match c w with
    | (w', Normal a) => k a w'
    | (w', Throw e) => (w', Throw e)
    end.

Notation "'do*' x ':=' c 'in' k" := (bindM c (fun x => k))
  (at level 10, x name, c at level 100, k at level 200).

Definition record_event (e : event) (w : World) : World :=
  {| files := files w; folders := folders w; trace := trace w ++ [e] |}.

Definition set_file (path : jsstring) (content : list Byte.byte) (w : World) : World :=
  {| files := <[path := content]> (files w); folders := folders w; trace := trace w |}.

Definition add_folders (paths : list jsstring) (w : World) : World :=
  {| files := files w; folders := list_to_set paths ∪ folders w; trace := trace w |}.

Definition emit (e : event) : M unit :=
  fun w => (record_event e w, Normal tt).

Definition write_file (path : jsstring) (content : list Byte.byte) : M unit :=
  fun w => (set_file path content w, Normal tt).

Definition no_such_file (path : jsstring) : thrown :=
  ErrorObj (u "ENOENT: no such file or directory, open '" ++ path ++ u "'").

Definition is_a_directory (syscall : jsstring) : thrown :=
  ErrorObj (u "EISDIR: illegal operation on a directory, " ++ syscall).

Definition is_file (w : World) (path : jsstring) : bool :=
  bool_decide (is_Some (files w !! path)).

Definition is_folder (w : World) (path : jsstring) : bool :=
  bool_decide (path ∈ folders w).

(** [fs.readFile(path)]: the bytes of a regular file; a folder cannot be
    read. *)
Definition fs_readFile (path : jsstring) : M (list Byte.byte) :=
  do* _ := emit (EvReadFile path) in
  fun w =>
    match files w !! path with
    | Some b => (w, Normal b)
    | None =>
        (w, Throw (if is_folder w path then is_a_directory (u "read")
                   else no_such_file path))
    end.

(** [fs.access(path)] inside its [try]: is there a file or a folder at
    [path]? *)
Definition fs_exists (path : jsstring) : M bool :=
  do* _ := emit (EvAccess path) in
  fun w => (w, Normal (is_file w path || is_folder w path)).

(** Why [fs.copyFile(src, dst)] fails, when it does: [src] is not a regular
    file, [dst] is a folder, or the folder [dst] lies in is missing
    ([ENOENT]), a regular file standing in its way ([ENOTDIR]). *)
Definition copy_refused (w : World) (src dst : jsstring) : option thrown :=
  let between := u ", copyfile '" ++ src ++ u "' -> '" ++ dst ++ u "'" in
  if negb (is_file w src) then
    Some (ErrorObj ((if is_folder w src
                     then u "EISDIR: illegal operation on a directory"
                     else u "ENOENT: no such file or directory") ++ between))
  else if is_folder w dst then
    Some (ErrorObj (u "EISDIR: illegal operation on a directory" ++ between))
  else if is_folder w (Path.dirname dst) then None
  else if existsb (is_file w) (Path.folders_to (Path.dirname dst)) then
    Some (ErrorObj (u "ENOTDIR: not a directory" ++ between))
  else Some (ErrorObj (u "ENOENT: no such file or directory" ++ between)).

(** [fs.copyFile(src, dst)]: [dst] gets the bytes of [src]; no folder is
    made. *)
Definition fs_copyFile (src dst : jsstring) : M unit :=
  do* _ := emit (EvCopyFile src dst) in
  fun w =>
    match copy_refused w src dst, files w !! src with
    | None, Some b => write_file dst b w
    | Some e, _ => (w, Throw e)
    | None, None => (w, Throw (no_such_file src))
    end.

(** [page.screenshot({ path, fullPage: true, mask })].  [page] says whether
    the call succeeds; when it does the image is in the file at [path], so
    the folders down to that file are there. *)
Definition page_screenshot (page : Page) (path : jsstring) (mask : list jsstring)
    : M unit :=
  do* _ := emit (EvScreenshot path mask) in
  match screenshot_result page mask with
  | Normal img =>
      fun w =>
        write_file path img (add_folders (Path.folders_to (Path.dirname path)) w)
  | Throw e => throw e
  end.

Definition file_exists (dirPath : jsstring) : SysError :=
  {| code := u "EEXIST";
     sys_message := u "EEXIST: file already exists, mkdir '" ++ dirPath ++ u "'" |}.

(** [fs.mkdir(dirPath, { recursive: true })].  What the environment refuses
    is refused; a regular file at [dirPath] gives [EEXIST] (a folder there
    gives no error when [recursive] is set); otherwise the folder and the
    folders above it are there afterwards. *)
Definition fs_mkdir (env : Env) (dirPath : jsstring) (w : World)
    : World * option SysError :=
  match mkdir env dirPath with
  | Some e => (w, Some e)
  | None =>
      if is_file w dirPath then (w, Some (file_exists dirPath))
      else (add_folders (Path.folders_to dirPath) w, None)
  end.

(** [ensureDir]: an error of [fs.mkdir] other than [EEXIST] is thrown
    again. *)
Definition ensureDir (env : Env) (dirPath : jsstring) : M unit :=
  do* _ := emit (EvMkdir dirPath) in
  fun w =>
    match fs_mkdir env dirPath w with
    | (w', None) => (w', Normal tt)
    | (w', Some e) =>
        if bool_decide (code e = u "EEXIST") then (w', Normal tt)
        else (w', Throw (ErrorObj (sys_message e)))
    end.

(** ** The on-device gateway ([LocalLLMService]) *)

Record LocalLLMService := { baseUrl : jsstring; defaultModel : jsstring }.

Definition build_payload (this : LocalLLMService) (request : MultimodalLLMRequest)
    : Payload :=
  {| p_model := opt_string_or (model request) (defaultModel this);
     p_prompt := prompt request;
     p_system := systemPrompt request;
     p_temperature := number_or (temperature request) num_0_2;
     p_max_tokens := number_or (maxTokens request) num_2048;
     p_stream := false;
     p_images :=
       match images request with
       | Some (i :: r) => Some (i :: r)
       | _ => None
       end |}.

(** [response.data.response] *)
Definition response_text (data : option json) : completion (option json) :=
  match data with
  | None =>
      Throw (ErrorObj (u "Cannot read properties of undefined (reading 'response')"))
  | Some d => get_prop d (u "response")
  end.

(** The [try] and [catch] around the call: what the gateway answers for an
    outcome of [axios.post]. *)
Definition llm_response_of (o : HttpOutcome) : LLMResponse :=
  let attempt :=
    match o with
    | HttpResponse data =>
        let* t := response_text data in
        Normal {| text := t; success := true; error := None |}
    | HttpFailure e => Throw e
    end in
  match attempt with
  | Normal r => r
  | Throw e =>
      {| text := Some (JString []); success := false;
         error := Some (error_message e) |}
  end.

Definition generate_url (this : LocalLLMService) : jsstring :=
  baseUrl this ++ u "/generate".

Definition generateMultimodalResponse (env : Env) (this : LocalLLMService)
    (request : MultimodalLLMRequest) : M LLMResponse :=
  let payload := build_payload this request in
  do* _ := emit (EvPost (generate_url this) payload) in
  ret (llm_response_of (http_post env (generate_url this) payload)).

(** ** The comparison orchestrator ([VisualTestHelper]) *)

Definition base64_alphabet : jsstring :=
  u "ABCDEFGHIJKLMNOPQRSTUVWXYZabcdefghijklmnopqrstuvwxyz0123456789+/".

Definition base64_digit (n : N) : N := nth (N.to_nat n) base64_alphabet 61.

(** [buffer.toString(base64)]: three bytes give four digits, the last group
    is padded with [=] (code unit 61). *)
Fixpoint base64 (bs : list Byte.byte) : jsstring :=
  match bs with
  | [] => []
  | [a] =>
      let x := Byte.to_N a in
      [base64_digit (x / 4); base64_digit ((x mod 4) * 16); 61; 61]
  | [a; b] =>
      let x := Byte.to_N a in
      let y := Byte.to_N b in
      [base64_digit (x / 4); base64_digit ((x mod 4) * 16 + y / 16);
       base64_digit ((y mod 16) * 4); 61]
  | a :: b :: c :: r =>
      let x := Byte.to_N a in
      let y := Byte.to_N b in
      let z := Byte.to_N c in
      base64_digit (x / 4) :: base64_digit ((x mod 4) * 16 + y / 16)
      :: base64_digit ((y mod 16) * 4 + z / 64) :: base64_digit (z mod 64)
      :: base64 r
  end.

(** The lines of the prompt template between its first and its last line
    break. *)
Definition prompt_lines : list jsstring := [
  u "    Analyze the differences between the following two screenshots of a web UI.";
  u "    Image 1 is the baseline. Image 2 is the current state.";
  u "    Focus STRICTLY on SIGNIFICANT visual regressions that clearly impact user experience or functionality. Examples of SIGNIFICANT regressions include:";
  u "    - Missing or newly added interactive elements (buttons, links, form fields).";
  u "    - Major layout breaks causing content to overlap, become unreadable, or shift position drastically (e.g., > 10% of viewport width/height).";
  u "    - Text content changes that alter core information or instructions.";
  u "    - Complete failure to load images or critical sections.";
  u "    - Major color changes that affect readability or branding consistency (e.g., white text on white background).";
  [];
  u "    IGNORE the following types of differences:";
  u "    - Minor pixel shifts (less than ~10 pixels).";
  u "    - Anti-aliasing or font rendering variations between environments.";
  u "    - Subtle color variations (unless they impact readability as mentioned above).";
  u "    - Dynamic content like dates, times, or randomly generated data (unless its absence indicates a failure).";
  u "    - Minor spacing or alignment differences that don't break the layout.";
  u "    - Ad variations or third-party content changes.";
  [];
  u "    Respond ONLY with a JSON object in the following format, with no other text or markdown:";
  uq "    If there are NO significant differences based on the criteria above: {'passed': true, 'reason': 'No significant visual regressions detected.'}";
  uq "    If there ARE significant differences: {'passed': false, 'reason': '[Brief description of the MOST significant difference(s) found, focusing on impact]'}";
  uq "    If you cannot perform the comparison (e.g., missing images): {'passed': false, 'reason': 'Comparison could not be performed due to missing visual content.'}"
].

Definition comparison_prompt : jsstring :=
  newline :: concat (map (fun l => l ++ [newline]) prompt_lines) ++ u "    ".

Record Options := {
  updateBaselines : option bool;
  failureThreshold : option number;
  mask : option (list jsstring)
}.

(** [verdict] holds the two fields [passed] and [reason] of the source's
    flat object. *)
Record VisualAIResult := {
  verdict : AnalysisResult;
  baselinePath : jsstring;
  actualPath : jsstring
}.

Definition baselineFolder (env : Env) : jsstring :=
  Path.resolve (cwd env) (u "tests/visual-baselines").

Definition actualFolder (env : Env) : jsstring :=
  Path.resolve (cwd env) (u "test-results/visual-actuals").

Definition baseline_path_of (env : Env) (baselineName : jsstring) : jsstring :=
  Path.join (baselineFolder env) (baselineName ++ u ".png").

Definition actual_path_of (env : Env) (baselineName : jsstring) : jsstring :=
  Path.join (actualFolder env) (baselineName ++ u ".png").

(** The module-level [llmService] and [visualModel]. *)
Definition llmService (cfg : Config) : LocalLLMService :=
  {| baseUrl := ollamaBaseUrl cfg; defaultModel := ollamaDefaultModel cfg |}.

Definition visualModel (cfg : Config) : jsstring :=
  string_or (ollamaVisualModel cfg) (u "llava:latest").

(** A template literal renders a missing value as [undefined]. *)
Definition render_optional (s : option jsstring) : jsstring :=
  match s with
  | Some v => v
  | None => u "undefined"
  end.

(** [interpretAIJsonResponse(response.text)] on whatever [response.text]
    holds.  On a value that is not a string the first [replace] throws inside
    the [try], and the [substring] of the [catch] block throws again, out of
    the function. *)
Definition interpret_response_text (JSON_parse : jsstring -> completion json)
    (t : option json) : completion AnalysisResult :=
  match t with
  | Some (JString s) => interpretAIJsonResponse JSON_parse s
  | Some JNull =>
      Throw (ErrorObj (u "Cannot read properties of null (reading 'substring')"))
  | None =>
      Throw (ErrorObj (u "Cannot read properties of undefined (reading 'substring')"))
  | Some _ => Throw (ErrorObj (u "responseText.substring is not a function"))
  end.

(** The [mask] handed to [page.screenshot]: the selectors when there are
    some, none otherwise. *)
Definition mask_argument (options : Options) : list jsstring :=
  match mask options with
  | Some (m :: r) => m :: r
  | _ => []
  end.

Definition truthy_flag (b : option bool) : bool :=
  match b with
  | Some true => true
  | _ => false
  end.

Definition comparison_request (cfg : Config) (baselineBase64 actualBase64 : jsstring)
    : MultimodalLLMRequest :=
  {| prompt := comparison_prompt;
     model := Some (visualModel cfg);
     temperature := Some num_0_1;
     maxTokens := None;
     systemPrompt := None;
     images := Some [baselineBase64; actualBase64] |}.

Definition expectPageToMatchVisuallyAI (JSON_parse : jsstring -> completion json)
    (env : Env) (page : Page) (baselineName : jsstring) (options : Options)
    : M VisualAIResult :=
  do* _ := ensureDir env (baselineFolder env) in
  do* _ := ensureDir env (actualFolder env) in
  let baselinePath := baseline_path_of env baselineName in
  let actualPath := actual_path_of env baselineName in
  do* _ := page_screenshot page actualPath (mask_argument options) in
  do* actualBuffer := fs_readFile actualPath in
  let actualBase64 := base64 actualBuffer in
  do* baselineExists := fs_exists baselinePath in
  if truthy_flag (updateBaselines options) || negb baselineExists then
    do* _ := fs_copyFile actualPath baselinePath in
    ret {| verdict := {| passed := true; reason := u "Baseline created/updated." |};
           baselinePath := baselinePath; actualPath := actualPath |}
  else
    do* baselineBuffer := fs_readFile baselinePath in
    let baselineBase64 := base64 baselineBuffer in
    let request := comparison_request (config env) baselineBase64 actualBase64 in
    do* response := generateMultimodalResponse env (llmService (config env)) request in
    if negb (success response) then
      let errorReason :=
        u "LLM service error during comparison for " ++ baselineName ++ u ": "
        ++ render_optional (error response) in
      ret {| verdict := {| passed := false; reason := errorReason |};
             baselinePath := baselinePath; actualPath := actualPath |}
    else
      match interpret_response_text JSON_parse (text response) with
      | Normal analysisResult =>
          ret {| verdict := analysisResult;
                 baselinePath := baselinePath; actualPath := actualPath |}
      | Throw e => throw e
      end.

(** ** The service factory ([LLMUtils.getLLMService]) *)

Record GoogleLLMService := { apiKey : jsstring; geminiModel : jsstring }.

Inductive LLMService :=
| OnDevice (s : LocalLLMService)
| Cloud (s : GoogleLLMService).

(** The constructor of [GoogleLLMService] throws without an API key. *)
Definition new_GoogleLLMService (cfg : Config) : completion GoogleLLMService :=
  match googleApiKey cfg with
  | [] =>
      Throw (ErrorObj
        (u "Google API Key (GOOGLE_API_KEY) is not configured in environment variables."))
  | _ :: _ =>
      Normal {| apiKey := googleApiKey cfg;
                geminiModel := string_or (googleGeminiModel cfg) (u "gemini-pro") |}
  end.

Definition new_LocalLLMService (cfg : Config) : LocalLLMService :=
  {| baseUrl := ollamaBaseUrl cfg; defaultModel := ollamaDefaultModel cfg |}.

(** [llmServiceInstance] is the module-level variable: the state before the
    call comes in, the state after it and the instance returned go out. *)
Definition getLLMService (cfg : Config) (llmServiceInstance : option LLMService)
    : option LLMService * LLMService :=
  match llmServiceInstance with
  | Some s => (Some s, s)
  | None =>
      let selected : option LLMService :=
        if bool_decide (aiServiceMode cfg = u "google") then
          match new_GoogleLLMService cfg with
          | Normal g => Some (Cloud g)
          | Throw _ => Some (OnDevice (new_LocalLLMService cfg))
          end
        else Some (OnDevice (new_LocalLLMService cfg)) in
      let s :=
        match selected with
        | Some s => s
        | None => OnDevice (new_LocalLLMService cfg)
        end in
      (Some s, s)
  end.

(** ** The text method of the on-device gateway ([LocalLLMService.generateText]) *)

(** The binary64 values of the literals [0.7] and [1000]:
    0x16666666666666 * 2^-53 and 1000 * 2^43 * 2^-43. *)
Definition num_0_7 : number := S754_finite false 6305039478318694 (-53).
Definition num_1000 : number := S754_finite false 8796093022208000 (-43).

(** The body [generateText] posts.  An [LLMRequest] is a request without
    [images]; the method does not read them when it is handed a multimodal
    request. *)
Definition text_payload (this : LocalLLMService) (request : MultimodalLLMRequest)
    : Payload :=
  {| p_model := opt_string_or (model request) (defaultModel this);
     p_prompt := prompt request;
     p_system := systemPrompt request;
     p_temperature := number_or (temperature request) num_0_7;
     p_max_tokens := number_or (maxTokens request) num_1000;
     p_stream := false;
     p_images := None |}.

Definition generateText (env : Env) (this : LocalLLMService)
    (request : MultimodalLLMRequest) : M LLMResponse :=
  let payload := text_payload this request in
  do* _ := emit (EvPost (generate_url this) payload) in
  ret (llm_response_of (http_post env (generate_url this) payload)).

(** ** The machine the utilities talk to

    [LocalLLMService.isModelAvailable], [listAvailableModels] and the
    functions of [LLMUtils] send [GET] requests, run shell commands and wait.
    What the machine answers may change from one call to the next: it is a
    function of everything done so far. *)

Record ExecOutput := { stdout : jsstring; stderr : jsstring }.

Inductive host_event :=
| HostGet (url : jsstring)
| HostExec (command : jsstring)
| HostSleep (ms : N).

Record Host := {
  (** [ToBoolean] of the number a JSON literal denotes *)
  number_truthy : jsstring -> bool;
  http_get : list host_event -> jsstring -> HttpOutcome;
  exec : list host_event -> jsstring -> completion ExecOutput
}.

Definition HostM (A : Type) : Type :=
  list host_event -> list host_event * completion A.

Definition retH {A} (a : A) : HostM A := fun h => (h, Normal a).

Definition bindH {A B} (c : HostM A) (k : A -> HostM B) : HostM B :=
  fun h =>
    match c h with
    | (h', Normal a) => k a h'
    | (h', Throw e) => (h', Throw e)
    end.

Notation "'run*' x ':=' c 'in' k" := (bindH c (fun x => k))
  (at level 10, x name, c at level 100, k at level 200).

(** [try { body } catch (error) { handler }] *)
Definition tryH {A} (body : HostM A) (handler : thrown -> HostM A) : HostM A :=
  fun h =>
    match body h with
    | (h', Normal a) => (h', Normal a)
    | (h', Throw e) => handler e h'
    end.

(** A computation without effects. *)
Definition liftH {A} (c : completion A) : HostM A := fun h => (h, c).

(** [axios.get(url)]: the [data] of the response, or the thrown error. *)
Definition axios_get (host : Host) (url : jsstring) : HostM (option json) :=
  fun h =>
    (h ++ [HostGet url],
     match http_get host h url with
     | HttpResponse data => Normal data
     | HttpFailure e => Throw e
     end).

(** [execPromise(command)] *)
Definition execPromise (host : Host) (command : jsstring) : HostM ExecOutput :=
  fun h => (h ++ [HostExec command], exec host h command).

(** [await new Promise((resolve) => setTimeout(resolve, ms))] *)
Definition sleep (ms : N) : HostM unit :=
  fun h => (h ++ [HostSleep ms], Normal tt).

(** [ToBoolean] of a parsed value *)
Definition json_truthy (host : Host) (v : json) : bool :=
  match v with
  | JNull => false
  | JBool b => b
  | JNumber literal => number_truthy host literal
  | JString s => negb (bool_decide (s = []))
  | JArray _ => true
  | JObject _ => true
  end.

(** [response.data.models || []] *)
Definition models_of (host : Host) (data : option json) : completion json :=
  match data with
  | None =>
      Throw (ErrorObj (u "Cannot read properties of undefined (reading 'models')"))
  | Some d =>
      let* models := get_prop d (u "models") in
      match models with
      | Some v => if json_truthy host v then Normal v else Normal (JArray [])
      | None => Normal (JArray [])
      end
  end.

(** [m.name === model] *)
Definition name_is (model : jsstring) (name : option json) : bool :=
  match name with
  | Some (JString s) => jsstring_eqb s model
  | _ => false
  end.

(** [availableModels.some((m) => m.name === model)] on an array: the
    elements in order, up to the first one that has the name; reading the
    name of [null] throws. *)
Fixpoint some_named (model : jsstring) (ms : list json) : completion bool :=
  match ms with
  | [] => Normal false
  | m :: r =>
      let* name := get_prop m (u "name") in
      if name_is model name then Normal true else some_named model r
  end.

(** [models.map((m) => m.name)] on an array *)
Fixpoint names_of (ms : list json) : completion (list (option json)) :=
  match ms with
  | [] => Normal []
  | m :: r =>
      let* name := get_prop m (u "name") in
      let* names := names_of r in
      Normal (name :: names)
  end.

(** A value that is not an array has no method [some] or [map]. *)
Definition not_a_function (method : jsstring) : thrown :=
  ErrorObj (method ++ u " is not a function").

Definition tags_url (this : LocalLLMService) : jsstring :=
  baseUrl this ++ u "/tags".

(** [isModelAvailable(model = this.defaultModel)] *)
Definition isModelAvailable (host : Host) (this : LocalLLMService)
    (model : option jsstring) : HostM bool :=
  let model :=
    match model with
    | Some m => m
    | None => defaultModel this
    end in
  tryH
    (run* data := axios_get host (tags_url this) in
     liftH (let* availableModels := models_of host data in
            match availableModels with
            | JArray ms => some_named model ms
            | _ => Throw (not_a_function (u "availableModels.some"))
            end))
    (fun _ => retH false).

(** [listAvailableModels()]: the [name] of every element, whatever it
    holds ([None] is [undefined]). *)
Definition listAvailableModels (host : Host) (this : LocalLLMService)
    : HostM (list (option json)) :=
  tryH
    (run* data := axios_get host (tags_url this) in
     liftH (let* models := models_of host data in
            match models with
            | JArray ms => names_of ms
            | _ => Throw (not_a_function (u "models.map"))
            end))
    (fun _ => retH []).

(** ** The utilities ([LLMUtils]) *)

(** [new LocalLLMService()] *)
Definition default_LocalLLMService : LocalLLMService :=
  {| baseUrl := u "http://localhost:11434/api";
     defaultModel := u "llama3:latest" |}.

Module LLMUtils.

Definition isOllamaRunning (host : Host) : HostM bool :=
  tryH
    (run* models := listAvailableModels host default_LocalLLMService in
     retH (0 <? length models)%nat)
    (fun _ => retH false).

(** The loop of [startOllama]: [attempts] rounds are left. *)
Fixpoint wait_for_ollama (host : Host) (attempts : nat) : HostM bool :=
  match attempts with
  | O => retH false
  | S k =>
      run* _ := sleep 2000 in
      run* running := isOllamaRunning host in
      if running then retH true else wait_for_ollama host k
  end.

Definition startOllama (host : Host) : HostM bool :=
  tryH
    (run* running := isOllamaRunning host in
     if running then retH true
     else
       run* _ := execPromise host (u "ollama serve &") in
       wait_for_ollama host 5)
    (fun _ => retH false).

Definition isModelAvailable (host : Host) (modelName : jsstring) : HostM bool :=
  tryH
    (isModelAvailable host default_LocalLLMService (Some modelName))
    (fun _ => retH false).

Definition pullModelIfNeeded (host : Host) (modelName : jsstring) : HostM bool :=
  tryH
    (run* available := isModelAvailable host modelName in
     if available then retH true
     else
       run* _ := execPromise host (u "ollama pull " ++ modelName) in
       isModelAvailable host modelName)
    (fun _ => retH false).

Definition getRecommendedModel : jsstring := u "llama3:latest".

End LLMUtils.

(** ** The cloud gateway ([GoogleLLMService]) *)

Module Google.

(** The table of prefixes, in the order of its keys. *)
Definition base64MimeMap : list (jsstring * jsstring) :=
  [(u "iVBORw0KGgo", u "image/png");
   (u "/9j/", u "image/jpeg");
   (u "R0lGODlh", u "image/gif");
   (u "UklGR", u "image/webp")].

(** The [for ... in] loop: the type of the first prefix the text starts
    with. *)
Fixpoint first_prefix (table : list (jsstring * jsstring)) (s : jsstring)
    : option jsstring :=
  match table with
  | [] => None
  | (prefix, mime) :: r =>
      if starts_with prefix s then Some mime else first_prefix r s
  end.

(** The declared result is [string | undefined]: [None] is [undefined]. *)
Definition getMimeTypeFromBase64 (base64String : jsstring) : option jsstring :=
  match first_prefix base64MimeMap base64String with
  | Some mime => Some mime
  | None => Some (u "image/png")
  end.

Inductive Part :=
| TextPart (text : jsstring)
| InlineData (mimeType data : jsstring).

Record Content := { role : jsstring; parts : list Part }.

Record GenerationConfig := { gc_temperature : number; gc_maxOutputTokens : number }.

Inductive HarmCategory :=
| HARM_CATEGORY_HARASSMENT
| HARM_CATEGORY_HATE_SPEECH
| HARM_CATEGORY_SEXUALLY_EXPLICIT
| HARM_CATEGORY_DANGEROUS_CONTENT.

Inductive HarmBlockThreshold :=
| BLOCK_MEDIUM_AND_ABOVE.

Record SafetySetting := { category : HarmCategory; threshold : HarmBlockThreshold }.

Record GenerateContentRequest := {
  contents : list Content;
  generationConfig : GenerationConfig;
  safetySettings : list SafetySetting
}.

Definition default_safetySettings : list SafetySetting :=
  [{| category := HARM_CATEGORY_HARASSMENT; threshold := BLOCK_MEDIUM_AND_ABOVE |};
   {| category := HARM_CATEGORY_HATE_SPEECH; threshold := BLOCK_MEDIUM_AND_ABOVE |};
   {| category := HARM_CATEGORY_SEXUALLY_EXPLICIT; threshold := BLOCK_MEDIUM_AND_ABOVE |};
   {| category := HARM_CATEGORY_DANGEROUS_CONTENT; threshold := BLOCK_MEDIUM_AND_ABOVE |}].

(** The library: [getGenerativeModel({ model })], [generateContent(request)]
    and [response.text()] for a client made with an API key: the text, or
    the error one of the three throws. *)
Definition Sdk : Type :=
  jsstring -> jsstring -> GenerateContentRequest -> completion jsstring.

Definition executeGeneration (sdk : Sdk) (this : GoogleLLMService)
    (modelName : jsstring) (requestPayload : GenerateContentRequest) : LLMResponse :=
  match sdk (apiKey this) modelName requestPayload with
  | Normal t => {| text := Some (JString t); success := true; error := None |}
  | Throw e =>
      {| text := Some (JString []); success := false;
         error := Some (error_message e) |}
  end.

(** [x ?? d] on an optional number *)
Definition number_nullish_or (x : option number) (d : number) : number :=
  match x with
  | Some v => v
  | None => d
  end.

(** What [generateText] hands to [executeGeneration]. *)
Definition text_call (this : GoogleLLMService) (request : MultimodalLLMRequest)
    : jsstring * GenerateContentRequest :=
  let modelToUse := opt_string_or (model request) (geminiModel this) in
  let fullPrompt :=
    match systemPrompt request with
    | Some (c :: s) => (c :: s) ++ [newline; newline] ++ prompt request
    | _ => prompt request
    end in
  (modelToUse,
   {| contents := [{| role := u "user"; parts := [TextPart fullPrompt] |}];
      generationConfig :=
        {| gc_temperature := number_nullish_or (temperature request) num_0_7;
           gc_maxOutputTokens := number_nullish_or (maxTokens request) num_1000 |};
      safetySettings := default_safetySettings |}).

Definition generateText (sdk : Sdk) (this : GoogleLLMService)
    (request : MultimodalLLMRequest) : LLMResponse :=
  let '(modelToUse, requestPayload) := text_call this request in
  executeGeneration sdk this modelToUse requestPayload.

(** The part made of one image. *)
Definition image_part (base64String : jsstring) : Part :=
  match getMimeTypeFromBase64 base64String with
  | Some (c :: mimeType) => InlineData (c :: mimeType) base64String
  | _ => TextPart (u "[Error: Invalid image format]")
  end.

(** What [generateMultimodalResponse] hands to [executeGeneration], directly
    or through [generateText] when there is no image. *)
Definition multimodal_call (cfg : Config) (this : GoogleLLMService)
    (request : MultimodalLLMRequest) : jsstring * GenerateContentRequest :=
  let modelToUse :=
    opt_string_or (model request)
      (string_or (googleGeminiModel cfg) (u "gemini-pro-vision")) in
  match images request with
  | Some (i :: r) =>
      let imageParts := map image_part (i :: r) in
      let promptParts := TextPart (prompt request) :: imageParts in
      let fullPromptContent :=
        match systemPrompt request with
        | Some (c :: s) =>
            [{| role := u "user"; parts := [TextPart (c :: s)] |};
             {| role := u "user"; parts := promptParts |}]
        | _ => [{| role := u "user"; parts := promptParts |}]
        end in
      (modelToUse,
       {| contents := fullPromptContent;
          generationConfig :=
            {| gc_temperature := number_nullish_or (temperature request) num_0_2;
               gc_maxOutputTokens := number_nullish_or (maxTokens request) num_2048 |};
          safetySettings := default_safetySettings |})
  | _ => text_call this request
  end.

Definition generateMultimodalResponse (sdk : Sdk) (cfg : Config)
    (this : GoogleLLMService) (request : MultimodalLLMRequest) : LLMResponse :=
  let '(modelToUse, requestPayload) := multimodal_call cfg this request in
  executeGeneration sdk this modelToUse requestPayload.

End Google.

(** ** Loading the configuration ([Config]) *)

(** [process.env.NAME || fallback]: a variable that is not set, or set to the
    empty string, gives the fallback. *)
Definition env_or (penv : gmap (list N) (list N)) (name fallback : jsstring)
    : jsstring :=
  opt_string_or (penv !! name) fallback.

(** The settings of the AI services, from [process.env] as it is once
    [dotenv] has run.  [toLowerCase] is the host's. *)
Definition load_config (toLowerCase : jsstring -> jsstring)
    (penv : gmap (list N) (list N)) : Config :=
  {| ollamaBaseUrl := env_or penv (u "OLLAMA_BASE_URL") (u "http://localhost:11434/api");
     ollamaDefaultModel := env_or penv (u "OLLAMA_DEFAULT_MODEL") (u "llama3:latest");
     ollamaVisualModel := env_or penv (u "OLLAMA_VISUAL_MODEL") (u "llava:latest");
     aiServiceMode :=
       opt_string_or (option_map toLowerCase (penv !! u "AI_SERVICE_MODE")) (u "local");
     googleApiKey := env_or penv (u "GOOGLE_API_KEY") [];
     googleGeminiModel := env_or penv (u "GOOGLE_GEMINI_MODEL") (u "gemini-pro") |}.

(** ** Cleaning generated code ([TestGenerator.cleanGeneratedCode]) *)

Definition fence : jsstring := Eval vm_compute in u "```".
Definition fence_typescript : jsstring := Eval vm_compute in u "```typescript".
Definition fence_ts : jsstring := Eval vm_compute in u "```ts".
Definition fence_javascript : jsstring := Eval vm_compute in u "```javascript".
Definition fence_js : jsstring := Eval vm_compute in u "```js".

(** The alternatives of the first expression, tried in their order at each
    position; every match is replaced by nothing. *)
Definition code_fence_match (before rest : jsstring) : option (nat * jsstring) :=
  if starts_with fence_typescript rest then Some (13%nat, [])
  else if starts_with fence_ts rest then Some (5%nat, [])
  else if starts_with fence_javascript rest then Some (13%nat, [])
  else if starts_with fence_js rest then Some (5%nat, [])
  else if starts_with fence rest then Some (3%nat, [])
  else None.

(** The canonical form of a unit under the flag [i] (without the flag [u]):
    its upper case when that is one unit, except for a unit outside ASCII
    whose upper case is inside.  On the letters of the two words the test
    comes to this: the ASCII letters a to z go to A to Z, and no unit
    outside ASCII goes to an ASCII letter. *)
Definition canonicalize_ascii (c : N) : N :=
  if (97 <=? c) && (c <=? 122) then c - 32 else c.

Fixpoint starts_with_ignoring_case (p s : jsstring) : bool :=
  match p, s with
  | [], _ => true
  | a :: p', b :: s' =>
      (canonicalize_ascii a =? canonicalize_ascii b) && starts_with_ignoring_case p' s'
  | _ :: _, [] => false
  end.

Definition word_typescript : jsstring := Eval vm_compute in u "typescript".
Definition word_javascript : jsstring := Eval vm_compute in u "javascript".

(** The second expression, anchored at the start and without the flag [g]:
    one of the two words at the start of the text is removed. *)
Definition strip_language_word (s : jsstring) : jsstring :=
  if starts_with_ignoring_case word_typescript s then drop 10 s
  else if starts_with_ignoring_case word_javascript s then drop 10 s
  else s.

Definition cleanGeneratedCode (code : jsstring) : jsstring :=
  trim (strip_language_word (trim (replace_all code_fence_match [] 0 code))).

(** ** Generating a test ([TestGenerator]) *)

Record TestGenerator := {
  tg_llmService : LocalLLMService;
  tg_defaultModel : jsstring
}.

(** The constructor, with or without a service. *)
Definition new_TestGenerator (llmService : option LocalLLMService) : TestGenerator :=
  let recommended := LLMUtils.getRecommendedModel in
  {| tg_llmService :=
       match llmService with
       | Some service => service
       | None =>
           {| baseUrl := u "http://localhost:11434/api"; defaultModel := recommended |}
       end;
     tg_defaultModel := recommended |}.

(** The binary64 values of the literals [0.3] and [2000]. *)
Definition num_0_3 : number := S754_finite false 5404319552844595 (-54).
Definition num_2000 : number := S754_finite false 8796093022208000 (-42).

(** The lines of a template, joined by line breaks. *)
Fixpoint lines (ls : list jsstring) : jsstring :=
  match ls with
  | [] => []
  | [l] => l
  | l :: r => l ++ newline :: lines r
  end.

Definition generate_system_prompt : jsstring :=
  lines [
    u "You are a test automation expert. Your task is to create Playwright test cases ";
    u "based on specifications. Follow these guidelines:";
    u "- Write clean, maintainable TypeScript code";
    u "- Use the Page Object Model pattern when appropriate";
    u "- Include proper assertions and error handling";
    u "- Follow the AAA (Arrange-Act-Assert) pattern";
    u "- Return ONLY valid TypeScript code with no explanations or markdown formatting"
  ].

Definition generate_prompt (specification : jsstring) : jsstring :=
  lines [
    u "Create Playwright test cases for the following specification:";
    [];
    specification;
    [];
    u "IMPORTANT: ";
    u "- Return only TypeScript code";
    u "- Include necessary imports";
    u "- Use TypeScript features (types, interfaces, etc.)"
  ].

Definition generate_request (this : TestGenerator) (specification : jsstring)
    : MultimodalLLMRequest :=
  {| prompt := generate_prompt specification;
     model := Some (tg_defaultModel this);
     temperature := Some num_0_2;
     maxTokens := Some num_2000;
     systemPrompt := Some generate_system_prompt;
     images := None |}.

(** [this.cleanGeneratedCode(response.text)] on whatever [response.text]
    holds: on a value that is not a string the first [replace] throws. *)
Definition clean_response_text (t : option json) : completion jsstring :=
  match t with
  | Some (JString code) => Normal (cleanGeneratedCode code)
  | Some JNull =>
      Throw (ErrorObj (u "Cannot read properties of null (reading 'replace')"))
  | None =>
      Throw (ErrorObj (u "Cannot read properties of undefined (reading 'replace')"))
  | Some _ => Throw (ErrorObj (u "code.replace is not a function"))
  end.

Definition generateTestFromSpec (env : Env) (this : TestGenerator)
    (specification : jsstring) : M jsstring :=
  do* response :=
    generateText env (tg_llmService this) (generate_request this specification) in
  if negb (success response) then ret []
  else
    match clean_response_text (text response) with
    | Normal code => ret code
    | Throw e => throw e
    end.

(** ** Improving a test ([TestEnhancer.improveTest]) *)

Record TestEnhancer := {
  te_llmService : LLMService;
  te_defaultModel : jsstring
}.

(** The constructor: the service of the factory, and the recommended
    model.  The module-level instance of the factory goes in and out. *)
Definition new_TestEnhancer (cfg : Config) (llmServiceInstance : option LLMService)
    : option LLMService * TestEnhancer :=
  let '(instance, service) := getLLMService cfg llmServiceInstance in
  (instance,
   {| te_llmService := service;
      te_defaultModel := LLMUtils.getRecommendedModel |}).

(** [llmService.generateText(request)] through the interface. *)
Definition service_generateText (env : Env) (sdk : Google.Sdk) (service : LLMService)
    (request : MultimodalLLMRequest) : M LLMResponse :=
  match service with
  | OnDevice s => generateText env s request
  | Cloud s => ret (Google.generateText sdk s request)
  end.

Definition improve_system_prompt : jsstring :=
  u "You are a test improvement expert. Analyze test code and suggest comprehensive improvements.".

Definition improve_prompt (testCode : jsstring) : jsstring :=
  lines [
    u "Analyze this test code and suggest comprehensive improvements:";
    [];
    u "```typescript";
    testCode;
    u "```";
    [];
    u "Return your suggestions as a JSON object with the following categories:";
    u "{";
    uq "  'refactoringSuggestions': ['Suggestion 1', 'Suggestion 2', ...],";
    uq "  'coverageSuggestions': ['Suggestion 1', 'Suggestion 2', ...],";
    uq "  'performanceSuggestions': ['Suggestion 1', 'Suggestion 2', ...],";
    uq "  'maintenanceSuggestions': ['Suggestion 1', 'Suggestion 2', ...]";
    u "}"
  ].

Definition improve_request (this : TestEnhancer) (testCode : jsstring)
    : MultimodalLLMRequest :=
  {| prompt := improve_prompt testCode;
     model := Some (te_defaultModel this);
     temperature := Some num_0_3;
     maxTokens := Some num_2000;
     systemPrompt := Some improve_system_prompt;
     images := None |}.

(** The object with the four lists of suggestions. *)
Definition improvements (refactoring coverage performance maintenance : list jsstring)
    : json :=
  JObject [(u "refactoringSuggestions", JArray (map JString refactoring));
           (u "coverageSuggestions", JArray (map JString coverage));
           (u "performanceSuggestions", JArray (map JString performance));
           (u "maintenanceSuggestions", JArray (map JString maintenance))].

Definition empty_improvements : json := improvements [] [] [] [].

Definition fallback_improvements : json :=
  improvements
    [u "Consider breaking down complex tests into smaller ones"]
    [u "Add more edge case testing"]
    [u "Review wait operations for performance impact"]
    [u "Add more descriptive comments"].

(** The match of an opening brace, anything, and a closing brace, the
    longest from the leftmost start: from the first opening brace to the
    last closing brace, when that one comes later. *)
Definition match_braces (s : jsstring) : option jsstring :=
  let first := indexOf lbrace s in
  let last := lastIndexOf rbrace s in
  if (first =? -1)%Z || (last <? first)%Z then None
  else Some (substring s first (last + 1)).

(** What [improveTest] makes of the response: the [if], then the [try] and
    its [catch].  Nothing is checked about the value that is parsed. *)
Definition read_improvements (JSON_parse : jsstring -> completion json)
    (response : LLMResponse) : json :=
  if negb (success response) then empty_improvements
  else
    let attempt :=
      let* responseText :=
        match text response with
        | Some (JString s) => Normal (trim s)
        | Some JNull =>
            Throw (ErrorObj (u "Cannot read properties of null (reading 'trim')"))
        | None =>
            Throw (ErrorObj (u "Cannot read properties of undefined (reading 'trim')"))
        | Some _ => Throw (ErrorObj (u "response.text.trim is not a function"))
        end in
      match match_braces responseText with
      | Some jsonText => JSON_parse jsonText
      | None => Throw (ErrorObj (u "No JSON object found in response"))
      end in
    match attempt with
    | Normal parsed => parsed
    | Throw _ => fallback_improvements
    end.

Definition improveTest (JSON_parse : jsstring -> completion json) (env : Env)
    (sdk : Google.Sdk) (this : TestEnhancer) (testCode : jsstring) : M json :=
  do* response :=
    service_generateText env sdk (te_llmService this) (improve_request this testCode) in
  ret (read_improvements JSON_parse response).

(** ** Suggestions read from free text

    [extractSuggestionsFromText] of [TestGenerator]; [extractPatternsFromText]
    of [TestEnhancer] has the same body.  Each line of the text is matched,
    from its start, against a first group, which is either digits followed
    by a dot or a closing parenthesis or one of the bullets, in both cases
    followed by white space, and a second group of one or more units other
    than line terminators. *)

(** [text.split("\n")] *)
Fixpoint split_lines (s : jsstring) : list jsstring :=
  match s with
  | [] => [[]]
  | c :: r =>
      if c =? newline then [] :: split_lines r
      else match split_lines r with
           | l :: ls => (c :: l) :: ls
           | [] => [[c]]
           end
  end.

(** The units that [.] does not match. *)
Definition is_line_terminator (c : N) : bool :=
  (c =? 10) || (c =? 13) || (c =? 8232) || (c =? 8233).

Definition is_bullet (c : N) : bool := (c =? 45) || (c =? 42) || (c =? 8226).

(** What follows the number and its [.] or [)], or the bullet, at the start
    of the line.  The digits are taken greedily, and giving one back cannot
    help, the next unit being a digit; a line that starts with a digit
    does not start with a bullet. *)
Definition after_marker (line : jsstring) : option jsstring :=
  match line with
  | [] => None
  | c :: r =>
      if JSON.is_digit c then
        match drop_while JSON.is_digit r with
        | d :: rest => if (d =? 46) || (d =? 41) then Some rest else None
        | [] => None
        end
      else if is_bullet c then Some r
      else None
  end.

(** The second group: [\s*] takes all the white space, and [(.+)] the rest
    up to a line terminator.  When only white space follows the marker,
    [\s*] gives units back until [.] matches one: the last one that is no
    line terminator, which is then the whole group. *)
Definition item_text (rest : jsstring) : option jsstring :=
  match drop_while is_whitespace rest with
  | c :: r => Some (take_while (fun x => negb (is_line_terminator x)) (c :: r))
  | [] =>
      match List.find (fun x => negb (is_line_terminator x)) (rev rest) with
      | Some x => Some [x]
      | None => None
      end
  end.

(** [match[2].trim()], when the line matches. *)
Definition list_item (line : jsstring) : option jsstring :=
  match after_marker line with
  | Some rest => option_map trim (item_text rest)
  | None => None
  end.

Definition extractSuggestionsFromText (text : jsstring) : list jsstring :=
  let suggestions := omap list_item (split_lines text) in
  match suggestions with
  | [] => [trim text]
  | _ :: _ => suggestions
  end.

(** ** Vocabulary of the statements *)

(** [hay.includes(needle)] *)
Fixpoint includes (needle hay : jsstring) : bool :=
  starts_with needle hay
  || match hay with
     | [] => false
     | _ :: r => includes needle r
     end.

(** The verdict a parsed value carries when it has a boolean [passed] and a
    string [reason]. *)
Definition well_shaped (v : json) : option (bool * jsstring) :=
  match v with
  | JObject fields =>
      match lookup_field (u "passed") fields, lookup_field (u "reason") fields with
      | Some (JBool b), Some (JString r) => Some (b, r)
      | _, _ => None
      end
  | _ => None
  end.

(** The own property [key] of a parsed value, [None] when there is none. *)
Definition field (v : json) (key : jsstring) : option json :=
  match v with
  | JObject fields => lookup_field key fields
  | _ => None
  end.

(** [fs.mkdir] succeeds, or fails with the one code [ensureDir] swallows. *)
Definition mkdir_passes (env : Env) (dir : jsstring) : Prop :=
  match mkdir env dir with
  | None => True
  | Some e => code e = u "EEXIST"
  end.

(** The events that write the file at [p]. *)
Definition writes_to (p : jsstring) (e : event) : Prop :=
  match e with
  | EvScreenshot q _ => q = p
  | EvCopyFile _ q => q = p
  | _ => False
  end.

Definition is_post (e : event) : Prop :=
  match e with
  | EvPost _ _ => True
  | _ => False
  end.

(** The body the orchestrator posts for a baseline and a capture, and what
    the gateway answers to it. *)
Definition comparison_payload (cfg : Config) (base img : list Byte.byte) : Payload :=
  build_payload (llmService cfg)
    (comparison_request cfg (base64 base) (base64 img)).

Definition gateway_answer (env : Env) (base img : list Byte.byte) : LLMResponse :=
  llm_response_of
    (http_post env (generate_url (llmService (config env)))
       (comparison_payload (config env) base img)).

(** The world once [ensureDir] has run on [d]. *)
Definition ensured (env : Env) (d : jsstring) (w : World) : World :=
  fst (fs_mkdir env d (record_event (EvMkdir d) w)).

(** The world once the screenshot is taken, read back and the baseline
    looked for. *)
Definition after_capture (env : Env) (name : jsstring) (options : Options)
    (img : list Byte.byte) (w : World) : World :=
  record_event (EvAccess (baseline_path_of env name))
    (record_event (EvReadFile (actual_path_of env name))
       (set_file (actual_path_of env name) img
          (add_folders (Path.folders_to (Path.dirname (actual_path_of env name)))
             (record_event
                (EvScreenshot (actual_path_of env name) (mask_argument options))
                (ensured env (actualFolder env)
                   (ensured env (baselineFolder env) w)))))).

(** What [fs.access] finds at the baseline path, once the capture is
    stored. *)
Definition baseline_seen (env : Env) (name : jsstring) (options : Options)
    (img : list Byte.byte) (w : World) : bool :=
  is_file (after_capture env name options img w) (baseline_path_of env name)
  || is_folder (after_capture env name options img w) (baseline_path_of env name).

(** The folder [d] is there once [ensureDir] has run: it is one already, or
    it can be made, the environment not refusing and no regular file
    standing at [d] or at a folder above it. *)
Definition folder_ready (env : Env) (w : World) (d : jsstring) : Prop :=
  d ∈ folders w
  \/ (mkdir env d = None
      /\ Forall (fun p => files w !! p = None) (Path.folders_to d)).

(** The requests an invocation may send: only to the on-device endpoint of
    the configuration. *)
Definition to_on_device (cfg : Config) (e : event) : Prop :=
  match e with
  | EvPost url _ => url = ollamaBaseUrl cfg ++ u "/generate"
  | _ => True
  end.

Definition bool_literal (b : bool) : jsstring :=
  if b then u "true" else u "false".

(** [t] is [s] with commas inserted, and nothing else changed. *)
Inductive commas_inserted : jsstring -> jsstring -> Prop :=
| ci_nil : commas_inserted [] []
| ci_keep c s t : commas_inserted s t -> commas_inserted (c :: s) (c :: t)
| ci_comma s t : commas_inserted s t -> commas_inserted s (44 :: t).

(** The repair as the specification words it.  Behind a position stand the
    key [passed] with its colon, white space and a boolean; ahead of it
    stand white space and the key [reason] with its colon. *)
Definition passed_bool_behind (behind : jsstring) : Prop :=
  exists p w b,
    behind = p ++ key_passed ++ w ++ bool_literal b
    /\ Forall (fun x => is_whitespace x = true) w.

Definition reason_key_ahead (ahead : jsstring) : Prop :=
  exists w t,
    ahead = w ++ key_reason ++ t /\ Forall (fun x => is_whitespace x = true) w.

Definition comma_missing (behind ahead : jsstring) : Prop :=
  passed_bool_behind behind /\ reason_key_ahead ahead.

(** [repaired behind ahead out]: with [behind] already read, reading [ahead]
    from left to right gives [out].  Where a comma is missing one is put,
    and the white space and the key that follow are copied; every other
    unit is copied as it is. *)
Inductive repaired : jsstring -> jsstring -> jsstring -> Prop :=
| repaired_end behind : repaired behind [] []
| repaired_comma behind w t out :
    passed_bool_behind behind ->
    Forall (fun x => is_whitespace x = true) w ->
    repaired (behind ++ w ++ key_reason) t out ->
    repaired behind (w ++ key_reason ++ t) (u "," ++ w ++ key_reason ++ out)
| repaired_copy behind c t out :
    ~ comma_missing behind (c :: t) ->
    repaired (behind ++ [c]) t out ->
    repaired behind (c :: t) (c :: out).

Definition fence_open : jsstring := u "```json".

(** A unit that stands for itself inside a JSON string: no quote, no
    backslash, no control character. *)
Definition plain_unit (c : N) : bool :=
  negb (c =? 34) && negb (c =? 92) && (32 <=? c).

(** [json_string_body E X]: [E] is what a well-formed JSON text has between
    the quotes of a string whose value is [X]: units that stand for
    themselves, one-letter escapes and escapes of four hexadecimal
    digits. *)
Inductive json_string_body : jsstring -> jsstring -> Prop :=
| body_end : json_string_body [] []
| body_plain c E X :
    plain_unit c = true -> json_string_body E X ->
    json_string_body (c :: E) (c :: X)
| body_escape e cu E X :
    JSON.simple_escape e = Some cu -> json_string_body E X ->
    json_string_body (backslash :: e :: E) (cu :: X)
| body_unicode h1 h2 h3 h4 cu E X :
    JSON.hex4 h1 h2 h3 h4 = Some cu -> json_string_body E X ->
    json_string_body (backslash :: 117 :: h1 :: h2 :: h3 :: h4 :: E) (cu :: X).

(** The reply the prompt asks for, with [E] between the quotes of the
    reason. *)
Definition verdict_text (b : bool) (E : jsstring) : jsstring :=
  uq "{'passed': " ++ bool_literal b ++ uq ", 'reason': '" ++ E ++ uq "'}".

(** What is between the braces, before the reason. *)
Definition verdict_head (b : bool) : jsstring :=
  Eval vm_compute in
    (if b then uq "'passed': true, 'reason': '" else uq "'passed': false, 'reason': '").

(** A segment that [normalizeString] keeps. *)
Definition kept_segment (seg : jsstring) : Prop :=
  seg <> [] /\ seg <> [46] /\ seg <> [46; 46] /\ slash ∉ seg.

(** The world once the baseline is written from the capture, and once the
    comparison request is sent. *)
Definition after_copy (env : Env) (name : jsstring) (options : Options)
    (img : list Byte.byte) (w : World) : World :=
  set_file (baseline_path_of env name) img
    (record_event (EvCopyFile (actual_path_of env name) (baseline_path_of env name))
       (after_capture env name options img w)).

Definition after_request (env : Env) (name : jsstring) (options : Options)
    (base img : list Byte.byte) (w : World) : World :=
  record_event
    (EvPost (generate_url (llmService (config env)))
       (comparison_payload (config env) base img))
    (record_event (EvReadFile (baseline_path_of env name))
       (after_capture env name options img w)).

(** The result an invocation carries for a verdict. *)
Definition result_of (env : Env) (name : jsstring) (v : AnalysisResult)
    : VisualAIResult :=
  {| verdict := v;
     baselinePath := baseline_path_of env name;
     actualPath := actual_path_of env name |}.

(** The verdict for an answer of the gateway with [success = false]. *)
Definition gateway_error_verdict (name : jsstring) (r : LLMResponse)
    : AnalysisResult :=
  {| passed := false;
     reason := u "LLM service error during comparison for " ++ name ++ u ": "
               ++ render_optional (error r) |}.

(** The segments of the working directory, once normalised. *)
Definition cwd_segments (env : Env) : list jsstring :=
  Path.normalize_segments (Path.split (cwd env)).

(** A name that climbs out of the folder of the captures and into the
    folder of the baselines. *)
Definition climbing_name (n : jsstring) : jsstring :=
  u "../../tests/visual-baselines/" ++ n.

(** The address the utilities ask for the models: the one of
    [new LocalLLMService()]. *)
Definition default_tags_url : jsstring := u "http://localhost:11434/api/tags".

(** What [isOllamaRunning] answers after the history [h]. *)
Definition running_after (host : Host) (h : list host_event) : bool :=
  match snd (LLMUtils.isOllamaRunning host h) with
  | Normal b => b
  | Throw _ => false
  end.

Definition is_get (e : host_event) : bool :=
  match e with
  | HostGet _ => true
  | _ => false
  end.

Definition is_exec (e : host_event) : bool :=
  match e with
  | HostExec _ => true
  | _ => false
  end.

(** The time an event waits, in milliseconds. *)
Definition waited (e : host_event) : N :=
  match e with
  | HostSleep ms => ms
  | _ => 0
  end.

Definition total_wait (evs : list host_event) : N :=
  fold_right (fun e acc => waited e + acc) 0 evs.

(** The reply to the request sent after [h] to [url] is an object whose
    [models] is an array that holds an object with the name. *)
Definition lists_model (host : Host) (h : list host_event) (url name : jsstring)
    : Prop :=
  exists fields ms fs,
    http_get host h url = HttpResponse (Some (JObject fields))
    /\ lookup_field (u "models") fields = Some (JArray ms)
    /\ JObject fs ∈ ms
    /\ lookup_field (u "name") fs = Some (JString name).

(** The first bytes of the image formats. *)
Definition png_signature : list Byte.byte :=
  [Byte.x89; Byte.x50; Byte.x4e; Byte.x47; Byte.x0d; Byte.x0a; Byte.x1a; Byte.x0a].

Definition jpeg_signature : list Byte.byte := [Byte.xff; Byte.xd8; Byte.xff].

Definition gif89a_signature : list Byte.byte :=
  [Byte.x47; Byte.x49; Byte.x46; Byte.x38; Byte.x39; Byte.x61].

Definition gif87a_signature : list Byte.byte :=
  [Byte.x47; Byte.x49; Byte.x46; Byte.x38; Byte.x37; Byte.x61].

Definition riff_signature : list Byte.byte :=
  [Byte.x52; Byte.x49; Byte.x46; Byte.x46].

(** The parts of the last message of a request to the cloud backend. *)
Definition last_parts (p : Google.GenerateContentRequest) : list Google.Part :=
  match last (Google.contents p) with
  | Some c => Google.parts c
  | None => []
  end.

(** The openers of a code block that [cleanGeneratedCode] knows. *)
Definition fence_openers : list jsstring :=
  [fence_typescript; fence_ts; fence_javascript; fence_js; fence].

(** White space between the tokens of a JSON text. *)
Definition json_space (w : jsstring) : Prop :=
  Forall (fun c => JSON.is_ws c = true) w.

(** The line breaks of a text replaced by spaces (step 3 of the
    interpreter). *)
Definition flatten (s : jsstring) : jsstring :=
  replace_unit carriage_return space (replace_unit newline space s).

(** The reply with any white space between its tokens, line breaks
    included; [comma] tells whether the comma after the boolean is there
    (without it [w2] is not used). *)
Definition verdict_layout (comma : bool) (w0 w1 w2 w3 w4 w5 : jsstring)
    (b : bool) (E : jsstring) : jsstring :=
  lbrace :: w0 ++ key_passed ++ w1 ++ bool_literal b
  ++ (if comma then w2 ++ [44] else []) ++ w3 ++ key_reason ++ w4
  ++ dquote :: E ++ dquote :: w5 ++ [rbrace].

(** The three replies the prompt of the comparison shows to the model. *)
Definition prompt_examples : list (bool * jsstring) :=
  [(true, u "No significant visual regressions detected.");
   (false,
    u "[Brief description of the MOST significant difference(s) found, focusing on impact]");
   (false, u "Comparison could not be performed due to missing visual content.")].

(** The start of a list item: a number followed by [.] or [)], or one of
    the bullets [-], [*] and [•]. *)
Inductive list_marker : jsstring -> Prop :=
  | marker_number (digits : jsstring) (d : N) :
      digits <> [] -> Forall (fun c => JSON.is_digit c = true) digits ->
      d = 46 \/ d = 41 -> list_marker (digits ++ [d])
  | marker_bullet (c : N) : is_bullet c = true -> list_marker [c].

(** A line of a list: the marker, white space other than a line break, and
    the item. *)
Record list_line : Type :=
  { ll_marker : jsstring; ll_gap : jsstring; ll_item : jsstring }.

Definition render_line (l : list_line) : jsstring :=
  ll_marker l ++ ll_gap l ++ ll_item l.

Definition well_formed_line (l : list_line) : Prop :=
  list_marker (ll_marker l)
  /\ Forall (fun c => is_whitespace c = true /\ c <> newline) (ll_gap l)
  /\ ll_item l <> []
  /\ trim (ll_item l) = ll_item l
  /\ Forall (fun c => is_line_terminator c = false) (ll_item l).

(** ** Sample inputs *)

Definition sample_syntax_error (text : jsstring) : jsstring :=
  u "Unexpected token in JSON".

Definition sample_config : Config :=
  {| ollamaBaseUrl := u "http://localhost:11434/api";
     ollamaDefaultModel := u "llama3:latest";
     ollamaVisualModel := u "llava:latest";
     aiServiceMode := u "local";
     googleApiKey := [];
     googleGeminiModel := u "gemini-pro" |}.

Definition google_config : Config :=
  {| ollamaBaseUrl := u "http://localhost:11434/api";
     ollamaDefaultModel := u "llama3:latest";
     ollamaVisualModel := u "llava:latest";
     aiServiceMode := u "google";
     googleApiKey := u "key";
     googleGeminiModel := u "gemini-pro" |}.

Definition sample_env (cfg : Config) (o : HttpOutcome) : Env :=
  {| cwd := u "/proj";
     config := cfg;
     mkdir := fun _ => None;
     http_post := fun _ _ => o |}.

Definition sample_image : list Byte.byte := [Byte.x89; Byte.x50; Byte.x4e; Byte.x47].

Definition old_image : list Byte.byte := [Byte.x89; Byte.x50].

Definition sample_page : Page :=
  {| screenshot_result := fun _ => Normal sample_image |}.

(** A disk without a file or a folder. *)
Definition empty_world : World := {| files := ∅; folders := ∅; trace := [] |}.

Definition world_with_baseline : World :=
  {| files := {[ u "/proj/tests/visual-baselines/home.png" := old_image ]};
     folders := list_to_set (Path.folders_to (u "/proj/tests/visual-baselines"));
     trace := [] |}.

(** A disk where a regular file stands where the baseline folder should
    be. *)
Definition world_with_blocked_folder : World :=
  {| files := {[ u "/proj/tests/visual-baselines" := old_image ]};
     folders := list_to_set (Path.folders_to (u "/proj/tests"));
     trace := [] |}.

Definition no_options : Options :=
  {| updateBaselines := None; failureThreshold := None; mask := None |}.

Definition refused : HttpOutcome :=
  HttpFailure (ErrorObj (u "connect ECONNREFUSED 127.0.0.1:11434")).

Definition zero_temperature_request : MultimodalLLMRequest :=
  {| prompt := u "Describe the image.";
     model := None;
     temperature := Some (S754_zero false);
     maxTokens := None;
     systemPrompt := None;
     images := None |}.

Definition closed_page : Page :=
  {| screenshot_result := fun _ => Throw (ErrorObj (u "Target page has been closed")) |}.

(** A reply of the backend with a verdict, and one without a text. *)
Definition verdict_reply : HttpOutcome :=
  HttpResponse
    (Some (JObject [(u "model", JString (u "llava:latest"));
                    (u "response",
                     JString (uq "{'passed': false, 'reason': 'Button missing'}"))])).

Definition error_reply : HttpOutcome :=
  HttpResponse (Some (JObject [(u "error", JString (u "model not found"))])).

Definition explicit_request : MultimodalLLMRequest :=
  {| prompt := u "Write a test.";
     model := None;
     temperature := Some num_0_1;
     maxTokens := Some num_2048;
     systemPrompt := None;
     images := None |}.

Definition two_models : json :=
  JObject [(u "models",
            JArray [JObject [(u "name", JString (u "llava:latest"))];
                    JObject [(u "name", JString (u "llama3:latest"))]])].

Definition no_output : ExecOutput := {| stdout := []; stderr := [] |}.

(** A server that lists two models. *)
Definition serving_host : Host :=
  {| number_truthy := fun literal => negb (bool_decide (literal = u "0"));
     http_get := fun _ _ => HttpResponse (Some two_models);
     exec := fun _ _ => Normal no_output |}.

(** A server that answers, with no model. *)
Definition empty_host : Host :=
  {| number_truthy := fun literal => negb (bool_decide (literal = u "0"));
     http_get := fun _ _ => HttpResponse (Some (JObject [(u "models", JArray [])]));
     exec := fun _ _ => Normal no_output |}.

(** A server that answers from the second check on. *)
Definition starting_host : Host :=
  {| number_truthy := fun literal => negb (bool_decide (literal = u "0"));
     http_get := fun h _ =>
       if (3 <=? length h)%nat then HttpResponse (Some two_models) else refused;
     exec := fun _ _ => Normal no_output |}.

Definition image_request : MultimodalLLMRequest :=
  {| prompt := u "Compare the two images.";
     model := None;
     temperature := Some (S754_zero false);
     maxTokens := None;
     systemPrompt := None;
     images := Some [base64 (png_signature ++ [Byte.x00]);
                     base64 (jpeg_signature ++ [Byte.xe0])] |}.

Definition cloud_service : GoogleLLMService :=
  {| apiKey := u "key"; geminiModel := u "gemini-pro" |}.

Definition keyed_environment : gmap (list N) (list N) :=
  {[ u "GOOGLE_API_KEY" := u "key" ]}.

Definition sample_code : jsstring := u "test('home', async () => {});".

Definition sample_layout : jsstring :=
  verdict_layout true [newline; space; space] [space] [] [newline; space; space]
    [space] [newline] false (u "Header" ++ [newline] ++ u "moved").

(** A library that knows no model of that name. *)
Definition unknown_model_sdk : Google.Sdk :=
  fun _ modelName _ => Throw (ErrorObj (u "models/" ++ modelName ++ u " is not found")).

(** Lower case on the ASCII letters. *)
Definition ascii_lower (s : jsstring) : jsstring :=
  map (fun c => if (65 <=? c) && (c <=? 90) then c + 32 else c) s.

Definition google_environment : gmap (list N) (list N) :=
  {[ u "AI_SERVICE_MODE" := u "Google"; u "GOOGLE_API_KEY" := u "key" ]}.

Definition sample_list : list list_line :=
  [ {| ll_marker := u "1."; ll_gap := u " "; ll_item := u "Add assertions" |};
    {| ll_marker := u "-"; ll_gap := []; ll_item := u "Use fixtures" |} ].

(** * Properties of the response interpreter *)

Section InterpreterFacts.

Variable parse : jsstring -> completion json.

Lemma validate_well_shaped s p b r :
  well_shaped p = Some (b, r) ->
  validate s p = Normal {| passed := b; reason := r |}.
Proof.
  destruct p as [| | | | |fields]; try discriminate.
  unfold validate, well_shaped, get_prop, bind.
  destruct (lookup_field (u "passed") fields) as [[| b'| | | |]|]; try discriminate.
  destruct (lookup_field (u "reason") fields) as [[| | |r'| |]|]; try discriminate.
  intros H; inversion H; subst; reflexivity.
Qed.

Lemma validate_lacking s p :
  p <> JNull -> well_shaped p = None -> validate s p = Normal (lacked_fields s).
Proof.
  destruct p as [| | | | |fields]; intros Hn H; try reflexivity; [contradiction|].
  revert H. unfold validate, well_shaped, get_prop, bind.
  destruct (lookup_field (u "passed") fields) as [[| b'| | | |]|]; try reflexivity.
  destruct (lookup_field (u "reason") fields) as [[| | |r'| |]|]; try reflexivity.
  discriminate.
Qed.

Lemma validate_ill_shaped s p :
  well_shaped p = None ->
  validate s p = Normal (lacked_fields s) \/ exists e, validate s p = Throw e.
Proof.
  intros H. destruct p; try (left; apply validate_lacking; [discriminate|exact H]).
  right. eexists. reflexivity.
Qed.

Lemma catch_verdict s e :
  exists v, interpret_catch s e = Normal v /\ passed v = false /\ reason v <> [].
Proof.
  eexists. split; [reflexivity|]. split; [reflexivity|]. discriminate.
Qed.

Lemma lacked_fields_verdict s :
  passed (lacked_fields s) = false /\ reason (lacked_fields s) <> [].
Proof. split; [reflexivity | discriminate]. Qed.

(** C2.  For every input string the interpreter returns a verdict, it never
    throws; when the braces are not found, when [JSON.parse] throws and when
    the parsed value lacks a boolean [passed] or a string [reason], the
    verdict does not pass and its reason is not empty; and a verdict passes
    only when the parsed value says [passed: true] and gives the reason. *)
Theorem interpreter_total_and_fails_closed (s : jsstring) :
  exists v, interpretAIJsonResponse parse s = Normal v /\
    (forall e, extract_json s = Throw e -> passed v = false /\ reason v <> []) /\
    (forall j e, extract_json s = Normal j -> parse j = Throw e ->
       passed v = false /\ reason v <> []) /\
    (forall j p, extract_json s = Normal j -> parse j = Normal p ->
       well_shaped p = None -> passed v = false /\ reason v <> []) /\
    (passed v = true ->
       exists j p, extract_json s = Normal j /\ parse j = Normal p /\
         well_shaped p = Some (true, reason v)).
Proof.
  unfold interpretAIJsonResponse, interpret_try.
  destruct (extract_json s) as [j|e] eqn:Hj; unfold bind, try_catch.
  - destruct (parse j) as [p|e] eqn:Hp.
    + destruct (well_shaped p) as [[b r]|] eqn:Hs.
      * rewrite (validate_well_shaped s p b r Hs).
        eexists. split; [reflexivity|]. cbn [passed reason].
        split; [discriminate|]. split; [|split].
        -- intros j' e' [= <-] Hp'. congruence.
        -- intros j' p' [= <-] Hp' Hs'. congruence.
        -- intros ->. exists j, p. auto.
      * assert (Hv : exists v, try_catch (validate s p) (interpret_catch s) = Normal v
                       /\ passed v = false /\ reason v <> []).
        { destruct (validate_ill_shaped s p Hs) as [-> | [e ->]].
          - exists (lacked_fields s). split; [reflexivity|].
            apply lacked_fields_verdict.
          - apply catch_verdict. }
        destruct Hv as (v & Hv & Hf & Hr). unfold try_catch in Hv.
        exists v. split; [exact Hv|].
        split; [discriminate|]. split; [auto|]. split; [auto|].
        congruence.
    + destruct (catch_verdict s e) as (v & Hv & Hf & Hr).
      exists v. split; [exact Hv|].
      split; [discriminate|]. split; [auto|]. split; [auto|].
      congruence.
  - destruct (catch_verdict s e) as (v & Hv & Hf & Hr).
    exists v. split; [exact Hv|].
    split; [auto|]. split; [discriminate|]. split; [discriminate|].
    congruence.
Qed.

Lemma indexOf_from_absent c s i : c ∉ s -> indexOf_from c s i = (-1)%Z.
Proof.
  revert i. induction s as [|x r IH]; intros i Hc; [reflexivity|].
  apply not_elem_of_cons in Hc as [Hx Hr]. simpl.
  destruct (N.eqb_spec x c) as [->|_]; [contradiction|]. apply IH, Hr.
Qed.

Lemma lastIndexOf_from_absent c s i last :
  c ∉ s -> lastIndexOf_from c s i last = last.
Proof.
  revert i last. induction s as [|x r IH]; intros i last Hc; [reflexivity|].
  apply not_elem_of_cons in Hc as [Hx Hr]. simpl.
  destruct (N.eqb_spec x c) as [->|_]; [contradiction|]. apply IH, Hr.
Qed.

Lemma extract_json_missing_brace s :
  lbrace ∉ strip_fences s \/ rbrace ∉ strip_fences s ->
  extract_json s =
    Throw (ErrorObj (u "Could not find valid JSON object delimiters {} in response.")).
Proof.
  intros H. unfold extract_json.
  destruct H as [H|H].
  - unfold indexOf. rewrite (indexOf_from_absent _ _ _ H). reflexivity.
  - unfold lastIndexOf. rewrite (lastIndexOf_from_absent _ _ _ _ H).
    rewrite orb_true_r. reflexivity.
Qed.

(** C7, as the code has it.  When the text, once the fences are stripped,
    has no opening brace or no closing brace, the verdict does not pass and
    its reason is the parse-failure message with the delimiter error and the
    first hundred units of the response. *)
Theorem missing_brace_verdict (s : jsstring) :
  lbrace ∉ strip_fences s \/ rbrace ∉ strip_fences s ->
  interpretAIJsonResponse parse s =
    Normal {| passed := false;
              reason := u "AI response could not be parsed as valid JSON: Could not find valid JSON object delimiters {} in response. (Original: "
                        ++ substring s 0 100 ++ u "...)" |}.
Proof.
  intros H. unfold interpretAIJsonResponse, interpret_try.
  rewrite (extract_json_missing_brace s H).
  unfold bind, try_catch, interpret_catch, error_message.
  do 2 f_equal.
Qed.

Lemma ill_shaped_of_missing_field p :
  (forall b, field p (u "passed") <> Some (JBool b))
  \/ (forall r, field p (u "reason") <> Some (JString r)) ->
  well_shaped p = None.
Proof.
  intros H. destruct p as [| | | | |fields]; try reflexivity.
  unfold well_shaped. unfold field in H.
  destruct (lookup_field (u "passed") fields) as [[| b| | | |]|]; try reflexivity.
  destruct (lookup_field (u "reason") fields) as [[| | |r| |]|]; try reflexivity.
  destruct H as [H|H]; [destruct (H b) | destruct (H r)]; reflexivity.
Qed.

Lemma substring_prefix_length s n :
  (length (substring s 0 (Z.of_nat n)) <= n)%nat.
Proof.
  unfold substring. rewrite length_take. lia.
Qed.

(** C8, as the code has it.  When the text handed to [JSON.parse] (what is
    between the first opening and the last closing brace once the fences
    are stripped, flattened and repaired) parses to a value other than
    [null] that lacks a boolean [passed] or a string [reason], the verdict
    does not pass and its reason says that fields are lacking and quotes the
    response cut at two hundred units. *)
Theorem wrong_shape_verdict (s j : jsstring) (p : json) :
  extract_json s = Normal j ->
  parse j = Normal p ->
  p <> JNull ->
  (forall b, field p (u "passed") <> Some (JBool b))
  \/ (forall r, field p (u "reason") <> Some (JString r)) ->
  interpretAIJsonResponse parse s =
    Normal {| passed := false;
              reason := u "AI response was valid JSON but lacked expected fields: "
                        ++ substring s 0 200 ++ u "..." |}
  /\ (length (substring s 0 200) <= 200)%nat.
Proof.
  intros Hj Hp Hn Hl. split; [|apply (substring_prefix_length s 200)].
  unfold interpretAIJsonResponse, interpret_try.
  rewrite Hj. unfold bind at 1. rewrite Hp. unfold bind at 1.
  rewrite (validate_lacking s p Hn (ill_shaped_of_missing_field p Hl)).
  reflexivity.
Qed.

End InterpreterFacts.

(** * Properties of the orchestrator and of the gateway *)

Section OrchestratorFacts.

Variable parse : jsstring -> completion json.
Variable env : Env.
Variable page : Page.

Lemma bindM_normal {A B} (c : M A) (k : A -> M B) w w' a :
  c w = (w', Normal a) -> bindM c k w = k a w'.
Proof. intros H. unfold bindM. rewrite H. reflexivity. Qed.

(** ** Making the folders *)

Lemma files_ensured d w : files (ensured env d w) = files w.
Proof.
  unfold ensured, fs_mkdir. destruct (mkdir env d); [reflexivity|].
  destruct (is_file _ d); reflexivity.
Qed.

Lemma trace_ensured d w : trace (ensured env d w) = trace w ++ [EvMkdir d].
Proof.
  unfold ensured, fs_mkdir. destruct (mkdir env d); [reflexivity|].
  destruct (is_file _ d); reflexivity.
Qed.

Lemma folders_ensured d w x : x ∈ folders w -> x ∈ folders (ensured env d w).
Proof.
  intros H. unfold ensured, fs_mkdir. destruct (mkdir env d); [exact H|].
  destruct (is_file _ d); [exact H|].
  cbn [fst folders add_folders record_event]. apply elem_of_union_r, H.
Qed.

Lemma folders_ensured_made d w :
  mkdir env d = None -> files w !! d = None ->
  forall x, x ∈ Path.folders_to d -> x ∈ folders (ensured env d w).
Proof.
  intros Hm Hf x Hx. unfold ensured, fs_mkdir, is_file. rewrite Hm.
  cbn [files record_event]. rewrite Hf.
  rewrite bool_decide_eq_false_2 by (intros [b Hb]; discriminate).
  cbn [fst folders add_folders record_event].
  apply elem_of_union_l, elem_of_list_to_set, Hx.
Qed.

(** Only what was a folder, or lies on the way to [d], is a folder once
    [ensureDir] has run on [d]. *)
Lemma folders_ensured_inv d w x :
  x ∈ folders (ensured env d w) -> x ∈ folders w \/ x ∈ Path.folders_to d.
Proof.
  unfold ensured, fs_mkdir. destruct (mkdir env d); [auto|].
  destruct (is_file _ d); [auto|].
  cbn [fst folders add_folders record_event]. intros H.
  apply elem_of_union in H as [H|H]; [right; apply elem_of_list_to_set in H; exact H | auto].
Qed.

Lemma ensured_refused d w e :
  mkdir env d = Some e -> ensured env d w = record_event (EvMkdir d) w.
Proof. intros H. unfold ensured, fs_mkdir. rewrite H. reflexivity. Qed.

Lemma ensureDir_cases d w :
  (mkdir_passes env d /\ ensureDir env d w = (ensured env d w, Normal tt))
  \/ (exists e, mkdir env d = Some e /\ code e <> u "EEXIST"
                /\ ensureDir env d w
                   = (record_event (EvMkdir d) w, Throw (ErrorObj (sys_message e)))).
Proof.
  unfold mkdir_passes, ensureDir, ensured, bindM, emit, fs_mkdir.
  destruct (mkdir env d) as [e|].
  - destruct (decide (code e = u "EEXIST")) as [Heq|Hne].
    + left. rewrite bool_decide_eq_true_2 by exact Heq. split; [exact Heq | reflexivity].
    + right. exists e. rewrite bool_decide_eq_false_2 by exact Hne.
      split; [reflexivity|]. split; [exact Hne | reflexivity].
  - left. split; [exact I|].
    destruct (is_file (record_event (EvMkdir d) w) d); reflexivity.
Qed.

Lemma ensureDir_passes d w :
  mkdir_passes env d -> ensureDir env d w = (ensured env d w, Normal tt).
Proof.
  intros H. destruct (ensureDir_cases d w) as [[_ Hrun]|(e & He & Hc & _)];
    [exact Hrun|].
  exfalso. unfold mkdir_passes in H. rewrite He in H. exact (Hc H).
Qed.

Lemma ensureDir_run d w :
  exists r, ensureDir env d w = (ensured env d w, r).
Proof.
  destruct (ensureDir_cases d w) as [[_ Hrun]|(e & He & _ & Hrun)].
  - eexists. exact Hrun.
  - rewrite (ensured_refused d w e He). eexists. exact Hrun.
Qed.

(** ** The capture *)

Lemma page_screenshot_ok p m img w :
  screenshot_result page m = Normal img ->
  page_screenshot page p m w
  = (set_file p img
       (add_folders (Path.folders_to (Path.dirname p))
          (record_event (EvScreenshot p m) w)),
     Normal tt).
Proof.
  intros H. unfold page_screenshot, bindM, emit. rewrite H. reflexivity.
Qed.

Lemma page_screenshot_throws p m e w :
  screenshot_result page m = Throw e ->
  page_screenshot page p m w = (record_event (EvScreenshot p m) w, Throw e).
Proof.
  intros H. unfold page_screenshot, bindM, emit. rewrite H. reflexivity.
Qed.

Lemma fs_readFile_ok p b w :
  files w !! p = Some b ->
  fs_readFile p w = (record_event (EvReadFile p) w, Normal b).
Proof.
  intros H. unfold fs_readFile, bindM, emit.
  change (files (record_event (EvReadFile p) w)) with (files w).
  rewrite H. reflexivity.
Qed.

Lemma fs_readFile_folder p w :
  files w !! p = None -> is_folder w p = true ->
  fs_readFile p w = (record_event (EvReadFile p) w, Throw (is_a_directory (u "read"))).
Proof.
  intros H Hd. unfold fs_readFile, bindM, emit.
  change (files (record_event (EvReadFile p) w)) with (files w).
  change (is_folder (record_event (EvReadFile p) w) p) with (is_folder w p).
  rewrite H, Hd. reflexivity.
Qed.

Lemma fs_exists_run p w :
  fs_exists p w
  = (record_event (EvAccess p) w,
     Normal (is_file (record_event (EvAccess p) w) p
             || is_folder (record_event (EvAccess p) w) p)).
Proof. reflexivity. Qed.

Lemma fs_copyFile_ok src dst b w :
  copy_refused w src dst = None -> files w !! src = Some b ->
  fs_copyFile src dst w
  = (set_file dst b (record_event (EvCopyFile src dst) w), Normal tt).
Proof.
  intros Hc H. unfold fs_copyFile, bindM, emit.
  change (copy_refused (record_event (EvCopyFile src dst) w) src dst)
    with (copy_refused w src dst).
  change (files (record_event (EvCopyFile src dst) w)) with (files w).
  rewrite Hc, H. reflexivity.
Qed.

Lemma fs_copyFile_refused src dst e w :
  copy_refused w src dst = Some e ->
  fs_copyFile src dst w = (record_event (EvCopyFile src dst) w, Throw e).
Proof.
  intros Hc. unfold fs_copyFile, bindM, emit.
  change (copy_refused (record_event (EvCopyFile src dst) w) src dst)
    with (copy_refused w src dst).
  rewrite Hc. reflexivity.
Qed.

Lemma generateMultimodalResponse_run this request w :
  generateMultimodalResponse env this request w
  = (record_event (EvPost (generate_url this) (build_payload this request)) w,
     Normal (llm_response_of
               (http_post env (generate_url this) (build_payload this request)))).
Proof. reflexivity. Qed.

Lemma files_after_capture name options img w :
  files (after_capture env name options img w)
  = <[actual_path_of env name := img]> (files w).
Proof.
  unfold after_capture. cbn [files record_event set_file add_folders].
  rewrite !files_ensured. reflexivity.
Qed.

Lemma trace_after_capture name options img w :
  trace (after_capture env name options img w)
  = trace w ++ [EvMkdir (baselineFolder env); EvMkdir (actualFolder env);
                EvScreenshot (actual_path_of env name) (mask_argument options);
                EvReadFile (actual_path_of env name);
                EvAccess (baseline_path_of env name)].
Proof.
  unfold after_capture. cbn [trace record_event set_file add_folders].
  rewrite !trace_ensured, <- !app_assoc. reflexivity.
Qed.

Lemma folders_after_capture name options img w x :
  x ∈ folders (after_capture env name options img w)
  <-> x ∈ Path.folders_to (Path.dirname (actual_path_of env name))
      \/ x ∈ folders (ensured env (actualFolder env)
                        (ensured env (baselineFolder env) w)).
Proof.
  unfold after_capture. cbn [folders record_event set_file add_folders].
  rewrite elem_of_union, elem_of_list_to_set. reflexivity.
Qed.

Lemma capture_steps name options img w (k : bool -> list Byte.byte -> M VisualAIResult) :
  mkdir_passes env (baselineFolder env) ->
  mkdir_passes env (actualFolder env) ->
  screenshot_result page (mask_argument options) = Normal img ->
  (do* _ := ensureDir env (baselineFolder env) in
   do* _ := ensureDir env (actualFolder env) in
   do* _ := page_screenshot page (actual_path_of env name) (mask_argument options) in
   do* actualBuffer := fs_readFile (actual_path_of env name) in
   do* baselineExists := fs_exists (baseline_path_of env name) in
   k baselineExists actualBuffer) w
  = k (baseline_seen env name options img w) img (after_capture env name options img w).
Proof.
  intros Hb Ha Hs.
  rewrite (bindM_normal _ _ _ _ _ (ensureDir_passes _ _ Hb)).
  rewrite (bindM_normal _ _ _ _ _ (ensureDir_passes _ _ Ha)).
  rewrite (bindM_normal _ _ _ _ _ (page_screenshot_ok _ _ _ _ Hs)).
  erewrite (bindM_normal (fs_readFile _)).
  2:{ apply fs_readFile_ok. cbn [files set_file record_event].
      apply lookup_insert_eq. }
  erewrite (bindM_normal (fs_exists _)) by apply fs_exists_run.
  reflexivity.
Qed.

Lemma baseline_seen_file name options img w base :
  <[actual_path_of env name := img]> (files w) !! baseline_path_of env name = Some base ->
  baseline_seen env name options img w = true.
Proof.
  intros H. unfold baseline_seen, is_file. rewrite files_after_capture, H.
  rewrite bool_decide_eq_true_2 by (eexists; reflexivity). reflexivity.
Qed.

Lemma baseline_seen_folder name options img w :
  <[actual_path_of env name := img]> (files w) !! baseline_path_of env name = None ->
  baseline_seen env name options img w
  = is_folder (after_capture env name options img w) (baseline_path_of env name).
Proof.
  intros H. unfold baseline_seen, is_file. rewrite files_after_capture, H.
  rewrite bool_decide_eq_false_2 by (intros [b Hb]; discriminate). reflexivity.
Qed.

Lemma not_truthy_flag o : o <> Some true -> truthy_flag o = false.
Proof. destruct o as [[|]|]; [contradiction|reflexivity|reflexivity]. Qed.

(** ** The two branches *)

(** The baseline branch, when the copy is made. *)
Lemma baseline_run name options img w :
  mkdir_passes env (baselineFolder env) ->
  mkdir_passes env (actualFolder env) ->
  screenshot_result page (mask_argument options) = Normal img ->
  truthy_flag (updateBaselines options)
  || negb (baseline_seen env name options img w) = true ->
  copy_refused (after_capture env name options img w)
    (actual_path_of env name) (baseline_path_of env name) = None ->
  expectPageToMatchVisuallyAI parse env page name options w
  = (after_copy env name options img w,
     Normal (result_of env name
               {| passed := true; reason := u "Baseline created/updated." |})).
Proof.
  intros Hb Ha Hs Hbranch Hcopy.
  unfold expectPageToMatchVisuallyAI.
  rewrite (capture_steps name options img w _ Hb Ha Hs).
  rewrite Hbranch.
  erewrite (bindM_normal (fs_copyFile _ _)).
  2:{ apply fs_copyFile_ok; [exact Hcopy|].
      rewrite files_after_capture. apply lookup_insert_eq. }
  reflexivity.
Qed.

(** The baseline branch, when the copy is refused. *)
Lemma baseline_refused name options img w e :
  mkdir_passes env (baselineFolder env) ->
  mkdir_passes env (actualFolder env) ->
  screenshot_result page (mask_argument options) = Normal img ->
  truthy_flag (updateBaselines options)
  || negb (baseline_seen env name options img w) = true ->
  copy_refused (after_capture env name options img w)
    (actual_path_of env name) (baseline_path_of env name) = Some e ->
  expectPageToMatchVisuallyAI parse env page name options w
  = (record_event (EvCopyFile (actual_path_of env name) (baseline_path_of env name))
       (after_capture env name options img w),
     Throw e).
Proof.
  intros Hb Ha Hs Hbranch Hcopy.
  unfold expectPageToMatchVisuallyAI.
  rewrite (capture_steps name options img w _ Hb Ha Hs).
  rewrite Hbranch. unfold bindM at 1.
  rewrite (fs_copyFile_refused _ _ e _ Hcopy). reflexivity.
Qed.

(** The comparison, once the capture is taken and a baseline [base] is
    there. *)
Lemma comparison_run name options img base w :
  mkdir_passes env (baselineFolder env) ->
  mkdir_passes env (actualFolder env) ->
  screenshot_result page (mask_argument options) = Normal img ->
  updateBaselines options <> Some true ->
  <[actual_path_of env name := img]> (files w) !! baseline_path_of env name
  = Some base ->
  expectPageToMatchVisuallyAI parse env page name options w
  = (after_request env name options base img w,
     if negb (success (gateway_answer env base img)) then
       Normal (result_of env name
                 (gateway_error_verdict name (gateway_answer env base img)))
     else
       match interpret_response_text parse (text (gateway_answer env base img)) with
       | Normal v => Normal (result_of env name v)
       | Throw e => Throw e
       end).
Proof.
  intros Hb Ha Hs Hu Hbase.
  unfold expectPageToMatchVisuallyAI.
  rewrite (capture_steps name options img w _ Hb Ha Hs).
  rewrite (baseline_seen_file name options img w base Hbase), (not_truthy_flag _ Hu).
  cbn [negb orb].
  erewrite (bindM_normal (fs_readFile _)).
  2:{ apply fs_readFile_ok. rewrite files_after_capture. exact Hbase. }
  erewrite (bindM_normal (generateMultimodalResponse _ _ _))
    by apply generateMultimodalResponse_run.
  fold (comparison_payload (config env) base img).
  fold (gateway_answer env base img).
  fold (after_request env name options base img w).
  destruct (success (gateway_answer env base img)); cbn [negb].
  - destruct (interpret_response_text parse (text (gateway_answer env base img)));
      reflexivity.
  - reflexivity.
Qed.

(** The comparison, when a folder stands at the baseline path. *)
Lemma comparison_unreadable name options img w :
  mkdir_passes env (baselineFolder env) ->
  mkdir_passes env (actualFolder env) ->
  screenshot_result page (mask_argument options) = Normal img ->
  truthy_flag (updateBaselines options)
  || negb (baseline_seen env name options img w) = false ->
  <[actual_path_of env name := img]> (files w) !! baseline_path_of env name = None ->
  expectPageToMatchVisuallyAI parse env page name options w
  = (record_event (EvReadFile (baseline_path_of env name))
       (after_capture env name options img w),
     Throw (is_a_directory (u "read"))).
Proof.
  intros Hb Ha Hs Hbranch Hnone.
  unfold expectPageToMatchVisuallyAI.
  rewrite (capture_steps name options img w _ Hb Ha Hs).
  rewrite Hbranch. unfold bindM at 1.
  rewrite fs_readFile_folder; [reflexivity | |].
  - rewrite files_after_capture. exact Hnone.
  - apply orb_false_iff in Hbranch as [_ Hseen]. apply negb_false_iff in Hseen.
    rewrite (baseline_seen_folder _ _ _ _ Hnone) in Hseen. exact Hseen.
Qed.

(** An invocation ends in one of seven ways. *)
Lemma orchestrator_cases name options w :
  (exists e,
     mkdir env (baselineFolder env) = Some e /\ code e <> u "EEXIST"
     /\ expectPageToMatchVisuallyAI parse env page name options w
        = (record_event (EvMkdir (baselineFolder env)) w,
           Throw (ErrorObj (sys_message e))))
  \/ (exists e,
        mkdir_passes env (baselineFolder env)
        /\ mkdir env (actualFolder env) = Some e /\ code e <> u "EEXIST"
        /\ expectPageToMatchVisuallyAI parse env page name options w
           = (record_event (EvMkdir (actualFolder env))
                (ensured env (baselineFolder env) w),
              Throw (ErrorObj (sys_message e))))
  \/ (exists e,
        mkdir_passes env (baselineFolder env)
        /\ mkdir_passes env (actualFolder env)
        /\ screenshot_result page (mask_argument options) = Throw e
        /\ expectPageToMatchVisuallyAI parse env page name options w
           = (record_event
                (EvScreenshot (actual_path_of env name) (mask_argument options))
                (ensured env (actualFolder env)
                   (ensured env (baselineFolder env) w)),
              Throw e))
  \/ (exists img,
        mkdir_passes env (baselineFolder env)
        /\ mkdir_passes env (actualFolder env)
        /\ screenshot_result page (mask_argument options) = Normal img
        /\ truthy_flag (updateBaselines options)
           || negb (baseline_seen env name options img w) = true
        /\ expectPageToMatchVisuallyAI parse env page name options w
           = (after_copy env name options img w,
              Normal (result_of env name
                        {| passed := true; reason := u "Baseline created/updated." |})))
  \/ (exists img e,
        mkdir_passes env (baselineFolder env)
        /\ mkdir_passes env (actualFolder env)
        /\ screenshot_result page (mask_argument options) = Normal img
        /\ truthy_flag (updateBaselines options)
           || negb (baseline_seen env name options img w) = true
        /\ copy_refused (after_capture env name options img w)
             (actual_path_of env name) (baseline_path_of env name) = Some e
        /\ expectPageToMatchVisuallyAI parse env page name options w
           = (record_event
                (EvCopyFile (actual_path_of env name) (baseline_path_of env name))
                (after_capture env name options img w),
              Throw e))
  \/ (exists img base,
        mkdir_passes env (baselineFolder env)
        /\ mkdir_passes env (actualFolder env)
        /\ screenshot_result page (mask_argument options) = Normal img
        /\ <[actual_path_of env name := img]> (files w) !! baseline_path_of env name
           = Some base
        /\ expectPageToMatchVisuallyAI parse env page name options w
           = (after_request env name options base img w,
              if negb (success (gateway_answer env base img)) then
                Normal (result_of env name
                          (gateway_error_verdict name (gateway_answer env base img)))
              else
                match interpret_response_text parse
                        (text (gateway_answer env base img)) with
                | Normal v => Normal (result_of env name v)
                | Throw e => Throw e
                end))
  \/ (exists img,
        mkdir_passes env (baselineFolder env)
        /\ mkdir_passes env (actualFolder env)
        /\ screenshot_result page (mask_argument options) = Normal img
        /\ <[actual_path_of env name := img]> (files w) !! baseline_path_of env name
           = None
        /\ expectPageToMatchVisuallyAI parse env page name options w
           = (record_event (EvReadFile (baseline_path_of env name))
                (after_capture env name options img w),
              Throw (is_a_directory (u "read")))).
Proof.
  destruct (ensureDir_cases (baselineFolder env) w) as [[Hb H1]|(e & He & Hc & H1)].
  2:{ left. exists e. split; [exact He|]. split; [exact Hc|].
      unfold expectPageToMatchVisuallyAI. unfold bindM at 1. rewrite H1. reflexivity. }
  right.
  destruct (ensureDir_cases (actualFolder env) (ensured env (baselineFolder env) w))
    as [[Ha H2]|(e & He & Hc & H2)].
  2:{ left. exists e. split; [exact Hb|]. split; [exact He|]. split; [exact Hc|].
      unfold expectPageToMatchVisuallyAI.
      rewrite (bindM_normal _ _ _ _ _ H1). unfold bindM at 1. rewrite H2. reflexivity. }
  right.
  destruct (screenshot_result page (mask_argument options)) as [img|e] eqn:Hs.
  2:{ left. exists e. split; [exact Hb|]. split; [exact Ha|]. split; [reflexivity|].
      unfold expectPageToMatchVisuallyAI.
      rewrite (bindM_normal _ _ _ _ _ H1), (bindM_normal _ _ _ _ _ H2).
      unfold bindM at 1. rewrite (page_screenshot_throws _ _ e _ Hs). reflexivity. }
  right.
  destruct (truthy_flag (updateBaselines options)
            || negb (baseline_seen env name options img w)) eqn:Hbranch.
  - destruct (copy_refused (after_capture env name options img w)
                (actual_path_of env name) (baseline_path_of env name)) as [e|] eqn:Hcopy.
    + right. left. exists img, e.
      split; [exact Hb|]. split; [exact Ha|]. split; [reflexivity|].
      split; [exact Hbranch|]. split; [exact Hcopy|].
      apply baseline_refused; assumption.
    + left. exists img. split; [exact Hb|]. split; [exact Ha|]. split; [reflexivity|].
      split; [exact Hbranch|]. apply baseline_run; assumption.
  - right. right.
    assert (Hu : updateBaselines options <> Some true).
    { intros Heq. rewrite Heq in Hbranch. discriminate. }
    destruct (<[actual_path_of env name := img]> (files w) !! baseline_path_of env name)
      as [base|] eqn:Hbase.
    + left. exists img, base.
      split; [exact Hb|]. split; [exact Ha|]. split; [reflexivity|].
      split; [exact Hbase|]. apply comparison_run; assumption.
    + right. exists img.
      split; [exact Hb|]. split; [exact Ha|]. split; [reflexivity|].
      split; [exact Hbase|]. apply comparison_unreadable; assumption.
Qed.

Lemma llm_response_failure o :
  success (llm_response_of o) = false ->
  exists err, llm_response_of o
              = {| text := Some (JString []); success := false; error := Some err |}.
Proof.
  destruct o as [[d|]|e]; unfold llm_response_of, response_text, bind.
  - destruct (get_prop d (u "response")) as [t|e]; [discriminate|].
    intros _. eexists. reflexivity.
  - intros _. eexists. reflexivity.
  - intros _. eexists. reflexivity.
Qed.

Lemma trace_after_request name options base img w :
  trace (after_request env name options base img w)
  = trace w ++ [EvMkdir (baselineFolder env); EvMkdir (actualFolder env);
                EvScreenshot (actual_path_of env name) (mask_argument options);
                EvReadFile (actual_path_of env name);
                EvAccess (baseline_path_of env name);
                EvReadFile (baseline_path_of env name);
                EvPost (generate_url (llmService (config env)))
                       (comparison_payload (config env) base img)].
Proof.
  unfold after_request. cbn [trace record_event].
  rewrite trace_after_capture, <- !app_assoc. reflexivity.
Qed.

Lemma trace_after_copy name options img w :
  trace (after_copy env name options img w)
  = trace w ++ [EvMkdir (baselineFolder env); EvMkdir (actualFolder env);
                EvScreenshot (actual_path_of env name) (mask_argument options);
                EvReadFile (actual_path_of env name);
                EvAccess (baseline_path_of env name);
                EvCopyFile (actual_path_of env name) (baseline_path_of env name)].
Proof.
  unfold after_copy. cbn [trace record_event set_file].
  rewrite trace_after_capture, <- !app_assoc. reflexivity.
Qed.

(** C4.  The gateway never throws: it returns a response, and when the
    request fails the response has [success = false], an empty text and the
    message of the error.  And when the orchestrator reaches the comparison
    ([base] is the baseline it reads there) and the gateway answers
    [success = false], the orchestrator returns a verdict that does not
    pass, whose reason ends with the error string of the gateway, after
    exactly one request. *)
Theorem gateway_failure_verdict :
  (forall this request w,
     exists r,
       generateMultimodalResponse env this request w
       = (record_event (EvPost (generate_url this) (build_payload this request)) w,
          Normal r)
       /\ (forall e,
             http_post env (generate_url this) (build_payload this request)
             = HttpFailure e ->
             r = {| text := Some (JString []); success := false;
                    error := Some (error_message e) |})
       /\ (success r = false -> exists err, error r = Some err))
  /\ (forall name options w img base,
        mkdir_passes env (baselineFolder env) ->
        mkdir_passes env (actualFolder env) ->
        screenshot_result page (mask_argument options) = Normal img ->
        updateBaselines options <> Some true ->
        <[actual_path_of env name := img]> (files w) !! baseline_path_of env name
        = Some base ->
        success (gateway_answer env base img) = false ->
        exists w' err,
          error (gateway_answer env base img) = Some err
          /\ expectPageToMatchVisuallyAI parse env page name options w
             = (w', Normal {| verdict :=
                                {| passed := false;
                                   reason := u "LLM service error during comparison for "
                                             ++ name ++ u ": " ++ err |};
                              baselinePath := baseline_path_of env name;
                              actualPath := actual_path_of env name |})
          /\ trace w'
             = trace w ++ [EvMkdir (baselineFolder env); EvMkdir (actualFolder env);
                           EvScreenshot (actual_path_of env name) (mask_argument options);
                           EvReadFile (actual_path_of env name);
                           EvAccess (baseline_path_of env name);
                           EvReadFile (baseline_path_of env name);
                           EvPost (generate_url (llmService (config env)))
                                  (comparison_payload (config env) base img)]).
Proof.
  split.
  - intros this request w. eexists. split; [apply generateMultimodalResponse_run|].
    split.
    + intros e ->. reflexivity.
    + intros H. destruct (llm_response_failure _ H) as [err ->]. eexists. reflexivity.
  - intros name options w img base Hb Ha Hs Hu Hbase Hfail.
    destruct (llm_response_failure _ Hfail) as [err Herr].
    rewrite (comparison_run name options img base w Hb Ha Hs Hu Hbase).
    unfold gateway_error_verdict, result_of.
    unfold gateway_answer in Herr |- *. rewrite Herr.
    cbn [success negb error render_optional].
    eexists. exists err. split; [reflexivity|]. split; [reflexivity|].
    apply trace_after_request.
Qed.

(** C9, as the code has it.  When the baseline exists, no update is asked
    for and the capture of the name is another file than its baseline, then
    whatever the invocation does (return a verdict or throw), the baseline
    holds the same bytes afterwards, and none of the effects of the
    invocation writes it: it is only tested for existence and read. *)
Theorem baseline_untouched_on_compare (name : jsstring) (options : Options)
    (w : World) (base : list Byte.byte) :
  files w !! baseline_path_of env name = Some base ->
  updateBaselines options <> Some true ->
  baseline_path_of env name <> actual_path_of env name ->
  forall w' r,
    expectPageToMatchVisuallyAI parse env page name options w = (w', r) ->
    files w' !! baseline_path_of env name = Some base
    /\ exists evs,
         trace w' = trace w ++ evs
         /\ Forall (fun e => ~ writes_to (baseline_path_of env name) e) evs.
Proof.
  intros Hbase Hu Hne w' r Hrun.
  assert (Hne' : actual_path_of env name <> baseline_path_of env name)
    by (intros Heq; apply Hne; symmetry; exact Heq).
  assert (Hkept : forall img,
             <[actual_path_of env name := img]> (files w) !! baseline_path_of env name
             = Some base).
  { intros img. rewrite lookup_insert_ne by exact Hne'. exact Hbase. }
  destruct (orchestrator_cases name options w)
    as [(e & _ & _ & H)|[(e & _ & _ & _ & H)|[(e & _ & _ & _ & H)
       |[(img & _ & _ & _ & Hbranch & H)|[(img & e & _ & _ & _ & Hbranch & _ & H)
       |[(img & base' & _ & _ & _ & Hbase' & H)|(img & _ & _ & _ & Hnone & H)]]]]]];
    rewrite H in Hrun; injection Hrun as <- <-.
  - split; [exact Hbase|]. eexists. split; [reflexivity|].
    repeat constructor; intros [].
  - split; [cbn [files record_event]; rewrite files_ensured; exact Hbase|].
    eexists. split.
    + cbn [trace record_event]. rewrite trace_ensured, <- !app_assoc. reflexivity.
    + repeat constructor; intros [].
  - split; [cbn [files record_event]; rewrite !files_ensured; exact Hbase|].
    eexists. split.
    + cbn [trace record_event]. rewrite !trace_ensured, <- !app_assoc. reflexivity.
    + repeat constructor; first [exact Hne' | intros []].
  - exfalso. rewrite (baseline_seen_file name options img w base (Hkept img)) in Hbranch.
    rewrite (not_truthy_flag _ Hu) in Hbranch. discriminate.
  - exfalso. rewrite (baseline_seen_file name options img w base (Hkept img)) in Hbranch.
    rewrite (not_truthy_flag _ Hu) in Hbranch. discriminate.
  - split.
    + unfold after_request. cbn [files record_event].
      rewrite files_after_capture. apply Hkept.
    + eexists. split; [apply trace_after_request|].
      repeat constructor; first [exact Hne' | intros []].
  - rewrite Hkept in Hnone. discriminate.
Qed.

(** Every request of an invocation goes to the on-device endpoint of the
    configuration. *)
Lemma orchestrator_requests name options w w' r :
  expectPageToMatchVisuallyAI parse env page name options w = (w', r) ->
  exists evs, trace w' = trace w ++ evs /\ Forall (to_on_device (config env)) evs.
Proof.
  intros Hrun.
  destruct (orchestrator_cases name options w)
    as [(e & _ & _ & H)|[(e & _ & _ & _ & H)|[(e & _ & _ & _ & H)
       |[(img & _ & _ & _ & _ & H)|[(img & e & _ & _ & _ & _ & _ & H)
       |[(img & base & _ & _ & _ & _ & H)|(img & _ & _ & _ & _ & H)]]]]]];
    rewrite H in Hrun; injection Hrun as <- <-; eexists.
  - split; [reflexivity | repeat constructor].
  - split; [cbn [trace record_event]; rewrite trace_ensured, <- !app_assoc; reflexivity
           | repeat constructor].
  - split; [cbn [trace record_event]; rewrite !trace_ensured, <- !app_assoc; reflexivity
           | repeat constructor].
  - split; [apply trace_after_copy | repeat constructor].
  - split; [cbn [trace record_event]; rewrite trace_after_capture, <- !app_assoc;
            reflexivity | repeat constructor].
  - split; [apply trace_after_request | repeat constructor].
  - split; [cbn [trace record_event]; rewrite trace_after_capture, <- !app_assoc;
            reflexivity | repeat constructor].
Qed.

End OrchestratorFacts.

(** * The temperature sent by the gateway *)

(** C10.  Whatever the request, the temperature in the posted body is not
    zero: a temperature of zero (of either sign) is replaced by 0.2, and the
    body posted is the one built from the request. *)
Theorem temperature_zero_never_sent (this : LocalLLMService)
    (request : MultimodalLLMRequest) :
  is_zero (p_temperature (build_payload this request)) = false
  /\ (forall sgn, temperature request = Some (S754_zero sgn) ->
        p_temperature (build_payload this request) = num_0_2)
  /\ (forall env w,
        trace (fst (generateMultimodalResponse env this request w))
        = trace w ++ [EvPost (generate_url this) (build_payload this request)]).
Proof.
  split; [|split].
  - unfold build_payload, number_or; cbn [p_temperature].
    destruct (temperature request) as [[s| s| |s m e]|]; reflexivity.
  - intros sgn H. unfold build_payload, number_or; cbn [p_temperature].
    rewrite H. reflexivity.
  - intros env w. reflexivity.
Qed.

(** * Backend selection *)

(** The factory [getLLMService] chooses by the flag: the cloud backend for
    [google] with an API key, the on-device backend for [google] without a
    key (the constructor throws) and for every other value; once it has
    chosen, later calls return the same instance whatever the configuration
    says.  The comparison pipeline does not go through the factory: every
    request of an invocation goes to the on-device endpoint, whatever the
    flag. *)
Lemma backend_selection :
  (forall cfg k ks,
     aiServiceMode cfg = u "google" -> googleApiKey cfg = k :: ks ->
     snd (getLLMService cfg None)
     = Cloud {| apiKey := k :: ks;
                geminiModel := string_or (googleGeminiModel cfg) (u "gemini-pro") |})
  /\ (forall cfg,
        aiServiceMode cfg = u "google" -> googleApiKey cfg = [] ->
        snd (getLLMService cfg None) = OnDevice (new_LocalLLMService cfg))
  /\ (forall cfg,
        aiServiceMode cfg <> u "google" ->
        snd (getLLMService cfg None) = OnDevice (new_LocalLLMService cfg))
  /\ (forall cfg cfg',
        getLLMService cfg' (fst (getLLMService cfg None)) = getLLMService cfg None)
  /\ (forall parse env page name options w w' r,
        expectPageToMatchVisuallyAI parse env page name options w = (w', r) ->
        exists evs, trace w' = trace w ++ evs
                    /\ Forall (to_on_device (config env)) evs).
Proof.
  split; [|split; [|split; [|split]]].
  - intros cfg k ks Hm Hk. unfold getLLMService, new_GoogleLLMService.
    rewrite bool_decide_eq_true_2 by exact Hm. rewrite Hk. reflexivity.
  - intros cfg Hm Hk. unfold getLLMService, new_GoogleLLMService.
    rewrite bool_decide_eq_true_2 by exact Hm. rewrite Hk. reflexivity.
  - intros cfg Hm. unfold getLLMService.
    rewrite bool_decide_eq_false_2 by exact Hm. reflexivity.
  - intros cfg cfg'. unfold getLLMService at 2 3.
    destruct (bool_decide (aiServiceMode cfg = u "google"));
      [destruct (new_GoogleLLMService cfg)|]; reflexivity.
  - intros parse env page name options w w' r. apply orchestrator_requests.
Qed.

(** * String lemmas *)

Lemma starts_with_app p s : starts_with p (p ++ s) = true.
Proof.
  induction p as [|a p IH]; [reflexivity|]. simpl. rewrite N.eqb_refl. exact IH.
Qed.

Lemma starts_with_true p s : starts_with p s = true -> s = p ++ drop (length p) s.
Proof.
  revert s. induction p as [|a p IH]; intros s H; [reflexivity|].
  destruct s as [|b s]; [discriminate|]. simpl in H.
  apply andb_true_iff in H as [Hab H]. apply N.eqb_eq in Hab. subst b.
  simpl. f_equal. apply IH, H.
Qed.

Lemma starts_with_extend p s r : starts_with p s = true -> starts_with p (s ++ r) = true.
Proof.
  revert s. induction p as [|a p IH]; intros s H; [reflexivity|].
  destruct s as [|b s]; [discriminate|]. simpl in *.
  apply andb_true_iff in H as [Hab H]. rewrite Hab. simpl. apply IH, H.
Qed.

(** A pattern that matches across a unit it does not contain matches before
    it. *)
Lemma starts_with_before p a c r :
  c ∉ p -> starts_with p (a ++ c :: r) = true ->
  starts_with p a = true /\ (length p <= length a)%nat.
Proof.
  revert a. induction p as [|x p IH]; intros a Hc H.
  - split; [reflexivity | simpl; lia].
  - apply not_elem_of_cons in Hc as [Hx Hp].
    destruct a as [|y a]; simpl in H.
    + apply andb_true_iff in H as [H _]. apply N.eqb_eq in H. congruence.
    + apply andb_true_iff in H as [Hxy H]. destruct (IH a Hp H) as [H1 H2].
      simpl. rewrite Hxy, H1. split; [reflexivity | lia].
Qed.

Lemma drop_take_while f s : drop (length (take_while f s)) s = drop_while f s.
Proof.
  induction s as [|c r IH]; [reflexivity|]. simpl.
  destruct (f c); [exact IH | reflexivity].
Qed.

Lemma take_drop_while f s : take_while f s ++ drop_while f s = s.
Proof.
  induction s as [|c r IH]; [reflexivity|]. simpl.
  destruct (f c); [simpl; f_equal; exact IH | reflexivity].
Qed.

Lemma drop_while_app_stop f a c r :
  f c = false -> drop_while f (a ++ c :: r) = drop_while f a ++ c :: r.
Proof.
  intros Hc. induction a as [|x a IH]; simpl.
  - rewrite Hc. reflexivity.
  - destruct (f x); [exact IH | reflexivity].
Qed.

Lemma drop_while_all f a r :
  Forall (fun c => f c = true) a -> drop_while f (a ++ r) = drop_while f r.
Proof.
  induction 1 as [|x a Hx _ IH]; [reflexivity|]. simpl. rewrite Hx. exact IH.
Qed.

Lemma take_while_all f a c r :
  Forall (fun x => f x = true) a -> f c = false -> take_while f (a ++ c :: r) = a.
Proof.
  intros Ha Hc. induction Ha as [|x a Hx _ IH]; simpl.
  - rewrite Hc. reflexivity.
  - rewrite Hx. f_equal. exact IH.
Qed.

Lemma elem_of_drop_while f (x : N) s : x ∈ drop_while f s -> x ∈ s.
Proof.
  induction s as [|c r IH]; [auto|]. simpl.
  destruct (f c); [|auto]. intros H. right. apply IH, H.
Qed.

Lemma elem_of_rev (x : N) s : x ∈ rev s <-> x ∈ s.
Proof. rewrite !list_elem_of_In. symmetry. apply in_rev. Qed.

(** ** Global replacement *)

Section ReplaceAll.

Variable m : jsstring -> jsstring -> option (nat * jsstring).

Lemma replace_all_skip before k s :
  replace_all m before k s
  = replace_all m (rev (take k s) ++ before) 0 (drop k s).
Proof.
  revert before k. induction s as [|c tl IH]; intros before k.
  - destruct k; reflexivity.
  - destruct k as [|k]; [reflexivity|].
    cbn [replace_all take drop rev]. rewrite IH. rewrite <- app_assoc. reflexivity.
Qed.

Lemma replace_all_step before c tl :
  m before (c :: tl) = None ->
  replace_all m before 0 (c :: tl) = c :: replace_all m (c :: before) 0 tl.
Proof. intros H. cbn [replace_all]. rewrite H. reflexivity. Qed.

Lemma replace_all_match before c tl k r :
  m before (c :: tl) = Some (S k, r) ->
  replace_all m before 0 (c :: tl)
  = r ++ replace_all m (rev (take k tl) ++ c :: before) 0 (drop k tl).
Proof.
  intros H. cbn [replace_all]. rewrite H. rewrite replace_all_skip. reflexivity.
Qed.

End ReplaceAll.

(** ** The repair of the missing comma *)

Lemma includes_here p s : starts_with p s = true -> includes p s = true.
Proof. intros H. destruct s; simpl; rewrite H; reflexivity. Qed.

Lemma includes_later p a s : includes p s = true -> includes p (a ++ s) = true.
Proof.
  intros H. induction a as [|c a IH]; [exact H|].
  cbn [app includes]. rewrite IH. apply orb_true_r.
Qed.

Lemma missing_comma_match_spec before rest k r :
  missing_comma_match before rest = Some (k, r) ->
  k = (length (take_while is_whitespace rest) + length key_reason)%nat
  /\ r = u "," ++ take_while is_whitespace rest ++ key_reason
  /\ rest = take_while is_whitespace rest ++ key_reason ++ drop k rest
  /\ after_passed_bool before = true.
Proof.
  unfold missing_comma_match.
  destruct (after_passed_bool before); [|discriminate].
  cbn [andb].
  destruct (starts_with key_reason
              (drop (length (take_while is_whitespace rest)) rest)) eqn:Hs;
    [|discriminate].
  intros H. inversion H; subst k r; clear H.
  split; [reflexivity|]. split; [reflexivity|]. split; [|reflexivity].
  apply starts_with_true in Hs.
  rewrite <- (take_drop_while is_whitespace rest) at 1. f_equal.
  rewrite <- drop_take_while. rewrite Hs at 1. f_equal.
  apply drop_drop.
Qed.

Lemma missing_comma_match_none_rest before rest :
  starts_with key_reason (drop_while is_whitespace rest) = false ->
  missing_comma_match before rest = None.
Proof.
  intros H. unfold missing_comma_match.
  rewrite drop_take_while, H, andb_false_r. reflexivity.
Qed.

Lemma missing_comma_match_none_before before rest :
  after_passed_bool before = false -> missing_comma_match before rest = None.
Proof. intros H. unfold missing_comma_match. rewrite H. reflexivity. Qed.

Lemma commas_inserted_keep a s t :
  commas_inserted s t -> commas_inserted (a ++ s) (a ++ t).
Proof. intros H. induction a; [exact H | apply ci_keep; assumption]. Qed.

Lemma repair_inserts_commas n : forall s before,
  (length s <= n)%nat ->
  commas_inserted s (replace_all missing_comma_match before 0 s).
Proof.
  induction n as [|n IH]; intros s before Hn.
  - destruct s; [apply ci_nil | simpl in Hn; lia].
  - destruct s as [|c tl]; [apply ci_nil|].
    destruct (missing_comma_match before (c :: tl)) as [[[|k] r]|] eqn:Hm.
    + cbn [replace_all]. rewrite Hm. apply ci_keep, IH. simpl in Hn. lia.
    + rewrite (replace_all_match _ _ _ _ _ _ Hm).
      destruct (missing_comma_match_spec _ _ _ _ Hm) as (Hk & -> & Hrest & _).
      cbn [drop] in Hrest. rewrite Hrest at 1.
      rewrite <- !app_assoc.
      change (u "," ++ ?x) with (44 :: x). apply ci_comma.
      apply commas_inserted_keep, commas_inserted_keep, IH.
      rewrite length_drop. simpl in Hn. lia.
    + cbn [replace_all]. rewrite Hm. apply ci_keep, IH. simpl in Hn. lia.
Qed.

Lemma repair_identity_without_key s : forall before,
  includes key_reason s = false ->
  replace_all missing_comma_match before 0 s = s.
Proof.
  induction s as [|c tl IH]; intros before H; [reflexivity|].
  assert (Hm : missing_comma_match before (c :: tl) = None).
  { destruct (missing_comma_match before (c :: tl)) as [[k r]|] eqn:Hm; [|reflexivity].
    destruct (missing_comma_match_spec _ _ _ _ Hm) as (_ & _ & Hrest & _).
    rewrite Hrest in H. rewrite includes_later in H; [discriminate|].
    apply includes_here, starts_with_app. }
  rewrite replace_all_step by exact Hm. f_equal. apply IH.
  cbn [includes] in H. apply orb_false_iff in H as [_ H]. exact H.
Qed.

Lemma reason_not_ahead_ws w c r :
  Forall (fun x => is_whitespace x = true) w ->
  is_whitespace c = false -> (dquote =? c) = false ->
  starts_with key_reason (drop_while is_whitespace (w ++ c :: r)) = false.
Proof.
  intros Hw Hc Hq. rewrite drop_while_all by exact Hw.
  cbn [drop_while]. rewrite Hc.
  unfold key_reason. cbn [starts_with]. rewrite Hq. reflexivity.
Qed.

Lemma after_passed_bool_here (b : bool) w before :
  Forall (fun x => is_whitespace x = true) w ->
  after_passed_bool (rev (bool_literal b) ++ rev w ++ rev key_passed ++ before) = true.
Proof.
  intros Hw.
  assert (Hk : starts_with (rev key_passed)
                 (drop_while is_whitespace (rev w ++ rev key_passed ++ before)) = true).
  { rewrite drop_while_all.
    - change (rev key_passed) with ([58; 34] ++ rev (dquote :: u "passed")) at 2.
      rewrite <- app_assoc. cbn [app drop_while].
      change (is_whitespace 58) with false. cbn iota.
      change (58 :: 34 :: rev (dquote :: u "passed") ++ before)
        with (rev key_passed ++ before).
      apply starts_with_app.
    - apply Forall_forall. intros x Hx.
      apply (proj1 (elem_of_rev _ _)) in Hx.
      rewrite Forall_forall in Hw. apply Hw. exact Hx. }
  unfold after_passed_bool. destruct b.
  - change (rev (bool_literal true)) with (rev (u "true")).
    rewrite starts_with_app.
    change (rev (u "true") ++ ?x) with (101 :: 117 :: 114 :: 116 :: x).
    cbn [drop]. rewrite drop_0, Hk. reflexivity.
  - change (rev (bool_literal false)) with (rev (u "false")).
    rewrite starts_with_app.
    change (rev (u "false") ++ ?x) with (101 :: 115 :: 108 :: 97 :: 102 :: x).
    cbn [drop]. rewrite drop_0, Hk. apply orb_true_r.
Qed.

Lemma repair_copies_whitespace w : forall before c r,
  Forall (fun x => is_whitespace x = true) w ->
  is_whitespace c = false -> (dquote =? c) = false ->
  replace_all missing_comma_match before 0 (w ++ c :: r)
  = w ++ replace_all missing_comma_match (rev w ++ before) 0 (c :: r).
Proof.
  induction w as [|x w IH]; intros before c r Hw Hc Hq; [reflexivity|].
  cbn [app]. rewrite replace_all_step.
  - f_equal. rewrite IH by (try exact Hc; try exact Hq; inversion Hw; assumption).
    cbn [rev]. rewrite <- app_assoc. reflexivity.
  - apply missing_comma_match_none_rest.
    apply (reason_not_ahead_ws (x :: w) c r Hw Hc Hq).
Qed.

(** One unit that is neither whitespace nor a quote is copied. *)
Lemma repair_copies_unit before c r :
  is_whitespace c = false -> (dquote =? c) = false ->
  replace_all missing_comma_match before 0 (c :: r)
  = c :: replace_all missing_comma_match (c :: before) 0 r.
Proof.
  intros Hc Hq. apply replace_all_step, missing_comma_match_none_rest.
  apply (reason_not_ahead_ws [] c r); [constructor | exact Hc | exact Hq].
Qed.

(** The repair on the pattern itself: the key [passed], a boolean and the
    key [reason] with only whitespace between them. *)
Lemma repair_on_pattern (b : bool) (w1 w2 : jsstring) :
  Forall (fun x => is_whitespace x = true) w1 ->
  Forall (fun x => is_whitespace x = true) w2 ->
  fix_missing_comma (key_passed ++ w1 ++ bool_literal b ++ w2 ++ key_reason)
  = key_passed ++ w1 ++ bool_literal b ++ u "," ++ w2 ++ key_reason.
Proof.
  intros H1 H2. unfold fix_missing_comma.
  assert (Hm : replace_all missing_comma_match
                 (rev (bool_literal b) ++ rev w1 ++ rev key_passed ++ []) 0
                 (w2 ++ key_reason)
               = u "," ++ w2 ++ key_reason).
  { assert (Hm : missing_comma_match
                   (rev (bool_literal b) ++ rev w1 ++ rev key_passed ++ [])
                   (w2 ++ key_reason)
                 = Some ((length w2 + length key_reason)%nat,
                         u "," ++ w2 ++ key_reason)).
    { unfold missing_comma_match.
      rewrite (after_passed_bool_here b w1 [] H1).
      replace (take_while is_whitespace (w2 ++ key_reason)) with w2
        by (symmetry; apply take_while_all; [exact H2 | reflexivity]).
      rewrite drop_app_length. reflexivity. }
    destruct (w2 ++ key_reason) as [|c tl] eqn:Hs.
    { destruct w2; discriminate. }
    replace (length w2 + length key_reason)%nat with (S (length tl)) in Hm.
    2:{ apply (f_equal length) in Hs. rewrite length_app in Hs.
        cbn [length] in Hs. lia. }
    rewrite (replace_all_match _ _ _ _ _ _ Hm).
    rewrite drop_all. rewrite app_nil_r. reflexivity. }
  change key_passed with [34; 112; 97; 115; 115; 101; 100; 34; 58].
  cbn [app].
  do 9 (rewrite replace_all_step
          by (apply missing_comma_match_none_before; vm_compute; reflexivity)).
  do 9 f_equal.
  destruct b.
  - change (bool_literal true) with [116; 114; 117; 101] in *. cbn [app].
    rewrite repair_copies_whitespace by (assumption || reflexivity). f_equal.
    do 4 (rewrite repair_copies_unit by reflexivity). do 4 f_equal.
    exact Hm.
  - change (bool_literal false) with [102; 97; 108; 115; 101] in *. cbn [app].
    rewrite repair_copies_whitespace by (assumption || reflexivity). f_equal.
    do 5 (rewrite repair_copies_unit by reflexivity). do 5 f_equal.
    exact Hm.
Qed.

Lemma take_while_holds f (s : jsstring) :
  Forall (fun x => f x = true) (take_while f s).
Proof.
  induction s as [|c s IH]; [constructor|]. cbn [take_while].
  destruct (f c) eqn:Hc; constructor; assumption.
Qed.

Lemma after_passed_bool_spec behind :
  after_passed_bool (rev behind) = true <-> passed_bool_behind behind.
Proof.
  split.
  - assert (Hkey : forall lit X,
               rev behind = rev lit ++ X ->
               starts_with (rev key_passed) (drop_while is_whitespace X) = true ->
               exists p w,
                 behind = p ++ key_passed ++ w ++ lit
                 /\ Forall (fun x => is_whitespace x = true) w).
    { intros lit X Hb Hk. apply starts_with_true in Hk.
      exists (rev (drop (length (rev key_passed)) (drop_while is_whitespace X))),
             (rev (take_while is_whitespace X)).
      split.
      - rewrite <- (rev_involutive behind), Hb.
        rewrite <- (take_drop_while is_whitespace X) at 1. rewrite Hk at 1.
        rewrite !rev_app_distr, !rev_involutive, <- !app_assoc. reflexivity.
      - apply Forall_rev, take_while_holds. }
    unfold after_passed_bool. intros H. apply orb_true_iff in H as [H|H];
      apply andb_true_iff in H as [Hlit Hk]; apply starts_with_true in Hlit.
    + destruct (Hkey (u "true") _ Hlit Hk) as (p & w & Hb & Hw).
      exists p, w, true. split; assumption.
    + destruct (Hkey (u "false") _ Hlit Hk) as (p & w & Hb & Hw).
      exists p, w, false. split; assumption.
  - intros (p & w & b & -> & Hw).
    rewrite !rev_app_distr, <- !app_assoc.
    apply (after_passed_bool_here b w (rev p) Hw).
Qed.

Lemma reason_key_ahead_spec ahead :
  starts_with key_reason (drop_while is_whitespace ahead) = true
  <-> reason_key_ahead ahead.
Proof.
  split.
  - intros H. apply starts_with_true in H.
    exists (take_while is_whitespace ahead),
           (drop (length key_reason) (drop_while is_whitespace ahead)).
    split; [|apply take_while_holds].
    rewrite <- H. symmetry. apply take_drop_while.
  - intros (w & t & -> & Hw). rewrite drop_while_all by exact Hw.
    change (drop_while is_whitespace (key_reason ++ t)) with (key_reason ++ t).
    apply starts_with_app.
Qed.

Lemma missing_comma_match_some behind ahead :
  comma_missing behind ahead ->
  exists k r, missing_comma_match (rev behind) ahead = Some (S k, r).
Proof.
  intros [Hb Ha]. apply after_passed_bool_spec in Hb.
  apply reason_key_ahead_spec in Ha.
  unfold missing_comma_match. rewrite Hb, drop_take_while, Ha. cbn [andb].
  rewrite Nat.add_comm. eexists _, _. reflexivity.
Qed.

Lemma missing_comma_match_comma behind ahead k r :
  missing_comma_match (rev behind) ahead = Some (k, r) -> comma_missing behind ahead.
Proof.
  intros H. unfold missing_comma_match in H.
  destruct (after_passed_bool (rev behind)) eqn:Hb; [|discriminate].
  cbn [andb] in H. rewrite drop_take_while in H.
  destruct (starts_with key_reason (drop_while is_whitespace ahead)) eqn:Ha;
    [|discriminate].
  split; [apply after_passed_bool_spec, Hb | apply reason_key_ahead_spec, Ha].
Qed.

(** The code does what the specification words. *)
Lemma repair_is_repaired n : forall s behind,
  (length s <= n)%nat ->
  repaired behind s (replace_all missing_comma_match (rev behind) 0 s).
Proof.
  induction n as [|n IH]; intros s behind Hn.
  - destruct s; [apply repaired_end | simpl in Hn; lia].
  - destruct s as [|c tl]; [apply repaired_end|].
    destruct (missing_comma_match (rev behind) (c :: tl)) as [[k r]|] eqn:Hm.
    + pose proof (missing_comma_match_comma _ _ _ _ Hm) as [Hb _].
      destruct (missing_comma_match_spec _ _ _ _ Hm) as (Hk & Hr & Hrest & _).
      set (ws := take_while is_whitespace (c :: tl)) in *.
      destruct k as [|k];
        [change (length key_reason) with 9%nat in Hk; lia|].
      rewrite (replace_all_match _ _ _ _ _ _ Hm).
      cbn [drop] in Hrest.
      assert (Htake : c :: take k tl = ws ++ key_reason).
      { change (c :: take k tl) with (take (S k) (c :: tl)).
        rewrite Hrest at 1. rewrite app_assoc.
        rewrite take_app_length' by (rewrite length_app; lia). reflexivity. }
      assert (Hbehind : rev (take k tl) ++ c :: rev behind
                        = rev (behind ++ ws ++ key_reason)).
      { rewrite rev_app_distr, <- Htake. cbn [rev]. rewrite <- app_assoc. reflexivity. }
      rewrite Hbehind, Hr, <- !app_assoc.
      cut (repaired behind (ws ++ key_reason ++ drop k tl)
             (u "," ++ ws ++ key_reason
              ++ replace_all missing_comma_match
                   (rev (behind ++ ws ++ key_reason)) 0 (drop k tl))).
      { rewrite <- Hrest. exact id. }
      apply repaired_comma; [exact Hb | apply take_while_holds|].
      apply IH. rewrite length_drop. simpl in Hn. lia.
    + rewrite replace_all_step by exact Hm.
      apply repaired_copy.
      * intros Hc. destruct (missing_comma_match_some _ _ Hc) as (k & r & Hs).
        rewrite Hm in Hs. discriminate.
      * replace (c :: rev behind) with (rev (behind ++ [c]))
          by (rewrite rev_app_distr; reflexivity).
        apply IH. simpl in Hn. lia.
Qed.

Lemma whitespace_before_key w w' t t' :
  Forall (fun x => is_whitespace x = true) w ->
  Forall (fun x => is_whitespace x = true) w' ->
  w ++ key_reason ++ t = w' ++ key_reason ++ t' -> w = w' /\ t = t'.
Proof.
  intros Hw Hw' Heq.
  assert (Hww : w = w').
  { rewrite <- (take_while_all is_whitespace w dquote (u "reason" ++ dquote :: u ":" ++ t) Hw eq_refl).
    rewrite <- (take_while_all is_whitespace w' dquote
                  (u "reason" ++ dquote :: u ":" ++ t') Hw' eq_refl).
    f_equal. unfold key_reason in Heq. cbn [app] in Heq.
    rewrite <- !app_assoc in Heq. exact Heq. }
  subst w'. split; [reflexivity|].
  apply app_inv_head in Heq. apply app_inv_head in Heq. exact Heq.
Qed.

Lemma repaired_inv behind s out :
  repaired behind s out ->
  (s = [] /\ out = [])
  \/ (exists w t o,
        s = w ++ key_reason ++ t /\ out = u "," ++ w ++ key_reason ++ o
        /\ passed_bool_behind behind
        /\ Forall (fun x => is_whitespace x = true) w
        /\ repaired (behind ++ w ++ key_reason) t o)
  \/ (exists c t o,
        s = c :: t /\ out = c :: o
        /\ ~ comma_missing behind (c :: t)
        /\ repaired (behind ++ [c]) t o).
Proof.
  intros [b | b w t o Hb Hw Hr | b c t o Hno Hr].
  - left. auto.
  - right. left. exists w, t, o. auto.
  - right. right. exists c, t, o. auto.
Qed.

(** What the specification words has one outcome. *)
Lemma repaired_functional behind s out :
  repaired behind s out -> forall out', repaired behind s out' -> out = out'.
Proof.
  induction 1 as [behind | behind w t out Hb Hw Hrest IH | behind c t out Hno Hrest IH];
    intros out' H';
    destruct (repaired_inv _ _ _ H')
      as [[Hs ->] | [(w' & t' & o' & Hs & -> & Hb' & Hw' & Hr')
                    | (c' & t' & o' & Hs & -> & Hno' & Hr')]].
  - reflexivity.
  - destruct w'; discriminate.
  - discriminate.
  - destruct w; discriminate.
  - destruct (whitespace_before_key _ _ _ _ Hw Hw' Hs) as [<- <-].
    do 3 f_equal. apply IH, Hr'.
  - exfalso. apply Hno'. rewrite <- Hs. split; [exact Hb|]. exists w, t. auto.
  - discriminate.
  - exfalso. apply Hno. rewrite Hs. split; [exact Hb'|]. exists w', t'. auto.
  - injection Hs as <- <-. f_equal. apply IH, Hr'.
Qed.

Lemma repaired_nothing s : forall behind,
  (forall a b, s = a ++ b -> ~ comma_missing (behind ++ a) b) ->
  repaired behind s s.
Proof.
  induction s as [|c t IH]; intros behind H; [apply repaired_end|].
  apply repaired_copy.
  - specialize (H [] (c :: t) eq_refl). rewrite app_nil_r in H. exact H.
  - apply IH. intros a b ->. rewrite <- app_assoc. apply (H (c :: a) b eq_refl).
Qed.

(** C6.  The input with the comma missing between the boolean of [passed]
    and the key [reason] is repaired and gives the verdict it states.  On
    the pattern itself (the key [passed], a boolean, the key [reason], only
    whitespace between them) the repair inserts one comma after the boolean.
    The repair does nothing but insert commas, and leaves every text without
    the key [reason] as it is; a comma missing elsewhere is not repaired:
    the verdict does not pass.  No other repair is made: the repaired text
    is the one the specification words, a comma put at each place where the
    boolean of [passed] stands behind and the key [reason] ahead, with only
    white space between them, and every other unit copied; so a text
    without such a place is left as it is. *)
Theorem missing_comma_repair :
  (forall msg,
     interpretAIJsonResponse (JSON_parse msg) (uq "{'passed': true  'reason': 'ok'}")
     = Normal {| passed := true; reason := u "ok" |})
  /\ (forall (b : bool) (w1 w2 : jsstring),
        Forall (fun x => is_whitespace x = true) w1 ->
        Forall (fun x => is_whitespace x = true) w2 ->
        fix_missing_comma (key_passed ++ w1 ++ bool_literal b ++ w2 ++ key_reason)
        = key_passed ++ w1 ++ bool_literal b ++ u "," ++ w2 ++ key_reason)
  /\ (forall s, commas_inserted s (fix_missing_comma s))
  /\ (forall s, includes key_reason s = false -> fix_missing_comma s = s)
  /\ (forall msg,
        exists v,
          interpretAIJsonResponse (JSON_parse msg)
            (uq "{'reason': 'ok'  'passed': true}") = Normal v
          /\ passed v = false)
  /\ (forall s t, repaired [] s t <-> t = fix_missing_comma s)
  /\ (forall s,
        (forall a b, s = a ++ b -> ~ comma_missing a b) ->
        fix_missing_comma s = s).
Proof.
  assert (Hspec : forall s, repaired [] s (fix_missing_comma s)).
  { intros s. apply (repair_is_repaired (length s) s []). lia. }
  split; [|split; [|split; [|split; [|split; [|split]]]]].
  - intros msg. vm_compute. reflexivity.
  - exact repair_on_pattern.
  - intros s. apply (repair_inserts_commas (length s)). lia.
  - intros s. apply repair_identity_without_key.
  - intros msg. eexists. split; [vm_compute; reflexivity | reflexivity].
  - intros s t. split.
    + intros H. apply (repaired_functional [] s t H), Hspec.
    + intros ->. apply Hspec.
  - intros s H. symmetry.
    apply (repaired_functional [] s s); [|apply Hspec].
    apply repaired_nothing. exact H.
Qed.

(** ** Fence stripping *)

Lemma replace_all_fence_before k s : forall b1 b2,
  replace_all fence_open_match b1 k s = replace_all fence_open_match b2 k s.
Proof.
  revert k. induction s as [|c tl IH]; intros k b1 b2; [reflexivity|].
  cbn [replace_all]. destruct k as [|k]; [|apply IH].
  change (fence_open_match b1 (c :: tl)) with (fence_open_match b2 (c :: tl)).
  destruct (fence_open_match b2 (c :: tl)) as [[[|n] r]|];
    rewrite (IH _ (c :: b1) (c :: b2)); reflexivity.
Qed.

Lemma fence_open_match_app b a c rest :
  c ∉ fence_open -> c <> newline ->
  fence_open_match b (a ++ c :: rest) = fence_open_match b a
  /\ forall n r, fence_open_match b a = Some (n, r) -> (n <= length a)%nat.
Proof.
  intros Hc Hn. unfold fence_open_match. fold fence_open.
  destruct (starts_with fence_open (a ++ c :: rest)) eqn:H.
  - destruct (starts_with_before _ _ _ _ Hc H) as [Ha Hlen]. rewrite Ha.
    change (length fence_open) with 7%nat in Hlen.
    rewrite drop_app_le by exact Hlen.
    destruct (drop 7 a) as [|y d] eqn:Hd.
    + cbn [app]. destruct (N.eqb_spec c newline) as [->|_]; [contradiction|].
      split; [reflexivity|]. intros n r [= <- <-]. exact Hlen.
    + cbn [app]. split; [reflexivity|].
      assert (Hlen8 : (8 <= length a)%nat).
      { apply (f_equal length) in Hd. rewrite length_drop in Hd.
        cbn [length] in Hd. lia. }
      intros n r. destruct (y =? newline); intros [= <- <-]; lia.
  - destruct (starts_with fence_open a) eqn:Ha.
    + rewrite (starts_with_extend _ _ (c :: rest) Ha) in H. discriminate.
    + split; [reflexivity | discriminate].
Qed.

(** A unit that is not part of the fence opener separates the stripping of
    what is before it from the stripping of the rest. *)
Lemma strip_app_stop c rest a : forall k b,
  c ∉ fence_open -> c <> newline -> (k <= length a)%nat ->
  replace_all fence_open_match b k (a ++ c :: rest)
  = replace_all fence_open_match b k a
    ++ replace_all fence_open_match [] 0 (c :: rest).
Proof.
  induction a as [|x a IH]; intros k b Hc Hn Hk.
  - assert (k = 0%nat) as -> by (simpl in Hk; lia).
    apply (replace_all_fence_before 0 (c :: rest)).
  - cbn [app replace_all]. destruct k as [|k].
    + destruct (fence_open_match_app b (x :: a) c rest Hc Hn) as [Heq Hlen].
      cbn [app] in Heq. rewrite Heq.
      destruct (fence_open_match b (x :: a)) as [[[|n] r]|] eqn:Hm.
      * cbn [app]. f_equal. apply IH; [assumption|assumption|lia].
      * specialize (Hlen _ _ eq_refl). cbn [length] in Hlen.
        rewrite <- app_assoc. f_equal. apply IH; [assumption|assumption|lia].
      * cbn [app]. f_equal. apply IH; [assumption|assumption|lia].
    + apply IH; [assumption|assumption|simpl in Hk; lia].
Qed.

Lemma strip_identity s : forall b,
  includes fence_open s = false -> replace_all fence_open_match b 0 s = s.
Proof.
  induction s as [|c tl IH]; intros b H; [reflexivity|].
  cbn [includes] in H. apply orb_false_iff in H as [Hs H].
  rewrite replace_all_step.
  - f_equal. apply IH, H.
  - unfold fence_open_match. fold fence_open. rewrite Hs. reflexivity.
Qed.

Lemma elem_of_replace_all_fence (x : N) s : forall b k,
  x ∈ replace_all fence_open_match b k s -> x ∈ s.
Proof.
  induction s as [|c tl IH]; intros b k H; [exact H|].
  cbn [replace_all] in H. destruct k as [|k].
  - destruct (fence_open_match b (c :: tl)) as [[[|n] r]|] eqn:Hm.
    + apply elem_of_cons in H as [->|H]; [left | right; apply (IH _ _ H)].
    + unfold fence_open_match in Hm.
      assert (r = []) as ->.
      { destruct (starts_with (u "```json") (c :: tl)); [|discriminate].
        destruct (drop 7 (c :: tl)) as [|y d];
          [|destruct (y =? newline)]; congruence. }
      right. apply (IH _ _ H).
    + apply elem_of_cons in H as [->|H]; [left | right; apply (IH _ _ H)].
  - right. apply (IH _ _ H).
Qed.

Lemma includes_cons_other p0 p c s :
  p0 <> c -> includes (p0 :: p) (c :: s) = includes (p0 :: p) s.
Proof.
  intros H. cbn [includes starts_with].
  destruct (N.eqb_spec p0 c); [contradiction|]. reflexivity.
Qed.

Lemma includes_snoc p0 p X c :
  c ∉ p0 :: p -> includes (p0 :: p) X = false -> includes (p0 :: p) (X ++ [c]) = false.
Proof.
  intros Hc. induction X as [|y X IH]; intros H.
  - apply not_elem_of_cons in Hc as [Hc _]. cbn.
    destruct (N.eqb_spec p0 c); [congruence|]. reflexivity.
  - cbn [app includes] in *. apply orb_false_iff in H as [Hs H].
    rewrite (IH H), orb_false_r.
    destruct (starts_with (p0 :: p) (y :: X ++ [c])) eqn:Hs'; [|reflexivity].
    destruct (starts_with_before _ (y :: X) c [] Hc Hs') as [Hy _]. congruence.
Qed.

(** ** The end fence and the trimming *)

Lemma strip_end_fence_after c A Q :
  c <> 96 ->
  exists Q', strip_end_fence (A ++ c :: Q) = A ++ c :: Q' /\ Q' ⊆ Q.
Proof.
  intros Hc. unfold strip_end_fence, ends_with.
  replace (rev (A ++ c :: Q)) with (rev Q ++ c :: rev A)
    by (rewrite rev_app_distr; cbn [rev]; rewrite <- app_assoc; reflexivity).
  destruct (starts_with (rev (u "```")) (rev Q ++ c :: rev A)) eqn:H.
  - assert (Hin : c ∉ rev (u "```")).
    { change (rev (u "```")) with [96; 96; 96].
      rewrite !not_elem_of_cons. repeat split; auto. apply not_elem_of_nil. }
    destruct (starts_with_before _ _ _ _ Hin H) as [_ Hlen].
    rewrite !length_rev in Hlen. change (length (u "```")) with 3%nat in Hlen.
    exists (take (length Q - 3) Q). split; [|apply subseteq_take].
    rewrite length_app. cbn [length].
    replace (length A + S (length Q) - 3)%nat
      with (length A + S (length Q - 3))%nat by lia.
    rewrite take_app_add. reflexivity.
  - exists Q. split; [reflexivity | reflexivity].
Qed.

Lemma trim_between P A Q :
  (forall R, drop_while is_whitespace (P ++ A ++ R) = drop_while is_whitespace P ++ A ++ R) ->
  (forall R, drop_while is_whitespace (rev Q ++ rev A ++ R)
             = drop_while is_whitespace (rev Q) ++ rev A ++ R) ->
  trim (P ++ A ++ Q)
  = drop_while is_whitespace P ++ A ++ rev (drop_while is_whitespace (rev Q)).
Proof.
  intros H1 H2. unfold trim. rewrite H1.
  rewrite !rev_app_distr, <- !app_assoc. rewrite H2.
  rewrite !rev_app_distr, !rev_involutive, <- !app_assoc. reflexivity.
Qed.

(** ** Finding the braces *)

Lemma indexOf_from_app c a r : forall i,
  c ∉ a -> indexOf_from c (a ++ c :: r) i = (i + Z.of_nat (length a))%Z.
Proof.
  induction a as [|x a IH]; intros i Hc.
  - cbn. rewrite N.eqb_refl. lia.
  - apply not_elem_of_cons in Hc as [Hx Ha]. cbn [app indexOf_from].
    destruct (N.eqb_spec x c) as [->|_]; [contradiction|].
    rewrite IH by exact Ha. cbn [length]. lia.
Qed.

Lemma lastIndexOf_from_app c a r : forall i last,
  c ∉ r -> lastIndexOf_from c (a ++ c :: r) i last = (i + Z.of_nat (length a))%Z.
Proof.
  induction a as [|x a IH]; intros i last Hc.
  - cbn [app lastIndexOf_from]. rewrite N.eqb_refl.
    rewrite lastIndexOf_from_absent by exact Hc. cbn. lia.
  - cbn [app lastIndexOf_from]. rewrite IH by exact Hc. cbn [length]. lia.
Qed.

Lemma substring_middle a m c :
  substring (a ++ m ++ c) (Z.of_nat (length a)) (Z.of_nat (length a + length m)) = m.
Proof.
  unfold substring. rewrite !length_app.
  rewrite (Z.max_l (Z.of_nat (length a)) 0) by lia.
  rewrite (Z.max_l (Z.of_nat (length a + length m)) 0) by lia.
  rewrite !Z.min_l by lia.
  rewrite Z.max_r by lia.
  replace (Z.to_nat (Z.of_nat (length a + length m) - Z.of_nat (length a)))
    with (length m) by lia.
  rewrite Nat2Z.id, drop_app_length, take_app_length. reflexivity.
Qed.

Lemma replace_unit_absent c d s : c ∉ s -> replace_unit c d s = s.
Proof.
  induction s as [|x s IH]; intros H; [reflexivity|].
  apply not_elem_of_cons in H as [Hx Hs]. cbn.
  destruct (N.eqb_spec x c) as [->|_]; [contradiction|].
  f_equal. apply IH, Hs.
Qed.

(** ** The documented reply *)

Lemma verdict_text_shape b E :
  verdict_text b E = lbrace :: (verdict_head b ++ E ++ [dquote]) ++ [rbrace].
Proof.
  destruct b; unfold verdict_text, verdict_head; rewrite <- !app_assoc; reflexivity.
Qed.

Lemma plain_unit_spec c :
  plain_unit c = true -> c <> 34 /\ c <> 92 /\ 32 <= c.
Proof.
  unfold plain_unit. rewrite !andb_true_iff, !negb_true_iff.
  intros [[H1 H2] H3].
  apply N.eqb_neq in H1. apply N.eqb_neq in H2. apply N.leb_le in H3. auto.
Qed.

Lemma simple_escape_cases e cu :
  JSON.simple_escape e = Some cu ->
  e = 34 \/ e = 92 \/ e = 47 \/ e = 98 \/ e = 102 \/ e = 110 \/ e = 114 \/ e = 116.
Proof.
  unfold JSON.simple_escape.
  repeat match goal with
         | |- context [?a =? ?b] => destruct (N.eqb_spec a b); [tauto|]
         end.
  discriminate.
Qed.

Lemma hex_value_range h v :
  JSON.hex_value h = Some v -> 48 <= h /\ h <= 102.
Proof.
  unfold JSON.hex_value.
  destruct ((48 <=? h) && (h <=? 57)) eqn:H1.
  { apply andb_true_iff in H1 as [A B]. apply N.leb_le in A. apply N.leb_le in B.
    intros _. lia. }
  destruct ((97 <=? h) && (h <=? 102)) eqn:H2.
  { apply andb_true_iff in H2 as [A B]. apply N.leb_le in A. apply N.leb_le in B.
    intros _. lia. }
  destruct ((65 <=? h) && (h <=? 70)) eqn:H3; [|discriminate].
  apply andb_true_iff in H3 as [A B]. apply N.leb_le in A. apply N.leb_le in B.
  intros _. lia.
Qed.

Lemma hex4_ranges h1 h2 h3 h4 cu :
  JSON.hex4 h1 h2 h3 h4 = Some cu ->
  (48 <= h1 /\ h1 <= 102) /\ (48 <= h2 /\ h2 <= 102)
  /\ (48 <= h3 /\ h3 <= 102) /\ (48 <= h4 /\ h4 <= 102).
Proof.
  unfold JSON.hex4.
  destruct (JSON.hex_value h1) eqn:E1; [|discriminate].
  destruct (JSON.hex_value h2) eqn:E2; [|discriminate].
  destruct (JSON.hex_value h3) eqn:E3; [|discriminate].
  destruct (JSON.hex_value h4) eqn:E4; [|discriminate].
  intros _.
  pose proof (hex_value_range _ _ E1). pose proof (hex_value_range _ _ E2).
  pose proof (hex_value_range _ _ E3). pose proof (hex_value_range _ _ E4).
  tauto.
Qed.

(** Between 33 and 159 a unit is neither whitespace nor a control
    character. *)
Lemma visible_not_whitespace c : 33 <= c -> c <= 159 -> is_whitespace c = false.
Proof.
  intros H1 H2. unfold is_whitespace.
  repeat match goal with
         | |- context [?a <=? ?b] => destruct (N.leb_spec a b); try lia
         | |- context [?a =? ?b] => destruct (N.eqb_spec a b); try lia
         end;
    reflexivity.
Qed.

Lemma string_body_of_body E X :
  json_string_body E X ->
  forall rest, JSON.string_body (E ++ dquote :: rest) = Some (X, rest).
Proof.
  induction 1 as [|c E X Hc _ IH|e cu E X He _ IH|h1 h2 h3 h4 cu E X Hh _ IH];
    intros rest.
  - reflexivity.
  - apply plain_unit_spec in Hc as (H1 & H2 & H3).
    cbn [app JSON.string_body].
    destruct (N.eqb_spec c 34); [contradiction|].
    destruct (N.eqb_spec c 92); [contradiction|].
    destruct (N.ltb_spec c 32); [lia|].
    rewrite IH. reflexivity.
  - cbn [app JSON.string_body]. change (backslash =? 34) with false.
    change (backslash =? 92) with true. cbn iota.
    destruct (N.eqb_spec e 117) as [->|_]; [discriminate|].
    rewrite He, IH. reflexivity.
  - cbn [app JSON.string_body]. change (backslash =? 34) with false.
    change (backslash =? 92) with true. cbn iota.
    change (117 =? 117) with true. cbn iota.
    rewrite Hh, IH. reflexivity.
Qed.

Lemma body_units_visible E X :
  json_string_body E X -> Forall (fun c => 32 <= c) E.
Proof.
  induction 1 as [|c E X Hc _ IH|e cu E X He _ IH|h1 h2 h3 h4 cu E X Hh _ IH].
  - constructor.
  - constructor; [apply plain_unit_spec in Hc; tauto | exact IH].
  - constructor; [unfold backslash; lia|].
    constructor; [|exact IH].
    destruct (simple_escape_cases e cu He) as [->|[->|[->|[->|[->|[->|[->| ->]]]]]]]; lia.
  - destruct (hex4_ranges _ _ _ _ _ Hh) as (R1 & R2 & R3 & R4).
    repeat (constructor; [first [unfold backslash; lia | lia]|]). exact IH.
Qed.

Lemma parse_verdict_text b E X :
  json_string_body E X ->
  JSON.parse (verdict_text b E)
  = Some (JObject [(u "passed", JBool b); (u "reason", JString X)]).
Proof.
  intros HX. rewrite verdict_text_shape. unfold JSON.parse.
  rewrite <- !app_assoc. cbn [app].
  pose proof (string_body_of_body E X HX [rbrace]) as Hbody.
  remember (E ++ dquote :: [rbrace]) as tail eqn:Htail.
  assert (Hfuel : exists n, length (lbrace :: verdict_head b ++ tail) = S (S (S (S n)))).
  { destruct b; cbn [verdict_head app length]; eexists; reflexivity. }
  destruct Hfuel as [n ->].
  destruct b; cbn; rewrite Hbody; reflexivity.
Qed.

Lemma reason_not_ahead_body E X :
  json_string_body E X ->
  starts_with key_reason (drop_while is_whitespace (E ++ [dquote; rbrace])) = false.
Proof.
  induction 1 as [|c E X Hc _ IH|e cu E X He _ IH|h1 h2 h3 h4 cu E X Hh _ IH].
  - reflexivity.
  - cbn [app drop_while]. destruct (is_whitespace c); [exact IH|].
    apply plain_unit_spec in Hc as (H1 & _).
    unfold key_reason. cbn [starts_with].
    destruct (N.eqb_spec dquote c) as [<-|_]; [contradiction | reflexivity].
  - reflexivity.
  - reflexivity.
Qed.

(** After the letters of the key, the quote that closes a well-formed
    string is followed by the closing brace, not by a colon. *)
Lemma key_tail_not_ahead p : forall E X,
  Forall (fun c => c <> 34 /\ c <> 92) p ->
  json_string_body E X ->
  starts_with (p ++ [dquote; 58]) (E ++ [dquote; rbrace]) = false.
Proof.
  induction p as [|x p IH]; intros E X Hp HE.
  - destruct HE as [|c E X Hc _|e cu E X He _|h1 h2 h3 h4 cu E X Hh _];
      [reflexivity| |reflexivity|reflexivity].
    apply plain_unit_spec in Hc as (H1 & _). cbn [app starts_with].
    destruct (N.eqb_spec dquote c) as [<-|_]; [contradiction | reflexivity].
  - inversion Hp as [|? ? [Hx1 Hx2] Hp']; subst.
    destruct HE as [|c E X Hc HE|e cu E X He _|h1 h2 h3 h4 cu E X Hh _];
      cbn [app starts_with].
    + destruct (N.eqb_spec x dquote) as [->|_]; [contradiction | reflexivity].
    + rewrite (IH E X Hp' HE). apply andb_false_r.
    + destruct (N.eqb_spec x backslash) as [->|_]; [contradiction | reflexivity].
    + destruct (N.eqb_spec x backslash) as [->|_]; [contradiction | reflexivity].
Qed.

Lemma repair_copies_body E X :
  json_string_body E X ->
  forall before,
    replace_all missing_comma_match before 0 (E ++ [dquote; rbrace])
    = E ++ [dquote; rbrace].
Proof.
  induction 1 as [|c E X Hc HE IH|e cu E X He HE IH|h1 h2 h3 h4 cu E X Hh HE IH];
    intros before.
  - cbn [app].
    do 2 (rewrite replace_all_step
            by (apply missing_comma_match_none_rest; vm_compute; reflexivity)).
    reflexivity.
  - cbn [app]. rewrite replace_all_step.
    + f_equal. apply IH.
    + apply missing_comma_match_none_rest.
      apply (reason_not_ahead_body (c :: E) (c :: X)). constructor; assumption.
  - cbn [app]. rewrite repair_copies_unit by reflexivity. f_equal.
    rewrite replace_all_step.
    + f_equal. apply IH.
    + apply missing_comma_match_none_rest.
      destruct (simple_escape_cases e cu He) as [->|[->|[->|[->|[->|[->|[->| ->]]]]]]];
        try reflexivity.
      cbn [drop_while]. change (is_whitespace 34) with false. cbn iota.
      unfold key_reason. cbn [starts_with]. change (dquote =? 34) with true.
      cbn [andb].
      apply (key_tail_not_ahead (u "reason") E X); [|exact HE].
      change (u "reason") with [114; 101; 97; 115; 111; 110].
      repeat constructor; discriminate.
  - destruct (hex4_ranges _ _ _ _ _ Hh) as (R1 & R2 & R3 & R4).
    cbn [app]. do 2 (rewrite repair_copies_unit by reflexivity; f_equal).
    do 4 (rewrite repair_copies_unit
            by (first [ apply visible_not_whitespace; lia
                      | apply N.eqb_neq; unfold dquote; lia ]);
          f_equal).
    apply IH.
Qed.

Ltac copy_unit :=
  rewrite replace_all_step
    by first [ apply missing_comma_match_none_before; vm_compute; reflexivity
             | apply missing_comma_match_none_rest; vm_compute; reflexivity ].

Lemma repair_identity_on_verdict b E X :
  json_string_body E X ->
  fix_missing_comma (verdict_text b E) = verdict_text b E.
Proof.
  intros HX. rewrite verdict_text_shape. unfold fix_missing_comma.
  rewrite <- !app_assoc. cbn [app].
  destruct b; cbn [verdict_head app]; repeat copy_unit;
    rewrite (repair_copies_body E X HX); reflexivity.
Qed.

Lemma flatten_identity_on_verdict b E X :
  json_string_body E X ->
  replace_unit carriage_return space (replace_unit newline space (verdict_text b E))
  = verdict_text b E.
Proof.
  intros HX.
  assert (Habs : forall c, (c < 32) -> (c ∉ verdict_text b E)).
  { intros c Hc. rewrite verdict_text_shape.
    rewrite not_elem_of_cons, !not_elem_of_app. split; [unfold lbrace; lia|].
    split; [split; [|split] |].
    - destruct b; cbn [verdict_head]; rewrite !not_elem_of_cons;
        repeat split; try lia; apply not_elem_of_nil.
    - intros Hin. pose proof (body_units_visible E X HX) as Hv.
      rewrite Forall_forall in Hv. specialize (Hv c Hin). lia.
    - rewrite not_elem_of_cons. split; [unfold dquote; lia | apply not_elem_of_nil].
    - rewrite not_elem_of_cons. split; [unfold rbrace; lia | apply not_elem_of_nil]. }
  rewrite (replace_unit_absent newline) by (apply Habs; reflexivity).
  apply replace_unit_absent, Habs. reflexivity.
Qed.

Lemma no_fence_in_verdict_body b E :
  includes fence_open E = false ->
  includes fence_open (verdict_head b ++ E ++ [dquote]) = false.
Proof.
  intros HX. change fence_open with (96 :: [96; 96; 106; 115; 111; 110]) in *.
  destruct b; cbn [verdict_head app];
    rewrite !includes_cons_other by discriminate;
    apply includes_snoc; try exact HX;
    rewrite !not_elem_of_cons; repeat split; try discriminate; apply not_elem_of_nil.
Qed.

(** The fences are stripped around the reply, which stays as it is. *)
Lemma strip_fences_around_verdict b E pre post :
  (lbrace ∉ pre) -> (rbrace ∉ post) ->
  includes fence_open E = false ->
  exists P Q,
    strip_fences (pre ++ verdict_text b E ++ post) = P ++ verdict_text b E ++ Q
    /\ (lbrace ∉ P) /\ (rbrace ∉ Q).
Proof.
  intros Hpre Hpost HX. unfold strip_fences, strip_json_fence.
  rewrite verdict_text_shape.
  set (M := verdict_head b ++ E ++ [dquote]).
  assert (Hl : (lbrace ∉ fence_open) /\ lbrace <> newline /\ (rbrace ∉ fence_open)
               /\ rbrace <> newline).
  { change fence_open with [96; 96; 96; 106; 115; 111; 110].
    rewrite !not_elem_of_cons.
    repeat split; try discriminate; apply not_elem_of_nil. }
  destruct Hl as (Hl1 & Hl2 & Hr1 & Hr2).
  (* the opener *)
  assert (Hstrip :
    replace_all fence_open_match [] 0 (pre ++ (lbrace :: M ++ [rbrace]) ++ post)
    = replace_all fence_open_match [] 0 pre
      ++ (lbrace :: M ++ [rbrace]) ++ replace_all fence_open_match [] 0 post).
  { cbn [app]. rewrite (strip_app_stop lbrace _ pre 0 [] Hl1 Hl2) by lia. f_equal.
    rewrite replace_all_step by reflexivity. f_equal.
    rewrite <- !app_assoc. cbn [app].
    rewrite (strip_app_stop rbrace post M 0 _ Hr1 Hr2) by lia.
    rewrite strip_identity by (apply no_fence_in_verdict_body; exact HX).
    f_equal. rewrite replace_all_step by reflexivity. f_equal.
    apply replace_all_fence_before. }
  rewrite Hstrip.
  set (P0 := replace_all fence_open_match [] 0 pre).
  set (Q0 := replace_all fence_open_match [] 0 post).
  assert (HP0 : lbrace ∉ P0)
    by (intros H; apply Hpre, (elem_of_replace_all_fence _ _ _ _ H)).
  assert (HQ0 : rbrace ∉ Q0)
    by (intros H; apply Hpost, (elem_of_replace_all_fence _ _ _ _ H)).
  (* the end fence *)
  destruct (strip_end_fence_after rbrace (P0 ++ lbrace :: M) Q0) as (Q1 & HQ1 & Hsub);
    [discriminate|].
  replace (P0 ++ (lbrace :: M ++ [rbrace]) ++ Q0)
    with ((P0 ++ lbrace :: M) ++ rbrace :: Q0)
    by (cbn [app]; rewrite <- !app_assoc; reflexivity).
  rewrite HQ1.
  assert (HQ1' : rbrace ∉ Q1) by (intros H; apply HQ0, Hsub, H).
  (* the trimming *)
  replace ((P0 ++ lbrace :: M) ++ rbrace :: Q1)
    with (P0 ++ (lbrace :: M ++ [rbrace]) ++ Q1)
    by (cbn [app]; rewrite <- !app_assoc; reflexivity).
  rewrite trim_between.
  - exists (drop_while is_whitespace P0), (rev (drop_while is_whitespace (rev Q1))).
    split; [reflexivity|]. split.
    + intros H. apply HP0, (elem_of_drop_while _ _ _ H).
    + intros H. apply HQ1'. apply (proj1 (elem_of_rev _ _)) in H.
      apply elem_of_drop_while in H. apply (proj1 (elem_of_rev _ _)) in H. exact H.
  - intros R. cbn [app]. apply drop_while_app_stop. reflexivity.
  - intros R. cbn [rev]. rewrite rev_app_distr. cbn [rev app].
    rewrite <- !app_assoc. cbn [app].
    apply drop_while_app_stop. reflexivity.
Qed.

Lemma extract_json_around_verdict b E X pre post :
  (lbrace ∉ pre) -> (rbrace ∉ post) ->
  json_string_body E X ->
  includes fence_open E = false ->
  extract_json (pre ++ verdict_text b E ++ post) = Normal (verdict_text b E).
Proof.
  intros Hpre Hpost HX Hf. unfold extract_json.
  destruct (strip_fences_around_verdict b E pre post Hpre Hpost Hf)
    as (P & Q & -> & HP & HQ).
  assert (Hfirst : indexOf lbrace (P ++ verdict_text b E ++ Q)
                   = Z.of_nat (length P)).
  { unfold indexOf. rewrite verdict_text_shape. cbn [app].
    rewrite indexOf_from_app by exact HP. lia. }
  assert (Hlast : lastIndexOf rbrace (P ++ verdict_text b E ++ Q)
                  = (Z.of_nat (length P + length (verdict_text b E)) - 1)%Z).
  { unfold lastIndexOf. rewrite verdict_text_shape.
    set (M := verdict_head b ++ E ++ [dquote]).
    replace (P ++ (lbrace :: M ++ [rbrace]) ++ Q)
      with ((P ++ lbrace :: M) ++ rbrace :: Q)
      by (cbn [app]; rewrite <- !app_assoc; reflexivity).
    rewrite lastIndexOf_from_app by exact HQ.
    rewrite !length_app. cbn [length]. rewrite length_app. cbn [length]. lia. }
  rewrite Hfirst, Hlast.
  assert (Hlen : (0 < length (verdict_text b E))%nat)
    by (rewrite verdict_text_shape; cbn [length]; lia).
  destruct (Z.eqb_spec (Z.of_nat (length P)) (-1)) as [|_]; [lia|].
  destruct (Z.eqb_spec (Z.of_nat (length P + length (verdict_text b E)) - 1) (-1))
    as [|_]; [lia|].
  destruct (Z.ltb_spec (Z.of_nat (length P + length (verdict_text b E)) - 1)
              (Z.of_nat (length P))) as [|_]; [lia|].
  cbn [orb]. f_equal.
  replace (Z.of_nat (length P + length (verdict_text b E)) - 1 + 1)%Z
    with (Z.of_nat (length P + length (verdict_text b E))) by lia.
  rewrite substring_middle. unfold flatten_and_fix.
  rewrite (flatten_identity_on_verdict b E X HX).
  apply (repair_identity_on_verdict b E X HX).
Qed.

(** C5, as the code has it.  The reply the prompt asks for, whose reason is
    a well-formed JSON string with value [X] that does not contain the fence
    opener, gives back the verdict with the reason [X], whatever text is
    around it (fences, prose) as long as no opening brace comes before the
    reply and no closing brace after it. *)
Theorem verdict_round_trip (msg : jsstring -> jsstring) (b : bool)
    (E X pre post : jsstring) :
  (lbrace ∉ pre) -> (rbrace ∉ post) ->
  json_string_body E X ->
  includes fence_open E = false ->
  interpretAIJsonResponse (JSON_parse msg) (pre ++ verdict_text b E ++ post)
  = Normal {| passed := b; reason := X |}.
Proof.
  intros Hpre Hpost HX Hf.
  unfold interpretAIJsonResponse, interpret_try.
  rewrite (extract_json_around_verdict b E X pre post Hpre Hpost HX Hf).
  unfold bind at 1. unfold JSON_parse.
  rewrite (parse_verdict_text b E X HX). unfold bind at 1.
  rewrite (validate_well_shaped _ _ b X); reflexivity.
Qed.

(** * Paths of the two artifacts *)

Lemma split_nonempty s : Path.split s <> [].
Proof.
  destruct s as [|c r]; [discriminate|]. cbn [Path.split].
  destruct (c =? slash); [discriminate|].
  destruct (Path.split r); discriminate.
Qed.

Lemma split_app_slash a b :
  Path.split (a ++ slash :: b) = Path.split a ++ Path.split b.
Proof.
  induction a as [|c a IH].
  - cbn. reflexivity.
  - cbn [app Path.split]. rewrite IH.
    destruct (c =? slash); [reflexivity|].
    destruct (Path.split a) as [|seg segs] eqn:Ha; [|reflexivity].
    destruct (split_nonempty a Ha).
Qed.

Lemma split_flat s : (slash ∉ s) -> Path.split s = [s].
Proof.
  induction s as [|c s IH]; intros H; [reflexivity|].
  apply not_elem_of_cons in H as [Hc Hs]. cbn [Path.split].
  destruct (N.eqb_spec c slash) as [->|_]; [contradiction|].
  rewrite (IH Hs). reflexivity.
Qed.

Lemma split_segments_flat s : Forall (fun seg => slash ∉ seg) (Path.split s).
Proof.
  induction s as [|c s IH].
  - repeat constructor. apply not_elem_of_nil.
  - cbn [Path.split]. destruct (N.eqb_spec c slash) as [->|Hc].
    + constructor; [apply not_elem_of_nil | exact IH].
    + destruct (Path.split s) as [|seg segs].
      * repeat constructor. rewrite not_elem_of_cons. split; [auto|apply not_elem_of_nil].
      * inversion IH; subst. constructor; [|assumption].
        rewrite not_elem_of_cons. auto.
Qed.

Lemma split_join L :
  L <> [] -> Forall (fun seg => slash ∉ seg) L ->
  Path.split (Path.join_segments L) = L.
Proof.
  induction L as [|x L IH]; intros Hne HL; [contradiction|].
  inversion HL as [|? ? Hx HL']; subst.
  destruct L as [|y L].
  - cbn. apply split_flat, Hx.
  - change (Path.join_segments (x :: y :: L))
      with (x ++ slash :: Path.join_segments (y :: L)).
    rewrite split_app_slash, (split_flat x Hx), IH by (discriminate || assumption).
    reflexivity.
Qed.

Lemma join_segments_app S l :
  S <> [] -> l <> [] ->
  Path.join_segments (S ++ l) = Path.join_segments S ++ slash :: Path.join_segments l.
Proof.
  induction S as [|x S IH]; intros HS Hl; [contradiction|].
  destruct S as [|y S].
  - cbn [app]. destruct l; [contradiction | reflexivity].
  - change (Path.join_segments ((x :: y :: S) ++ l))
      with (x ++ slash :: Path.join_segments ((y :: S) ++ l)).
    rewrite IH by (discriminate || assumption).
    change (Path.join_segments (x :: y :: S))
      with (x ++ slash :: Path.join_segments (y :: S)).
    rewrite <- app_assoc. reflexivity.
Qed.

Lemma step_kept stack seg :
  kept_segment seg -> Path.step stack seg = seg :: stack.
Proof.
  intros (H1 & H2 & H3 & _). unfold Path.step, Path.is_empty, Path.is_dot, Path.is_dotdot.
  rewrite !bool_decide_eq_false_2 by assumption. reflexivity.
Qed.

Lemma fold_step_kept L : forall stack,
  Forall kept_segment L -> fold_left Path.step L stack = rev L ++ stack.
Proof.
  induction L as [|x L IH]; intros stack HL; [reflexivity|].
  inversion HL; subst. cbn [fold_left rev].
  rewrite step_kept by assumption. rewrite IH by assumption.
  rewrite <- app_assoc. reflexivity.
Qed.

Lemma fold_step_invariant L : forall stack,
  Forall (fun seg => slash ∉ seg) L ->
  Forall kept_segment stack ->
  Forall kept_segment (fold_left Path.step L stack).
Proof.
  induction L as [|x L IH]; intros stack HL Hst; [exact Hst|].
  inversion HL as [|? ? Hx HL']; subst. cbn [fold_left]. apply IH; [assumption|].
  unfold Path.step, Path.is_empty, Path.is_dot, Path.is_dotdot.
  destruct (decide (x = [])) as [->|E1].
  { rewrite bool_decide_eq_true_2 by reflexivity. exact Hst. }
  rewrite (bool_decide_eq_false_2 (x = [])) by exact E1.
  destruct (decide (x = [46])) as [->|E2].
  { rewrite bool_decide_eq_true_2 by reflexivity. exact Hst. }
  rewrite (bool_decide_eq_false_2 (x = [46])) by exact E2.
  destruct (decide (x = [46; 46])) as [->|E3].
  { rewrite bool_decide_eq_true_2 by reflexivity. cbn.
    destruct stack; [constructor | inversion Hst; assumption]. }
  rewrite (bool_decide_eq_false_2 (x = [46; 46])) by exact E3.
  cbn. constructor; [|exact Hst]. repeat split; assumption.
Qed.

Lemma normalize_segments_kept s :
  Forall kept_segment (Path.normalize_segments (Path.split s)).
Proof.
  unfold Path.normalize_segments. apply Forall_rev.
  apply fold_step_invariant; [apply split_segments_flat | constructor].
Qed.

Lemma kept_segment_flat L :
  Forall kept_segment L -> Forall (fun seg => slash ∉ seg) L.
Proof.
  intros H. eapply Forall_impl; [exact H|]. intros seg (_ & _ & _ & Hs). exact Hs.
Qed.

(** A folder made of kept segments, then a kept file name. *)
Lemma join_kept L file :
  L <> [] -> Forall kept_segment L -> kept_segment file ->
  Path.join (slash :: Path.join_segments L) file
  = slash :: Path.join_segments (L ++ [file]).
Proof.
  intros Hne HL Hf. unfold Path.join, Path.normalize_absolute. f_equal. f_equal.
  cbn [app Path.split]. rewrite N.eqb_refl.
  rewrite split_app_slash, split_join by (try assumption; apply kept_segment_flat, HL).
  destruct Hf as (F1 & F2 & F3 & F4).
  rewrite (split_flat file F4).
  unfold Path.normalize_segments. cbn [fold_left].
  change (Path.step [] []) with (@nil jsstring).
  rewrite fold_step_kept.
  - rewrite app_nil_r, rev_involutive. reflexivity.
  - apply Forall_app. split; [exact HL|]. repeat constructor; assumption.
Qed.

Lemma resolve_under_cwd cwd a b :
  kept_segment a -> kept_segment b ->
  Path.resolve cwd (a ++ slash :: b)
  = slash :: Path.join_segments
               (Path.normalize_segments (Path.split cwd) ++ [a; b]).
Proof.
  intros Ha Hb. unfold Path.resolve, Path.normalize_absolute. f_equal. f_equal.
  rewrite split_app_slash. rewrite <- app_assoc. cbn [app].
  rewrite split_app_slash, split_app_slash.
  destruct Ha as (A1 & A2 & A3 & A4). destruct Hb as (B1 & B2 & B3 & B4).
  rewrite (split_flat a A4), (split_flat b B4). cbn [Path.split app].
  unfold Path.normalize_segments. rewrite fold_left_app. cbn [fold_left].
  rewrite (step_kept _ a) by (repeat split; assumption).
  rewrite (step_kept _ b) by (repeat split; assumption).
  change (Path.step ?st []) with st.
  cbn [rev]. rewrite <- !app_assoc. reflexivity.
Qed.

Lemma file_name_kept name : (slash ∉ name) -> kept_segment (name ++ u ".png").
Proof.
  intros H.
  assert (Hlen : (4 <= length (name ++ u ".png"))%nat)
    by (rewrite length_app; change (length (u ".png")) with 4%nat; lia).
  repeat split; try (intros Heq; rewrite Heq in Hlen; cbn in Hlen; lia).
  rewrite not_elem_of_app. split; [exact H|].
  change (u ".png") with [46; 112; 110; 103].
  rewrite !not_elem_of_cons. repeat split; try discriminate. apply not_elem_of_nil.
Qed.

(** For a logical name without a path separator the baseline and the actual
    capture are two different files, whatever the working directory. *)
Lemma flat_name_paths_differ (env : Env) (name : jsstring) :
  (slash ∉ name) -> baseline_path_of env name <> actual_path_of env name.
Proof.
  intros Hname. unfold baseline_path_of, actual_path_of, baselineFolder, actualFolder.
  assert (K1 : kept_segment (u "tests")).
  { repeat split; try discriminate. change (u "tests") with [116; 101; 115; 116; 115].
    rewrite !not_elem_of_cons. repeat split; try discriminate. apply not_elem_of_nil. }
  assert (K2 : kept_segment (u "visual-baselines")).
  { repeat split; try discriminate. apply (bool_decide_unpack _). vm_compute. exact I. }
  assert (K3 : kept_segment (u "test-results")).
  { repeat split; try discriminate. apply (bool_decide_unpack _). vm_compute. exact I. }
  assert (K4 : kept_segment (u "visual-actuals")).
  { repeat split; try discriminate. apply (bool_decide_unpack _). vm_compute. exact I. }
  change (u "tests/visual-baselines") with (u "tests" ++ slash :: u "visual-baselines").
  change (u "test-results/visual-actuals")
    with (u "test-results" ++ slash :: u "visual-actuals").
  rewrite !resolve_under_cwd by assumption.
  set (S := Path.normalize_segments (Path.split (cwd env))).
  assert (HS : Forall kept_segment S) by apply normalize_segments_kept.
  pose proof (file_name_kept name Hname) as Hfile.
  assert (HB : Forall kept_segment (S ++ [u "tests"; u "visual-baselines"])).
  { apply Forall_app. split; [exact HS|].
    constructor; [exact K1|]. constructor; [exact K2|]. constructor. }
  assert (HA : Forall kept_segment (S ++ [u "test-results"; u "visual-actuals"])).
  { apply Forall_app. split; [exact HS|].
    constructor; [exact K3|]. constructor; [exact K4|]. constructor. }
  rewrite !join_kept;
    try assumption;
    try (intros Heq; apply app_eq_nil in Heq as [_ Heq]; discriminate).
  rewrite <- !app_assoc. cbn [app].
  intros Heq. injection Heq as Heq.
  destruct S as [|x S].
  - cbn in Heq. discriminate.
  - rewrite !join_segments_app in Heq by discriminate.
    apply app_inv_head in Heq. cbn in Heq. discriminate.
Qed.

(** * Every outcome of an invocation *)

Section OrchestratorOutcomes.

Variable parse : jsstring -> completion json.
Variable env : Env.
Variable page : Page.

Lemma capture_in_after_copy name options img w :
  files (after_copy env name options img w) !! actual_path_of env name = Some img.
Proof.
  unfold after_copy. cbn [files set_file record_event].
  rewrite files_after_capture.
  destruct (decide (baseline_path_of env name = actual_path_of env name)) as [->|Hne].
  - apply lookup_insert_eq.
  - rewrite lookup_insert_ne by exact Hne. apply lookup_insert_eq.
Qed.

Lemma capture_in_after_request name options base img w :
  files (after_request env name options base img w) !! actual_path_of env name
  = Some img.
Proof.
  unfold after_request. cbn [files set_file record_event].
  rewrite files_after_capture. apply lookup_insert_eq.
Qed.

Lemma capture_in_after_capture name options img w e :
  files (record_event e (after_capture env name options img w))
  !! actual_path_of env name = Some img.
Proof.
  cbn [files record_event]. rewrite files_after_capture. apply lookup_insert_eq.
Qed.

Lemma capture_kept name options w w' r img :
  expectPageToMatchVisuallyAI parse env page name options w = (w', r) ->
  mkdir_passes env (baselineFolder env) ->
  mkdir_passes env (actualFolder env) ->
  screenshot_result page (mask_argument options) = Normal img ->
  files w' !! actual_path_of env name = Some img.
Proof.
  intros Hrun Hb' Ha' Hs'.
  destruct (orchestrator_cases parse env page name options w)
    as [(e & He & Hc & H)|[(e & Hb & He & Hc & H)|[(e & Hb & Ha & Hs & H)
       |[(img' & Hb & Ha & Hs & _ & H)|[(img' & e & Hb & Ha & Hs & _ & _ & H)
       |[(img' & base & Hb & Ha & Hs & Hbase & H)|(img' & Hb & Ha & Hs & _ & H)]]]]]];
    rewrite H in Hrun; injection Hrun as <- <-.
  - exfalso. unfold mkdir_passes in Hb'. rewrite He in Hb'. exact (Hc Hb').
  - exfalso. unfold mkdir_passes in Ha'. rewrite He in Ha'. exact (Hc Ha').
  - rewrite Hs in Hs'. discriminate.
  - rewrite Hs in Hs'. injection Hs' as <-. apply capture_in_after_copy.
  - rewrite Hs in Hs'. injection Hs' as <-. apply capture_in_after_capture.
  - rewrite Hs in Hs'. injection Hs' as <-. apply capture_in_after_request.
  - rewrite Hs in Hs'. injection Hs' as <-. apply capture_in_after_capture.
Qed.

(** X1.  Whatever an invocation does after a successful capture (return a
    verdict or throw), the capture file holds the screenshot just taken; and
    whenever a verdict is returned, it carries the two paths of the name, the
    capture file holds the screenshot and the baseline file exists. *)
Theorem artifacts_after_invocation (name : jsstring) (options : Options)
    (w w' : World) (r : completion VisualAIResult) :
  expectPageToMatchVisuallyAI parse env page name options w = (w', r) ->
  (forall img,
     mkdir_passes env (baselineFolder env) ->
     mkdir_passes env (actualFolder env) ->
     screenshot_result page (mask_argument options) = Normal img ->
     files w' !! actual_path_of env name = Some img)
  /\ (forall v,
        r = Normal v ->
        baselinePath v = baseline_path_of env name
        /\ actualPath v = actual_path_of env name
        /\ is_Some (files w' !! baseline_path_of env name)
        /\ exists img,
             screenshot_result page (mask_argument options) = Normal img
             /\ files w' !! actual_path_of env name = Some img).
Proof.
  intros Hrun. split; [intros img; apply (capture_kept _ _ _ _ _ _ Hrun)|].
  destruct (orchestrator_cases parse env page name options w)
    as [(e & He & Hc & H)|[(e & Hb & He & Hc & H)|[(e & Hb & Ha & Hs & H)
       |[(img & Hb & Ha & Hs & _ & H)|[(img & e & Hb & Ha & Hs & _ & _ & H)
       |[(img & base & Hb & Ha & Hs & Hbase & H)|(img & Hb & Ha & Hs & _ & H)]]]]]];
    rewrite H in Hrun; injection Hrun as <- <-; intros v Hv; try discriminate.
  - injection Hv as <-. cbn [baselinePath actualPath result_of].
    split; [reflexivity|]. split; [reflexivity|]. split.
    + exists img. unfold after_copy. cbn [files set_file]. apply lookup_insert_eq.
    + exists img. split; [exact Hs | apply capture_in_after_copy].
  - assert (Hpaths : baselinePath v = baseline_path_of env name
                     /\ actualPath v = actual_path_of env name).
    { destruct (negb (success (gateway_answer env base img))).
      - injection Hv as <-. split; reflexivity.
      - destruct (interpret_response_text parse (text (gateway_answer env base img)));
          [injection Hv as <-; split; reflexivity | discriminate]. }
    destruct Hpaths as [Hp1 Hp2].
    split; [exact Hp1|]. split; [exact Hp2|]. split.
    + exists base. unfold after_request. cbn [files set_file record_event].
      rewrite files_after_capture. exact Hbase.
    + exists img. split; [exact Hs | apply capture_in_after_request].
Qed.

(** X2.  A failure before the comparison is not swallowed.  When a folder
    cannot be made (for another reason than its being there), or when the
    screenshot fails, the invocation throws that very error; no file is
    written, so no baseline is made, and nothing is read, copied or sent. *)
Theorem failed_capture_propagates (name : jsstring) (options : Options) (w : World) :
  (forall e,
     mkdir env (baselineFolder env) = Some e -> code e <> u "EEXIST" ->
     expectPageToMatchVisuallyAI parse env page name options w
     = ({| files := files w; folders := folders w;
           trace := trace w ++ [EvMkdir (baselineFolder env)] |},
        Throw (ErrorObj (sys_message e))))
  /\ (forall e,
        mkdir_passes env (baselineFolder env) ->
        mkdir env (actualFolder env) = Some e -> code e <> u "EEXIST" ->
        expectPageToMatchVisuallyAI parse env page name options w
        = ({| files := files w;
              folders := folders (ensured env (baselineFolder env) w);
              trace := trace w ++ [EvMkdir (baselineFolder env);
                                   EvMkdir (actualFolder env)] |},
           Throw (ErrorObj (sys_message e))))
  /\ (forall e,
        mkdir_passes env (baselineFolder env) ->
        mkdir_passes env (actualFolder env) ->
        screenshot_result page (mask_argument options) = Throw e ->
        expectPageToMatchVisuallyAI parse env page name options w
        = ({| files := files w;
              folders := folders (ensured env (actualFolder env)
                                    (ensured env (baselineFolder env) w));
              trace := trace w ++ [EvMkdir (baselineFolder env);
                                   EvMkdir (actualFolder env);
                                   EvScreenshot (actual_path_of env name)
                                     (mask_argument options)] |},
           Throw e)).
Proof.
  split; [|split].
  - intros e He Hc.
    destruct (ensureDir_cases env (baselineFolder env) w)
      as [[Hb _]|(e' & He' & _ & H1)].
    { exfalso. unfold mkdir_passes in Hb. rewrite He in Hb. exact (Hc Hb). }
    rewrite He in He'. injection He' as <-.
    unfold expectPageToMatchVisuallyAI. unfold bindM at 1. rewrite H1. reflexivity.
  - intros e Hb He Hc.
    destruct (ensureDir_cases env (actualFolder env) (ensured env (baselineFolder env) w))
      as [[Ha _]|(e' & He' & _ & H2)].
    { exfalso. unfold mkdir_passes in Ha. rewrite He in Ha. exact (Hc Ha). }
    rewrite He in He'. injection He' as <-.
    unfold expectPageToMatchVisuallyAI.
    rewrite (bindM_normal _ _ _ _ _ (ensureDir_passes env _ _ Hb)).
    unfold bindM at 1. rewrite H2.
    unfold record_event. cbn [files folders trace].
    rewrite files_ensured, trace_ensured, <- app_assoc. reflexivity.
  - intros e Hb Ha Hs.
    unfold expectPageToMatchVisuallyAI.
    rewrite (bindM_normal _ _ _ _ _ (ensureDir_passes env _ _ Hb)).
    rewrite (bindM_normal _ _ _ _ _ (ensureDir_passes env _ _ Ha)).
    unfold bindM at 1. rewrite (page_screenshot_throws page _ _ e _ Hs).
    unfold record_event. cbn [files folders trace].
    rewrite !files_ensured, !trace_ensured, <- !app_assoc. reflexivity.
Qed.

Lemma gateway_answer_text d t base img :
  http_post env (generate_url (llmService (config env)))
    (comparison_payload (config env) base img) = HttpResponse (Some d) ->
  get_prop d (u "response") = Normal t ->
  gateway_answer env base img = {| text := t; success := true; error := None |}.
Proof.
  intros Hp Ht. unfold gateway_answer. rewrite Hp.
  unfold llm_response_of, response_text. rewrite Ht. reflexivity.
Qed.

(** X3.  From the gateway to the verdict.  When the comparison is reached
    and the backend answers with an object whose [response] is a string, the
    invocation returns the verdict the interpreter gives for that string,
    with the two paths, after one request. *)
Theorem string_reply_is_interpreted (name : jsstring) (options : Options)
    (w : World) (img base : list Byte.byte) (d : json) (s : jsstring) :
  mkdir_passes env (baselineFolder env) ->
  mkdir_passes env (actualFolder env) ->
  screenshot_result page (mask_argument options) = Normal img ->
  updateBaselines options <> Some true ->
  <[actual_path_of env name := img]> (files w) !! baseline_path_of env name
  = Some base ->
  http_post env (generate_url (llmService (config env)))
    (comparison_payload (config env) base img) = HttpResponse (Some d) ->
  field d (u "response") = Some (JString s) ->
  exists v,
    interpretAIJsonResponse parse s = Normal v
    /\ expectPageToMatchVisuallyAI parse env page name options w
       = (after_request env name options base img w,
          Normal {| verdict := v;
                    baselinePath := baseline_path_of env name;
                    actualPath := actual_path_of env name |}).
Proof.
  intros Hb Ha Hs Hu Hbase Hpost Hfield.
  assert (Hv : exists v, interpretAIJsonResponse parse s = Normal v).
  { unfold interpretAIJsonResponse, try_catch.
    destruct (interpret_try parse s) as [v|e]; eexists; reflexivity. }
  destruct Hv as [v Hv]. exists v. split; [exact Hv|].
  rewrite (comparison_run parse env page name options img base w Hb Ha Hs Hu Hbase).
  rewrite (gateway_answer_text d (Some (JString s)) base img Hpost).
  2:{ destruct d; try discriminate. cbn [field] in Hfield. cbn [get_prop].
      rewrite Hfield. reflexivity. }
  cbn [success negb text interpret_response_text]. rewrite Hv. reflexivity.
Qed.

(** X4.  When the comparison is reached and the backend answers with a body
    that is not [null] and has no string under [response], the gateway
    reports a success without a text, and the invocation throws: no verdict
    is returned. *)
Theorem reply_without_text_throws (name : jsstring) (options : Options)
    (w : World) (img base : list Byte.byte) (d : json) :
  mkdir_passes env (baselineFolder env) ->
  mkdir_passes env (actualFolder env) ->
  screenshot_result page (mask_argument options) = Normal img ->
  updateBaselines options <> Some true ->
  <[actual_path_of env name := img]> (files w) !! baseline_path_of env name
  = Some base ->
  http_post env (generate_url (llmService (config env)))
    (comparison_payload (config env) base img) = HttpResponse (Some d) ->
  d <> JNull ->
  (forall s, field d (u "response") <> Some (JString s)) ->
  success (gateway_answer env base img) = true
  /\ exists e,
       expectPageToMatchVisuallyAI parse env page name options w
       = (after_request env name options base img w, Throw e).
Proof.
  intros Hb Ha Hs Hu Hbase Hpost Hd Hfield.
  assert (Ht : get_prop d (u "response") = Normal (field d (u "response"))).
  { destruct d; try reflexivity. contradiction. }
  rewrite (comparison_run parse env page name options img base w Hb Ha Hs Hu Hbase).
  rewrite (gateway_answer_text d _ base img Hpost Ht).
  cbn [success negb text]. split; [reflexivity|].
  unfold interpret_response_text.
  destruct (field d (u "response")) as [[| | |s| |]|] eqn:Hf;
    try (eexists; reflexivity).
  destruct (Hfield s eq_refl).
Qed.

End OrchestratorOutcomes.

(** * Where the two artifacts are *)

Lemma kept_tests : kept_segment (u "tests").
Proof.
  repeat split; try discriminate. apply (bool_decide_unpack _). vm_compute. exact I.
Qed.

Lemma kept_visual_baselines : kept_segment (u "visual-baselines").
Proof.
  repeat split; try discriminate. apply (bool_decide_unpack _). vm_compute. exact I.
Qed.

Lemma kept_test_results : kept_segment (u "test-results").
Proof.
  repeat split; try discriminate. apply (bool_decide_unpack _). vm_compute. exact I.
Qed.

Lemma kept_visual_actuals : kept_segment (u "visual-actuals").
Proof.
  repeat split; try discriminate. apply (bool_decide_unpack _). vm_compute. exact I.
Qed.

Lemma cwd_segments_kept env : Forall kept_segment (cwd_segments env).
Proof. apply normalize_segments_kept. Qed.

Lemma baselineFolder_segments env :
  baselineFolder env
  = slash :: Path.join_segments (cwd_segments env ++ [u "tests"; u "visual-baselines"]).
Proof.
  unfold baselineFolder.
  change (u "tests/visual-baselines") with (u "tests" ++ slash :: u "visual-baselines").
  apply resolve_under_cwd; [apply kept_tests | apply kept_visual_baselines].
Qed.

Lemma actualFolder_segments env :
  actualFolder env
  = slash :: Path.join_segments
               (cwd_segments env ++ [u "test-results"; u "visual-actuals"]).
Proof.
  unfold actualFolder.
  change (u "test-results/visual-actuals")
    with (u "test-results" ++ slash :: u "visual-actuals").
  apply resolve_under_cwd; [apply kept_test_results | apply kept_visual_actuals].
Qed.

Lemma kept_under_cwd env a b :
  kept_segment a -> kept_segment b -> Forall kept_segment (cwd_segments env ++ [a; b]).
Proof.
  intros Ha Hb. apply Forall_app. split; [apply cwd_segments_kept|].
  constructor; [exact Ha|]. constructor; [exact Hb|]. constructor.
Qed.

Lemma baseline_path_flat env name :
  (slash ∉ name) ->
  baseline_path_of env name
  = slash :: Path.join_segments
               (cwd_segments env ++ [u "tests"; u "visual-baselines"; name ++ u ".png"]).
Proof.
  intros Hname. unfold baseline_path_of. rewrite baselineFolder_segments.
  rewrite join_kept.
  - rewrite <- app_assoc. reflexivity.
  - intros Heq. apply app_eq_nil in Heq as [_ Heq]. discriminate.
  - apply kept_under_cwd; [apply kept_tests | apply kept_visual_baselines].
  - apply file_name_kept, Hname.
Qed.

Lemma actual_path_flat env name :
  (slash ∉ name) ->
  actual_path_of env name
  = slash :: Path.join_segments
               (cwd_segments env
                ++ [u "test-results"; u "visual-actuals"; name ++ u ".png"]).
Proof.
  intros Hname. unfold actual_path_of. rewrite actualFolder_segments.
  rewrite join_kept.
  - rewrite <- app_assoc. reflexivity.
  - intros Heq. apply app_eq_nil in Heq as [_ Heq]. discriminate.
  - apply kept_under_cwd; [apply kept_test_results | apply kept_visual_actuals].
  - apply file_name_kept, Hname.
Qed.

(** The file name is what follows the folder. *)
Lemma join_segments_file S a b f :
  Path.join_segments (S ++ [a; b; f])
  = Path.join_segments (S ++ [a; b]) ++ slash :: f.
Proof.
  replace (S ++ [a; b; f]) with ((S ++ [a; b]) ++ [f])
    by (rewrite <- app_assoc; reflexivity).
  apply join_segments_app; [|discriminate].
  intros Heq. apply app_eq_nil in Heq as [_ Heq]. discriminate.
Qed.


Lemma fold_step_climb L c d f :
  Forall kept_segment L -> kept_segment c -> kept_segment d -> kept_segment f ->
  forall a b,
    kept_segment a -> kept_segment b ->
    Path.normalize_segments ([] :: (L ++ [a; b]) ++ [[46; 46]; [46; 46]; c; d; f])
    = L ++ [c; d; f].
Proof.
  intros HL Hc Hd Hf a b Ha Hb. unfold Path.normalize_segments.
  cbn [fold_left]. change (Path.step [] []) with (@nil jsstring).
  rewrite fold_left_app. rewrite (fold_step_kept (L ++ [a; b])).
  2:{ apply Forall_app. split; [exact HL|].
      constructor; [exact Ha|]. constructor; [exact Hb|]. constructor. }
  rewrite app_nil_r, rev_app_distr. cbn [rev app fold_left].
  change (Path.step (b :: a :: rev L) [46; 46]) with (a :: rev L).
  change (Path.step (a :: rev L) [46; 46]) with (rev L).
  rewrite !step_kept by assumption.
  cbn [rev]. rewrite rev_involutive, <- !app_assoc. reflexivity.
Qed.

Lemma climbing_actual_path env n :
  (slash ∉ n) -> actual_path_of env (climbing_name n) = baseline_path_of env n.
Proof.
  intros Hn. rewrite (baseline_path_flat env n Hn).
  unfold actual_path_of. rewrite actualFolder_segments.
  unfold Path.join, Path.normalize_absolute. f_equal. f_equal.
  pose proof (file_name_kept n Hn) as Hf.
  assert (Hfile : climbing_name n ++ u ".png"
                  = Path.join_segments
                      [[46; 46]; [46; 46]; u "tests"; u "visual-baselines"; n ++ u ".png"]).
  { unfold climbing_name. rewrite <- app_assoc. reflexivity. }
  rewrite Hfile.
  cbn [app Path.split]. rewrite N.eqb_refl.
  rewrite split_app_slash.
  rewrite !split_join.
  - apply (fold_step_climb (cwd_segments env));
      first [ apply cwd_segments_kept | apply kept_tests | apply kept_visual_baselines
            | apply kept_test_results | apply kept_visual_actuals | exact Hf ].
  - discriminate.
  - repeat constructor;
      try (rewrite !not_elem_of_cons; repeat split; try discriminate;
           apply not_elem_of_nil);
      first [ apply kept_tests | apply kept_visual_baselines | apply Hf ].
  - intros Heq. apply app_eq_nil in Heq as [_ Heq]. discriminate.
  - apply kept_segment_flat, kept_under_cwd;
      [apply kept_test_results | apply kept_visual_actuals].
Qed.

(** X6.  A logical name is not confined to its folder.  For the name
    [../../tests/visual-baselines/N] the capture file is the baseline file
    of [N]: whatever the options and whatever that baseline held, an
    invocation whose capture succeeds leaves the screenshot in it. *)
Theorem climbing_name_overwrites_baseline (parse : jsstring -> completion json)
    (env : Env) (page : Page) (n : jsstring) (options : Options)
    (w : World) (img : list Byte.byte) :
  (slash ∉ n) ->
  mkdir_passes env (baselineFolder env) ->
  mkdir_passes env (actualFolder env) ->
  screenshot_result page (mask_argument options) = Normal img ->
  actual_path_of env (climbing_name n) = baseline_path_of env n
  /\ forall w' r,
       expectPageToMatchVisuallyAI parse env page (climbing_name n) options w = (w', r) ->
       files w' !! baseline_path_of env n = Some img.
Proof.
  intros Hn Hb Ha Hs. split; [apply climbing_actual_path, Hn|].
  intros w' r Hrun. rewrite <- (climbing_actual_path env n Hn).
  exact (capture_kept parse env page _ _ _ _ _ _ Hrun Hb Ha Hs).
Qed.

(** * The baseline branch *)

Lemma normalize_of_kept L :
  Forall kept_segment L ->
  Path.normalize_segments (Path.split (slash :: Path.join_segments L)) = L.
Proof.
  intros HL. cbn [Path.split]. rewrite N.eqb_refl.
  unfold Path.normalize_segments. cbn [fold_left].
  change (Path.step [] []) with (@nil jsstring).
  destruct L as [|x L]; [reflexivity|].
  rewrite split_join by (try discriminate; apply kept_segment_flat, HL).
  rewrite fold_step_kept by exact HL.
  rewrite app_nil_r. apply rev_involutive.
Qed.

Lemma prefixes_self L : L ∈ Path.prefixes L.
Proof.
  induction L as [|x L IH]; [left|].
  cbn [Path.prefixes]. right. apply list_elem_of_fmap. exists L. auto.
Qed.

Lemma prefixes_spec L P : P ∈ Path.prefixes L -> exists R, L = P ++ R.
Proof.
  revert P. induction L as [|x L IH]; intros P H.
  - apply list_elem_of_singleton in H. subst P. exists []. reflexivity.
  - cbn [Path.prefixes] in H. apply elem_of_cons in H as [-> | H].
    + eexists. reflexivity.
    + apply list_elem_of_fmap in H as (Q & -> & HQ).
      destruct (IH Q HQ) as [R ->]. exists R. reflexivity.
Qed.

Lemma join_segments_nonempty x L : x <> [] -> Path.join_segments (x :: L) <> [].
Proof.
  intros Hx. destruct L as [|y L]; [exact Hx|].
  change (Path.join_segments (x :: y :: L))
    with (x ++ slash :: Path.join_segments (y :: L)).
  destruct x; [contradiction | discriminate].
Qed.

Lemma join_segments_injective P Q :
  Forall kept_segment P -> Forall kept_segment Q ->
  Path.join_segments P = Path.join_segments Q -> P = Q.
Proof.
  intros HP HQ Heq.
  destruct P as [|x P], Q as [|y Q]; [reflexivity | | |].
  - exfalso. inversion HQ as [|? ? (Hy & _) _]; subst.
    apply (join_segments_nonempty y Q Hy). symmetry. exact Heq.
  - exfalso. inversion HP as [|? ? (Hx & _) _]; subst.
    apply (join_segments_nonempty x P Hx). exact Heq.
  - rewrite <- (split_join (x :: P)), <- (split_join (y :: Q))
      by (try discriminate; apply kept_segment_flat; assumption).
    rewrite Heq. reflexivity.
Qed.

(** The folders on the way to a folder made of kept segments. *)
Lemma folders_to_kept D x :
  Forall kept_segment D ->
  x ∈ Path.folders_to (slash :: Path.join_segments D) ->
  exists P R, D = P ++ R /\ x = slash :: Path.join_segments P.
Proof.
  intros HD Hx. unfold Path.folders_to in Hx. rewrite (normalize_of_kept D HD) in Hx.
  apply list_elem_of_fmap in Hx as (P & -> & HP).
  destruct (prefixes_spec D P HP) as [R ->]. exists P, R. auto.
Qed.

Lemma folder_in_folders_to D :
  Forall kept_segment D ->
  slash :: Path.join_segments D ∈ Path.folders_to (slash :: Path.join_segments D).
Proof.
  intros HD. unfold Path.folders_to. rewrite (normalize_of_kept D HD).
  apply list_elem_of_fmap. exists D. split; [reflexivity | apply prefixes_self].
Qed.

(** A path one segment longer than [D] is not on the way to a folder with
    as many segments as [D]. *)
Lemma longer_path_not_on_the_way D D' f :
  Forall kept_segment D -> Forall kept_segment D' -> kept_segment f ->
  length D' = length D ->
  slash :: Path.join_segments (D ++ [f])
  ∉ Path.folders_to (slash :: Path.join_segments D').
Proof.
  intros HD HD' Hf Hlen Hin.
  destruct (folders_to_kept D' _ HD' Hin) as (P & R & HPR & Heq).
  injection Heq as Heq.
  assert (HP : Forall kept_segment P).
  { rewrite HPR in HD'. apply Forall_app in HD' as [HP _]. exact HP. }
  apply join_segments_injective in Heq;
    [|apply Forall_app; split; [exact HD | repeat constructor; apply Hf] | exact HP].
  apply (f_equal (@length jsstring)) in HPR.
  rewrite <- Heq in HPR. rewrite !length_app in HPR. cbn [length] in HPR. lia.
Qed.

Lemma dirname_of_file D f :
  Forall kept_segment D -> kept_segment f ->
  Path.dirname (slash :: Path.join_segments (D ++ [f])) = slash :: Path.join_segments D.
Proof.
  intros HD Hf. unfold Path.dirname.
  rewrite normalize_of_kept
    by (apply Forall_app; split; [exact HD | repeat constructor; apply Hf]).
  rewrite removelast_last. reflexivity.
Qed.

Lemma baseline_path_in_folder env name :
  (slash ∉ name) ->
  baseline_path_of env name
  = slash :: Path.join_segments
               ((cwd_segments env ++ [u "tests"; u "visual-baselines"])
                ++ [name ++ u ".png"]).
Proof.
  intros Hname. rewrite (baseline_path_flat env name Hname), <- app_assoc. reflexivity.
Qed.

Lemma actual_path_in_folder env name :
  (slash ∉ name) ->
  actual_path_of env name
  = slash :: Path.join_segments
               ((cwd_segments env ++ [u "test-results"; u "visual-actuals"])
                ++ [name ++ u ".png"]).
Proof.
  intros Hname. rewrite (actual_path_flat env name Hname), <- app_assoc. reflexivity.
Qed.

(** For a name without a path separator the two files lie directly in the
    two folders. *)
Lemma dirname_baseline_path env name :
  (slash ∉ name) -> Path.dirname (baseline_path_of env name) = baselineFolder env.
Proof.
  intros Hname. rewrite (baseline_path_in_folder env name Hname).
  rewrite baselineFolder_segments. apply dirname_of_file.
  - apply kept_under_cwd; [apply kept_tests | apply kept_visual_baselines].
  - apply file_name_kept, Hname.
Qed.

Lemma dirname_actual_path env name :
  (slash ∉ name) -> Path.dirname (actual_path_of env name) = actualFolder env.
Proof.
  intros Hname. rewrite (actual_path_in_folder env name Hname).
  rewrite actualFolder_segments. apply dirname_of_file.
  - apply kept_under_cwd; [apply kept_test_results | apply kept_visual_actuals].
  - apply file_name_kept, Hname.
Qed.

Lemma baseline_path_not_made env name x :
  (slash ∉ name) ->
  x ∈ Path.folders_to (baselineFolder env) \/ x ∈ Path.folders_to (actualFolder env) ->
  x <> baseline_path_of env name.
Proof.
  intros Hname Hx ->. rewrite (baseline_path_in_folder env name Hname) in Hx.
  rewrite baselineFolder_segments, actualFolder_segments in Hx.
  pose proof (kept_under_cwd env _ _ kept_tests kept_visual_baselines) as HB.
  pose proof (kept_under_cwd env _ _ kept_test_results kept_visual_actuals) as HA.
  pose proof (file_name_kept name Hname) as Hf.
  destruct Hx as [Hx | Hx]; revert Hx; apply longer_path_not_on_the_way;
    try assumption; rewrite ?length_app; reflexivity.
Qed.

Lemma baseline_folder_after_capture env name options img w :
  mkdir_passes env (baselineFolder env) ->
  folder_ready env w (baselineFolder env) ->
  baselineFolder env ∈ folders (after_capture env name options img w).
Proof.
  intros Hb Hready. apply folders_after_capture. right. apply folders_ensured.
  destruct Hready as [Hin | [Hm Hfree]].
  - apply folders_ensured, Hin.
  - assert (Hself : baselineFolder env ∈ Path.folders_to (baselineFolder env)).
    { rewrite baselineFolder_segments. apply folder_in_folders_to.
      apply kept_under_cwd; [apply kept_tests | apply kept_visual_baselines]. }
    apply (folders_ensured_made env _ w Hm); [|exact Hself].
    rewrite Forall_forall in Hfree. apply Hfree, Hself.
Qed.

Lemma baseline_path_no_folder env name options img w :
  (slash ∉ name) ->
  baseline_path_of env name ∉ folders w ->
  baseline_path_of env name ∉ folders (after_capture env name options img w).
Proof.
  intros Hname Hfree Hin. apply folders_after_capture in Hin.
  rewrite (dirname_actual_path env name Hname) in Hin.
  destruct Hin as [Hin | Hin].
  - exact (baseline_path_not_made env name _ Hname (or_intror Hin) eq_refl).
  - apply folders_ensured_inv in Hin as [Hin | Hin].
    + apply folders_ensured_inv in Hin as [Hin | Hin]; [exact (Hfree Hin)|].
      exact (baseline_path_not_made env name _ Hname (or_introl Hin) eq_refl).
    + exact (baseline_path_not_made env name _ Hname (or_intror Hin) eq_refl).
Qed.

Lemma copy_allowed w src dst b :
  files w !! src = Some b -> is_folder w dst = false ->
  is_folder w (Path.dirname dst) = true ->
  copy_refused w src dst = None.
Proof.
  intros Hs Hd Hp. unfold copy_refused, is_file. rewrite Hs.
  rewrite bool_decide_eq_true_2 by (eexists; reflexivity). cbn [negb].
  rewrite Hd, Hp. reflexivity.
Qed.


Lemma folders_ensured_file env d w b :
  files w !! d = Some b -> folders (ensured env d w) = folders w.
Proof.
  intros H. unfold ensured, fs_mkdir, is_file. destruct (mkdir env d); [reflexivity|].
  cbn [files record_event]. rewrite H.
  rewrite bool_decide_eq_true_2 by (eexists; reflexivity). reflexivity.
Qed.

Lemma baseline_folder_not_on_the_way env :
  baselineFolder env ∉ Path.folders_to (actualFolder env).
Proof.
  rewrite baselineFolder_segments, actualFolder_segments. intros Hin.
  pose proof (kept_under_cwd env _ _ kept_tests kept_visual_baselines) as HB.
  pose proof (kept_under_cwd env _ _ kept_test_results kept_visual_actuals) as HA.
  destruct (folders_to_kept _ _ HA Hin) as (P & R & HPR & Heq).
  injection Heq as Heq.
  assert (HP : Forall kept_segment P).
  { rewrite HPR in HA. apply Forall_app in HA as [HP _]. exact HP. }
  apply join_segments_injective in Heq; [|exact HB | exact HP]. subst P.
  assert (HR : R = []).
  { apply (f_equal (@length jsstring)) in HPR. rewrite !length_app in HPR.
    cbn [length] in HPR. destruct R; [reflexivity | cbn [length] in HPR; lia]. }
  subst R. rewrite app_nil_r in HPR. apply app_inv_head in HPR.
  injection HPR as Hseg _. vm_compute in Hseg. discriminate.
Qed.

Lemma copy_blocked w src dst b :
  files w !! src = Some b -> is_folder w dst = false ->
  is_folder w (Path.dirname dst) = false ->
  existsb (is_file w) (Path.folders_to (Path.dirname dst)) = true ->
  copy_refused w src dst
  = Some (ErrorObj (u "ENOTDIR: not a directory, copyfile '"
                    ++ src ++ u "' -> '" ++ dst ++ u "'")).
Proof.
  intros Hs Hd Hp Hx. unfold copy_refused. rewrite Hd, Hp, Hx.
  unfold is_file. rewrite Hs.
  rewrite bool_decide_eq_true_2 by (eexists; reflexivity). cbn [negb].
  change (u "ENOTDIR: not a directory, copyfile '")
    with (u "ENOTDIR: not a directory" ++ u ", copyfile '").
  rewrite <- app_assoc. reflexivity.
Qed.

(** X25.  No error of [fs.copyFile] is caught.  When the baseline branch is
    taken and the copy fails (the folder of the baseline file is missing, a
    regular file stands in its way, or a folder stands at the baseline
    path), the invocation throws that error: no verdict is returned, the
    capture is the only file written, and nothing is sent to the
    gateway. *)
Theorem refused_copy_propagates (parse : jsstring -> completion json) (env : Env)
    (page : Page) (name : jsstring) (options : Options) (w : World)
    (img : list Byte.byte) (e : thrown) :
  mkdir_passes env (baselineFolder env) ->
  mkdir_passes env (actualFolder env) ->
  screenshot_result page (mask_argument options) = Normal img ->
  truthy_flag (updateBaselines options)
  || negb (baseline_seen env name options img w) = true ->
  copy_refused (after_capture env name options img w)
    (actual_path_of env name) (baseline_path_of env name) = Some e ->
  exists w',
    expectPageToMatchVisuallyAI parse env page name options w = (w', Throw e)
    /\ files w' = <[actual_path_of env name := img]> (files w)
    /\ trace w'
       = trace w ++ [EvMkdir (baselineFolder env); EvMkdir (actualFolder env);
                     EvScreenshot (actual_path_of env name) (mask_argument options);
                     EvReadFile (actual_path_of env name);
                     EvAccess (baseline_path_of env name);
                     EvCopyFile (actual_path_of env name) (baseline_path_of env name)]
    /\ Forall (fun ev => ~ is_post ev) (drop (length (trace w)) (trace w')).
Proof.
  intros Hb Ha Hs Hbranch Hcopy.
  assert (Htrace : trace (record_event
                            (EvCopyFile (actual_path_of env name)
                               (baseline_path_of env name))
                            (after_capture env name options img w))
                   = trace w ++ [EvMkdir (baselineFolder env);
                                 EvMkdir (actualFolder env);
                                 EvScreenshot (actual_path_of env name)
                                   (mask_argument options);
                                 EvReadFile (actual_path_of env name);
                                 EvAccess (baseline_path_of env name);
                                 EvCopyFile (actual_path_of env name)
                                   (baseline_path_of env name)]).
  { cbn [trace record_event]. rewrite trace_after_capture, <- !app_assoc. reflexivity. }
  exists (record_event
            (EvCopyFile (actual_path_of env name) (baseline_path_of env name))
            (after_capture env name options img w)).
  split; [apply (baseline_refused parse env page name options img w); assumption|].
  split; [cbn [files record_event]; apply files_after_capture|].
  split; [exact Htrace|].
  rewrite Htrace, drop_app_length. repeat constructor; intros [].
Qed.

(** X26.  [ensureDir] hides a regular file that stands where the baseline
    folder should be: [fs.mkdir] reports [EEXIST], which is swallowed, and
    the failure comes out later.  For a name without a path separator, when
    the capture succeeds and the baseline branch is taken, the copy fails
    with [ENOTDIR] and the invocation throws after the screenshot has been
    taken and stored. *)
Theorem file_at_baseline_folder (parse : jsstring -> completion json) (env : Env)
    (page : Page) (name : jsstring) (options : Options) (w : World)
    (img junk : list Byte.byte) :
  (slash ∉ name) ->
  files w !! baselineFolder env = Some junk ->
  baselineFolder env ∉ folders w ->
  mkdir_passes env (baselineFolder env) ->
  mkdir_passes env (actualFolder env) ->
  screenshot_result page (mask_argument options) = Normal img ->
  baseline_path_of env name ∉ folders w ->
  updateBaselines options = Some true
  \/ files w !! baseline_path_of env name = None ->
  exists w',
    expectPageToMatchVisuallyAI parse env page name options w
    = (w', Throw (ErrorObj (u "ENOTDIR: not a directory, copyfile '"
                            ++ actual_path_of env name ++ u "' -> '"
                            ++ baseline_path_of env name ++ u "'")))
    /\ files w' !! actual_path_of env name = Some img
    /\ last (trace w')
       = Some (EvCopyFile (actual_path_of env name) (baseline_path_of env name)).
Proof.
  intros Hname Hjunk Hnot Hb Ha Hs Hfree Hcase.
  set (ap := actual_path_of env name). set (bp := baseline_path_of env name).
  set (AC := after_capture env name options img w).
  assert (Hne : ap <> bp).
  { intros Heq. apply (flat_name_paths_differ env name Hname). symmetry. exact Heq. }
  assert (Hnofolder : is_folder AC bp = false).
  { apply bool_decide_eq_false_2.
    apply (baseline_path_no_folder env name options img w Hname Hfree). }
  assert (Hbranch : truthy_flag (updateBaselines options)
                    || negb (baseline_seen env name options img w) = true).
  { destruct Hcase as [-> | Hnone]; [reflexivity|].
    rewrite baseline_seen_folder by (rewrite lookup_insert_ne by exact Hne; exact Hnone).
    fold AC bp. rewrite Hnofolder. apply orb_true_r. }
  assert (Hparent : is_folder AC (Path.dirname bp) = false).
  { apply bool_decide_eq_false_2. unfold bp.
    rewrite (dirname_baseline_path env name Hname). intros Hin.
    apply folders_after_capture in Hin.
    rewrite (dirname_actual_path env name Hname) in Hin.
    destruct Hin as [Hin | Hin];
      [exact (baseline_folder_not_on_the_way env Hin)|].
    apply folders_ensured_inv in Hin as [Hin | Hin];
      [|exact (baseline_folder_not_on_the_way env Hin)].
    rewrite (folders_ensured_file env _ w junk Hjunk) in Hin. exact (Hnot Hin). }
  assert (Hblocked : existsb (is_file AC) (Path.folders_to (Path.dirname bp)) = true).
  { apply existsb_exists. exists (baselineFolder env). split.
    - apply list_elem_of_In. unfold bp.
      rewrite (dirname_baseline_path env name Hname), baselineFolder_segments.
      apply folder_in_folders_to.
      apply kept_under_cwd; [apply kept_tests | apply kept_visual_baselines].
    - unfold is_file, AC. rewrite files_after_capture.
      apply bool_decide_eq_true_2.
      destruct (decide (actual_path_of env name = baselineFolder env)) as [->|Hd].
      + rewrite lookup_insert_eq. eexists. reflexivity.
      + rewrite lookup_insert_ne by exact Hd. rewrite Hjunk. eexists. reflexivity. }
  assert (Hcopy : copy_refused AC ap bp
                  = Some (ErrorObj (u "ENOTDIR: not a directory, copyfile '"
                                    ++ ap ++ u "' -> '" ++ bp ++ u "'"))).
  { apply (copy_blocked AC ap bp img); [|exact Hnofolder | exact Hparent | exact Hblocked].
    unfold AC. rewrite files_after_capture. apply lookup_insert_eq. }
  exists (record_event
            (EvCopyFile (actual_path_of env name) (baseline_path_of env name))
            (after_capture env name options img w)).
  split; [apply (baseline_refused parse env page name options img w); assumption|].
  split; [cbn [files record_event]; unfold AC; rewrite files_after_capture;
          apply lookup_insert_eq|].
  cbn [trace record_event]. apply last_snoc.
Qed.

(** * The text method of the on-device gateway *)

Lemma number_or_truthy x d :
  truthy_number d = true -> truthy_number (number_or x d) = true.
Proof.
  intros Hd. unfold number_or. destruct x as [v|]; [|exact Hd].
  destruct (truthy_number v) eqn:Hv; [exact Hv | exact Hd].
Qed.

Lemma number_or_given x v d :
  x = Some v -> truthy_number v = true -> number_or x d = v.
Proof. intros -> Hv. unfold number_or. rewrite Hv. reflexivity. Qed.

(** X7.  The body [generateText] posts never carries a temperature or a
    token limit that is zero or NaN (0.7 and 1000 stand in for them), and
    never images.  For a request that gives a temperature and a token limit
    other than zero and NaN and has no image, the two methods of the gateway
    post the same body; when the request gives neither, the bodies differ. *)
Theorem text_method_body (this : LocalLLMService) (request : MultimodalLLMRequest) :
  truthy_number (p_temperature (text_payload this request)) = true
  /\ truthy_number (p_max_tokens (text_payload this request)) = true
  /\ p_images (text_payload this request) = None
  /\ (forall t n,
        temperature request = Some t -> truthy_number t = true ->
        maxTokens request = Some n -> truthy_number n = true ->
        images request = None \/ images request = Some [] ->
        text_payload this request = build_payload this request)
  /\ (temperature request = None ->
      text_payload this request <> build_payload this request).
Proof.
  split; [|split; [|split; [|split]]].
  - apply number_or_truthy. reflexivity.
  - apply number_or_truthy. reflexivity.
  - reflexivity.
  - intros t n Ht Htt Hn Hnt Hi. unfold text_payload, build_payload.
    rewrite !(number_or_given _ t _ Ht Htt), !(number_or_given _ n _ Hn Hnt).
    destruct Hi as [-> | ->]; reflexivity.
  - intros Ht Heq. apply (f_equal p_temperature) in Heq.
    unfold text_payload, build_payload in Heq. cbn [p_temperature] in Heq.
    rewrite Ht in Heq. discriminate.
Qed.

(** * The models the server lists *)

Lemma name_is_spec model name :
  name_is model name = true <-> name = Some (JString model).
Proof.
  unfold name_is, jsstring_eqb.
  destruct name as [[| | |s| |]|]; split; try discriminate.
  - intros H. apply bool_decide_eq_true_1 in H. subst. reflexivity.
  - intros H. injection H as ->. apply bool_decide_eq_true_2. reflexivity.
Qed.

Lemma some_named_of_names model ms : forall names,
  names_of ms = Normal names ->
  exists b, some_named model ms = Normal b
            /\ (b = true <-> Some (JString model) ∈ names).
Proof.
  induction ms as [|m r IH]; intros names Hn.
  - injection Hn as <-. exists false. split; [reflexivity|].
    split; [discriminate|]. intros H. inversion H.
  - cbn [names_of some_named] in *. unfold bind in *.
    destruct (get_prop m (u "name")) as [name|e]; [|discriminate].
    destruct (names_of r) as [ns|e]; [|discriminate].
    injection Hn as <-.
    destruct (name_is model name) eqn:Hname.
    + apply name_is_spec in Hname. subst name. exists true.
      split; [reflexivity|]. split; [intros _; left | reflexivity].
    + destruct (IH ns eq_refl) as (b & Hb & Hiff). exists b. split; [exact Hb|].
      rewrite Hiff, elem_of_cons. split; [auto|].
      intros [Heq|Hin]; [|exact Hin].
      symmetry in Heq. apply name_is_spec in Heq. rewrite Heq in Hname. discriminate.
Qed.

Lemma names_of_length ms : forall names,
  names_of ms = Normal names -> length names = length ms.
Proof.
  induction ms as [|m r IH]; intros names Hn.
  - injection Hn as <-. reflexivity.
  - cbn [names_of] in Hn. unfold bind in Hn.
    destruct (get_prop m (u "name")) as [name|e]; [|discriminate].
    destruct (names_of r) as [ns|e]; [|discriminate].
    injection Hn as <-. cbn [length]. f_equal. apply IH. reflexivity.
Qed.

Lemma names_of_without_null ms :
  (JNull ∉ ms) -> exists names, names_of ms = Normal names.
Proof.
  induction ms as [|m r IH]; intros Hnull; [eexists; reflexivity|].
  apply not_elem_of_cons in Hnull as [Hm Hr].
  destruct (IH Hr) as [ns Hns]. cbn [names_of]. rewrite Hns.
  destruct m; try (eexists; reflexivity). contradiction.
Qed.

Lemma names_of_with_null ms :
  (JNull ∈ ms) -> exists e, names_of ms = Throw e.
Proof.
  induction ms as [|m r IH]; intros Hnull; [inversion Hnull|].
  apply elem_of_cons in Hnull as [<-|Hr]; [eexists; reflexivity|].
  destruct (IH Hr) as [e He]. cbn [names_of]. rewrite He.
  destruct (get_prop m (u "name")); eexists; reflexivity.
Qed.

(** The two methods send the same request and walk the same array. *)
Lemma tags_methods_run host this h :
  exists c : completion (list json),
    listAvailableModels host this h
    = (h ++ [HostGet (tags_url this)],
       Normal (match (let* ms := c in names_of ms) with
               | Normal names => names
               | Throw _ => []
               end))
    /\ (forall model,
          isModelAvailable host this model h
          = (h ++ [HostGet (tags_url this)],
             Normal (match (let* ms := c in
                            some_named (match model with
                                        | Some m => m
                                        | None => defaultModel this
                                        end) ms) with
                     | Normal b => b
                     | Throw _ => false
                     end)))
    /\ (forall ms,
          c = Normal ms ->
          ms = []
          \/ exists fields,
               http_get host h (tags_url this) = HttpResponse (Some (JObject fields))
               /\ lookup_field (u "models") fields = Some (JArray ms))
    /\ (forall fields ms,
          http_get host h (tags_url this) = HttpResponse (Some (JObject fields)) ->
          lookup_field (u "models") fields = Some (JArray ms) ->
          c = Normal ms).
Proof.
  unfold listAvailableModels, isModelAvailable, tryH, bindH, axios_get, liftH, retH.
  destruct (http_get host h (tags_url this)) as [[d|]|e] eqn:Hget.
  - unfold models_of.
    destruct (get_prop d (u "models")) as [[v|]|e] eqn:Hprop; cbn [bind].
    + destruct (json_truthy host v) eqn:Htruthy.
      * destruct v as [| | | |ms|fs];
          try (exists (Throw (ErrorObj [])); split; [reflexivity|];
               split; [reflexivity|]; split;
               [intros ms Hms; discriminate
               | intros fields ms Heq Hl; injection Heq as ->;
                 cbn [get_prop] in Hprop; rewrite Hl in Hprop; discriminate]).
        exists (Normal ms).
        split; [cbn [bind]; destruct (names_of ms); reflexivity|].
        split; [intros model; cbn [bind];
                destruct (some_named _ ms); reflexivity|].
        split.
        -- intros ms' Hms. injection Hms as <-. right.
           destruct d; try discriminate. cbn [get_prop] in Hprop.
           injection Hprop as Hprop. eexists. split; [reflexivity | exact Hprop].
        -- intros fields ms' Heq Hl. injection Heq as ->. cbn [get_prop] in Hprop.
           rewrite Hl in Hprop. injection Hprop as ->. reflexivity.
      * exists (Normal []). split; [reflexivity|]. split; [reflexivity|]. split.
        -- intros ms Hms. left. injection Hms as <-. reflexivity.
        -- intros fields ms Heq Hl. injection Heq as ->. cbn [get_prop] in Hprop.
           rewrite Hl in Hprop. injection Hprop as <-. discriminate.
    + exists (Normal []). split; [reflexivity|]. split; [reflexivity|]. split.
      * intros ms Hms. left. injection Hms as <-. reflexivity.
      * intros fields ms Heq Hl. injection Heq as ->. cbn [get_prop] in Hprop.
        rewrite Hl in Hprop. discriminate.
    + exists (Throw e). split; [reflexivity|]. split; [reflexivity|]. split.
      * intros ms Hms. discriminate.
      * intros fields ms Heq Hl. injection Heq as ->. discriminate.
  - exists (Throw (ErrorObj [])). split; [reflexivity|]. split; [reflexivity|]. split.
    + intros ms Hms. discriminate.
    + intros fields ms Heq. discriminate.
  - exists (Throw e). split; [reflexivity|]. split; [reflexivity|]. split.
    + intros ms Hms. discriminate.
    + intros fields ms Heq. discriminate.
Qed.

(** X8.  [listAvailableModels] sends one request and always returns a list.
    Whenever that list is not empty, [isModelAvailable] answers, for the
    same reply of the server, whether the name is in it. *)
Theorem availability_agrees_with_listing (host : Host) (this : LocalLLMService)
    (h : list host_event) :
  exists names,
    listAvailableModels host this h = (h ++ [HostGet (tags_url this)], Normal names)
    /\ (names <> [] ->
        forall m,
          exists b,
            isModelAvailable host this (Some m) h
            = (h ++ [HostGet (tags_url this)], Normal b)
            /\ (b = true <-> Some (JString m) ∈ names)).
Proof.
  destruct (tags_methods_run host this h) as (c & Hlist & Havail & _).
  eexists. split; [exact Hlist|].
  intros Hne m. rewrite Havail.
  destruct c as [ms|e]; cbn [bind] in *; [|contradiction].
  destruct (names_of ms) as [names|e] eqn:Hnames; [|contradiction].
  destruct (some_named_of_names m ms names Hnames) as (b & Hb & Hiff).
  exists b. split; [|exact Hiff].
  cbn [bind]. rewrite Hb. reflexivity.
Qed.

(** * The utilities *)

Lemma default_tags_url_eq : tags_url default_LocalLLMService = default_tags_url.
Proof. reflexivity. Qed.

Lemma isOllamaRunning_run host h :
  LLMUtils.isOllamaRunning host h
  = (h ++ [HostGet default_tags_url], Normal (running_after host h)).
Proof.
  unfold running_after, LLMUtils.isOllamaRunning, tryH, bindH, retH.
  destruct (tags_methods_run host default_LocalLLMService h) as (c & Hlist & _).
  rewrite Hlist. reflexivity.
Qed.

(** X9.  [isOllamaRunning] asks the address of the default service, whatever
    the configuration, and answers yes exactly when the reply is an object
    whose [models] is an array with at least one element and without
    [null]: a server that answers with an empty list counts as not
    running. *)
Theorem running_iff_models_listed (host : Host) (h : list host_event) :
  exists b,
    LLMUtils.isOllamaRunning host h = (h ++ [HostGet default_tags_url], Normal b)
    /\ (b = true <->
        exists fields m ms,
          http_get host h default_tags_url = HttpResponse (Some (JObject fields))
          /\ lookup_field (u "models") fields = Some (JArray (m :: ms))
          /\ (JNull ∉ m :: ms)).
Proof.
  exists (running_after host h). split; [apply isOllamaRunning_run|].
  unfold running_after, LLMUtils.isOllamaRunning, tryH, bindH, retH.
  destruct (tags_methods_run host default_LocalLLMService h)
    as (c & Hlist & _ & Hfrom & Hto).
  rewrite Hlist. cbn [snd]. rewrite default_tags_url_eq in *.
  split.
  - intros Hb. destruct c as [ms|e]; cbn [bind] in Hb; [|discriminate].
    destruct (names_of ms) as [names|e] eqn:Hnames; [|discriminate].
    pose proof (names_of_length ms names Hnames) as Hlen.
    destruct ms as [|m ms].
    { destruct names; [discriminate | discriminate]. }
    destruct (Hfrom _ eq_refl) as [Hnil|(fields & Hget & Hl)]; [discriminate|].
    exists fields, m, ms. split; [exact Hget|]. split; [exact Hl|].
    intros Hnull. destruct (names_of_with_null _ Hnull) as [e He].
    rewrite He in Hnames. discriminate.
  - intros (fields & m & ms & Hget & Hl & Hnull).
    rewrite (Hto fields (m :: ms) Hget Hl). cbn [bind].
    destruct (names_of_without_null _ Hnull) as [names Hnames].
    rewrite Hnames. apply names_of_length in Hnames.
    destruct names; [discriminate | reflexivity].
Qed.

Lemma some_named_true model ms :
  some_named model ms = Normal true ->
  exists fs, JObject fs ∈ ms /\ lookup_field (u "name") fs = Some (JString model).
Proof.
  induction ms as [|m r IH]; [discriminate|].
  cbn [some_named]. unfold bind.
  destruct (get_prop m (u "name")) as [name|e] eqn:Hprop; [|discriminate].
  destruct (name_is model name) eqn:Hname.
  - intros _. apply name_is_spec in Hname. subst name.
    destruct m; try discriminate. cbn [get_prop] in Hprop. injection Hprop as Hprop.
    eexists. split; [left | exact Hprop].
  - intros H. destruct (IH H) as (fs & Hin & Hl). exists fs.
    split; [right; exact Hin | exact Hl].
Qed.

Lemma isModelAvailable_true host this m h h' :
  isModelAvailable host this (Some m) h = (h', Normal true) ->
  h' = h ++ [HostGet (tags_url this)] /\ lists_model host h (tags_url this) m.
Proof.
  destruct (tags_methods_run host this h) as (c & _ & Havail & Hfrom & _).
  rewrite Havail. intros Heq. injection Heq as <- Hb. split; [reflexivity|].
  destruct c as [ms|e]; cbn [bind] in Hb; [|discriminate].
  destruct (some_named m ms) as [[|]|e] eqn:Hsome; try discriminate.
  destruct (some_named_true m ms Hsome) as (fs & Hin & Hl).
  destruct (Hfrom ms eq_refl) as [->|(fields & Hget & Hm)]; [inversion Hin|].
  exists fields, ms, fs. auto.
Qed.

Lemma isModelAvailable_shape host this model h :
  exists b,
    isModelAvailable host this model h = (h ++ [HostGet (tags_url this)], Normal b).
Proof.
  destruct (tags_methods_run host this h) as (c & _ & Havail & _).
  eexists. apply Havail.
Qed.

Lemma utils_isModelAvailable_run host name h :
  LLMUtils.isModelAvailable host name h
  = isModelAvailable host default_LocalLLMService (Some name) h.
Proof.
  unfold LLMUtils.isModelAvailable, tryH.
  destruct (isModelAvailable_shape host default_LocalLLMService (Some name) h)
    as [b ->].
  reflexivity.
Qed.

Lemma wait_for_ollama_run host n : forall h,
  exists evs b,
    LLMUtils.wait_for_ollama host n h = (h ++ evs, Normal b)
    /\ (length (List.filter is_get evs) <= n)%nat
    /\ List.filter is_exec evs = []
    /\ total_wait evs <= 2000 * N.of_nat n
    /\ (b = true ->
        exists h0, h ++ evs = h0 ++ [HostGet default_tags_url]
                   /\ running_after host h0 = true).
Proof.
  induction n as [|n IH]; intros h.
  - exists [], false. cbn [LLMUtils.wait_for_ollama]. unfold retH.
    rewrite app_nil_r. split; [reflexivity|]. split; [cbn; lia|].
    split; [reflexivity|]. split; [cbn; lia|]. discriminate.
  - cbn [LLMUtils.wait_for_ollama]. unfold bindH at 1. unfold sleep.
    unfold bindH at 1. rewrite isOllamaRunning_run.
    destruct (running_after host (h ++ [HostSleep 2000])) eqn:Hrun.
    + exists [HostSleep 2000; HostGet default_tags_url], true. unfold retH.
      rewrite <- app_assoc. split; [reflexivity|]. split; [cbn; lia|].
      split; [reflexivity|]. split; [cbn; lia|].
      intros _. exists (h ++ [HostSleep 2000]). rewrite <- app_assoc.
      split; [reflexivity | exact Hrun].
    + destruct (IH ((h ++ [HostSleep 2000]) ++ [HostGet default_tags_url]))
        as (evs & b & Hw & Hg & He & Ht & Hb).
      exists ([HostSleep 2000; HostGet default_tags_url] ++ evs), b.
      rewrite Hw. rewrite <- !app_assoc. split; [reflexivity|].
      split; [cbn [app List.filter is_get length]; lia|].
      split; [cbn [app List.filter is_exec]; exact He|].
      split; [cbn [app total_wait fold_right waited]; fold (total_wait evs); lia|].
      intros Hbt. destruct (Hb Hbt) as (h0 & Hh0 & Hr). exists h0.
      rewrite <- !app_assoc in Hh0. split; [exact Hh0 | exact Hr].
Qed.


(** X11.  [pullModelIfNeeded] always returns.  It runs at most one command,
    [ollama pull] followed by the name as it is, and none when the first
    check finds the model; it asks the server twice at most; and it answers
    yes only when the last thing done is a check whose reply lists the
    model. *)
Theorem pull_reports_what_the_server_lists (host : Host) (name : jsstring)
    (h : list host_event) :
  exists evs b,
    LLMUtils.pullModelIfNeeded host name h = (h ++ evs, Normal b)
    /\ (length (List.filter is_get evs) <= 2)%nat
    /\ (length (List.filter is_exec evs) <= 1)%nat
    /\ (forall c, HostExec c ∈ evs -> c = u "ollama pull " ++ name)
    /\ (snd (LLMUtils.isModelAvailable host name h) = Normal true ->
        evs = [HostGet default_tags_url] /\ b = true)
    /\ (b = true ->
        exists h0, h ++ evs = h0 ++ [HostGet default_tags_url]
                   /\ lists_model host h0 default_tags_url name).
Proof.
  unfold LLMUtils.pullModelIfNeeded, tryH. unfold bindH at 1.
  rewrite !utils_isModelAvailable_run.
  destruct (isModelAvailable_shape host default_LocalLLMService (Some name) h)
    as [b1 H1].
  rewrite H1. rewrite default_tags_url_eq in *. cbn [snd].
  destruct b1.
  - exists [HostGet default_tags_url], true. unfold retH.
    split; [reflexivity|]. split; [cbn; lia|]. split; [cbn; lia|].
    split.
    { intros c Hc. apply list_elem_of_singleton in Hc. discriminate. }
    split; [auto|].
    intros _. exists h. split; [reflexivity|].
    apply (isModelAvailable_true host default_LocalLLMService name h _ H1).
  - unfold bindH at 1, execPromise.
    destruct (exec host (h ++ [HostGet default_tags_url]) (u "ollama pull " ++ name))
      as [out|e].
    + rewrite utils_isModelAvailable_run.
      destruct (isModelAvailable_shape host default_LocalLLMService (Some name)
                  ((h ++ [HostGet default_tags_url])
                   ++ [HostExec (u "ollama pull " ++ name)]))
        as [b2 H2].
      rewrite H2. rewrite default_tags_url_eq in *.
      exists [HostGet default_tags_url; HostExec (u "ollama pull " ++ name);
              HostGet default_tags_url], b2.
      rewrite <- !app_assoc. split; [reflexivity|].
      split; [cbn; lia|]. split; [cbn; lia|].
      split.
      { intros c Hc.
        apply elem_of_cons in Hc as [Hc|Hc]; [discriminate|].
        apply elem_of_cons in Hc as [Hc|Hc]; [injection Hc as ->; reflexivity|].
        apply list_elem_of_singleton in Hc. discriminate. }
      split; [discriminate|].
      intros ->.
      exists ((h ++ [HostGet default_tags_url])
              ++ [HostExec (u "ollama pull " ++ name)]).
      rewrite <- !app_assoc. split; [reflexivity|].
      rewrite <- !app_assoc in H2.
      pose proof (isModelAvailable_true host default_LocalLLMService name _ _ H2)
        as [_ Hl].
      rewrite default_tags_url_eq in Hl. exact Hl.
    + exists [HostGet default_tags_url; HostExec (u "ollama pull " ++ name)], false.
      unfold retH. rewrite <- !app_assoc.
      split; [reflexivity|]. split; [cbn; lia|]. split; [cbn; lia|].
      split.
      { intros c Hc.
        apply elem_of_cons in Hc as [Hc|Hc]; [discriminate|].
        apply list_elem_of_singleton in Hc. injection Hc as ->. reflexivity. }
      split; [discriminate|]. discriminate.
Qed.

(** * The cloud gateway *)

Lemma getMimeType_cases s :
  Google.getMimeTypeFromBase64 s = Some (u "image/png")
  \/ Google.getMimeTypeFromBase64 s = Some (u "image/jpeg")
  \/ Google.getMimeTypeFromBase64 s = Some (u "image/gif")
  \/ Google.getMimeTypeFromBase64 s = Some (u "image/webp").
Proof.
  unfold Google.getMimeTypeFromBase64, Google.base64MimeMap, Google.first_prefix.
  destruct (starts_with (u "iVBORw0KGgo") s); [auto|].
  destruct (starts_with (u "/9j/") s); [auto|].
  destruct (starts_with (u "R0lGODlh") s); [auto|].
  destruct (starts_with (u "UklGR") s); auto.
Qed.

(** X12.  Every image gets one of four types, never none.  A JPEG, a GIF of
    version 89a and a RIFF container (WebP) are recognised by their first
    bytes, whatever follows; a PNG is typed [image/png], and so is anything
    that is not recognised, such as a GIF of version 87a. *)
Theorem mime_type_of_image_bytes :
  (forall s,
     Google.getMimeTypeFromBase64 s = Some (u "image/png")
     \/ Google.getMimeTypeFromBase64 s = Some (u "image/jpeg")
     \/ Google.getMimeTypeFromBase64 s = Some (u "image/gif")
     \/ Google.getMimeTypeFromBase64 s = Some (u "image/webp"))
  /\ (forall rest,
        Google.getMimeTypeFromBase64 (base64 (jpeg_signature ++ rest))
        = Some (u "image/jpeg"))
  /\ (forall rest,
        Google.getMimeTypeFromBase64 (base64 (gif89a_signature ++ rest))
        = Some (u "image/gif"))
  /\ (forall rest,
        Google.getMimeTypeFromBase64 (base64 (riff_signature ++ rest))
        = Some (u "image/webp"))
  /\ (forall rest,
        Google.getMimeTypeFromBase64 (base64 (png_signature ++ rest))
        = Some (u "image/png"))
  /\ (forall rest,
        Google.getMimeTypeFromBase64 (base64 (gif87a_signature ++ rest))
        = Some (u "image/png")).
Proof.
  split; [exact getMimeType_cases|].
  split; [intros rest; vm_compute; reflexivity|].
  split; [intros rest; vm_compute; reflexivity|].
  split.
  { intros [|a [|b rest]]; vm_compute; reflexivity. }
  split.
  { intros rest.
    destruct (getMimeType_cases (base64 (png_signature ++ rest))) as [H|[H|[H|H]]];
      [exact H | exfalso | exfalso | exfalso];
      revert H; unfold Google.getMimeTypeFromBase64, Google.base64MimeMap,
        Google.first_prefix;
      destruct (starts_with (u "iVBORw0KGgo") (base64 (png_signature ++ rest)));
      try discriminate;
      vm_compute; discriminate. }
  intros rest. vm_compute. reflexivity.
Qed.

Lemma image_part_inline s :
  exists mime,
    Google.image_part s = Google.InlineData mime s
    /\ Google.getMimeTypeFromBase64 s = Some mime.
Proof.
  unfold Google.image_part.
  destruct (getMimeType_cases s) as [H|[H|[H|H]]]; rewrite H; eexists;
    (split; [reflexivity|]); reflexivity.
Qed.

Lemma multimodal_parts cfg this request i r :
  images request = Some (i :: r) ->
  last_parts (snd (Google.multimodal_call cfg this request))
  = Google.TextPart (prompt request) :: map Google.image_part (i :: r).
Proof.
  intros Hi. unfold Google.multimodal_call. rewrite Hi. unfold last_parts.
  destruct (systemPrompt request) as [[|c s]|]; reflexivity.
Qed.

(** X13.  What the cloud gateway sends for a request with images: the last
    message holds the prompt and then one part for each image, in order,
    each with the image as it was given and the type read from its first
    characters; the placeholder for an image without a type is never sent.
    The temperature of the request is sent as it is, zero included: only a
    request without one gets the default, where the on-device gateway
    replaces a zero by 0.2. *)
Theorem cloud_request_for_images (cfg : Config) (this : GoogleLLMService)
    (request : MultimodalLLMRequest) :
  (forall i r,
     images request = Some (i :: r) ->
     exists parts,
       last_parts (snd (Google.multimodal_call cfg this request))
       = Google.TextPart (prompt request) :: parts
       /\ length parts = length (i :: r)
       /\ forall k s,
            (i :: r) !! k = Some s ->
            exists mime,
              parts !! k = Some (Google.InlineData mime s)
              /\ Google.getMimeTypeFromBase64 s = Some mime)
  /\ (forall t,
        temperature request = Some t ->
        Google.gc_temperature
          (Google.generationConfig (snd (Google.multimodal_call cfg this request)))
        = t)
  /\ (forall sgn (local : LocalLLMService),
        temperature request = Some (S754_zero sgn) ->
        p_temperature (build_payload local request)
        <> Google.gc_temperature
             (Google.generationConfig (snd (Google.multimodal_call cfg this request)))).
Proof.
  assert (Htemp : forall t,
            temperature request = Some t ->
            Google.gc_temperature
              (Google.generationConfig (snd (Google.multimodal_call cfg this request)))
            = t).
  { intros t Ht. unfold Google.multimodal_call, Google.text_call.
    destruct (images request) as [[|i r]|]; cbn; rewrite Ht; reflexivity. }
  split; [|split; [exact Htemp|]].
  - intros i r Hi. exists (map Google.image_part (i :: r)).
    split; [apply (multimodal_parts cfg this request i r Hi)|].
    split; [apply length_map|].
    intros k s Hk. destruct (image_part_inline s) as (mime & Hpart & Hmime).
    exists mime. split; [|exact Hmime].
    rewrite list_lookup_fmap, Hk. cbn. rewrite Hpart. reflexivity.
  - intros sgn local Ht. rewrite (Htemp _ Ht).
    unfold build_payload, number_or. cbn [p_temperature]. rewrite Ht.
    discriminate.
Qed.

(** * The configuration once loaded *)

Lemma opt_string_or_nonempty x d : d <> [] -> opt_string_or x d <> [].
Proof.
  intros Hd. destruct x as [[|c s]|]; cbn; [exact Hd | discriminate | exact Hd].
Qed.

Lemma string_or_nonempty s d : s <> [] -> string_or s d = s.
Proof. destruct s; [contradiction | reflexivity]. Qed.

(** X14.  Whatever the environment holds, the loaded settings of the models,
    of the address and of the mode are never empty (a variable set to the
    empty string counts as not set).  So the fallbacks written where the
    settings are used never apply: the visual model is the configured one,
    the cloud gateway takes the configured model, also for images, and
    [gemini-pro-vision] is used only when a request names it.  The cloud
    gateway can be built exactly when [GOOGLE_API_KEY] is set and not
    empty. *)
Theorem loaded_settings_are_never_empty (toLowerCase : jsstring -> jsstring)
    (penv : gmap (list N) (list N)) :
  ollamaBaseUrl (load_config toLowerCase penv) <> []
  /\ ollamaDefaultModel (load_config toLowerCase penv) <> []
  /\ ollamaVisualModel (load_config toLowerCase penv) <> []
  /\ aiServiceMode (load_config toLowerCase penv) <> []
  /\ googleGeminiModel (load_config toLowerCase penv) <> []
  /\ visualModel (load_config toLowerCase penv)
     = ollamaVisualModel (load_config toLowerCase penv)
  /\ (forall g,
        new_GoogleLLMService (load_config toLowerCase penv) = Normal g ->
        geminiModel g = googleGeminiModel (load_config toLowerCase penv))
  /\ (forall this request,
        model request = None ->
        fst (Google.multimodal_call (load_config toLowerCase penv) this request)
        = (match images request with
           | Some (_ :: _) => googleGeminiModel (load_config toLowerCase penv)
           | _ => geminiModel this
           end))
  /\ ((exists g, new_GoogleLLMService (load_config toLowerCase penv) = Normal g)
      <-> exists c k, penv !! u "GOOGLE_API_KEY" = Some (c :: k)).
Proof.
  assert (H1 : ollamaVisualModel (load_config toLowerCase penv) <> [])
    by (apply opt_string_or_nonempty; discriminate).
  assert (H2 : googleGeminiModel (load_config toLowerCase penv) <> [])
    by (apply opt_string_or_nonempty; discriminate).
  split; [apply opt_string_or_nonempty; discriminate|].
  split; [apply opt_string_or_nonempty; discriminate|].
  split; [exact H1|].
  split; [apply opt_string_or_nonempty; discriminate|].
  split; [exact H2|].
  split; [apply string_or_nonempty, H1|].
  split.
  { intros g. unfold new_GoogleLLMService.
    destruct (googleApiKey (load_config toLowerCase penv)); [discriminate|].
    intros Hg. injection Hg as <-. cbn [geminiModel].
    apply string_or_nonempty, H2. }
  split.
  { intros this request Hm. unfold Google.multimodal_call, Google.text_call.
    rewrite Hm. cbn [opt_string_or].
    destruct (images request) as [[|i r]|]; cbn [fst]; try reflexivity.
    apply string_or_nonempty, H2. }
  unfold new_GoogleLLMService, load_config; cbn [googleApiKey].
  unfold env_or. destruct (penv !! u "GOOGLE_API_KEY") as [[|c k]|]; cbn.
  - split; [intros [g Hg]; discriminate | intros (c & k & H); discriminate].
  - split; [intros _; eauto | intros _; eauto].
  - split; [intros [g Hg]; discriminate | intros (c & k & H); discriminate].
Qed.

(** * Cleaning generated code *)

Lemma starts_with_prefix p q s :
  starts_with (p ++ q) s = true -> starts_with p s = true.
Proof.
  revert s. induction p as [|a p IH]; intros s H; [reflexivity|].
  destruct s as [|b s]; [discriminate|]. cbn [app starts_with] in *.
  apply andb_true_iff in H as [H1 H2]. rewrite H1. apply IH, H2.
Qed.

Lemma code_fence_match_none before rest :
  starts_with fence rest = false -> code_fence_match before rest = None.
Proof.
  intros H. unfold code_fence_match.
  assert (Hn : forall w, starts_with (fence ++ w) rest = false).
  { intros w. destruct (starts_with (fence ++ w) rest) eqn:Hw; [|reflexivity].
    rewrite (starts_with_prefix _ _ _ Hw) in H. discriminate. }
  change fence_typescript with (fence ++ word_typescript).
  change fence_ts with (fence ++ [116; 115]).
  change fence_javascript with (fence ++ word_javascript).
  change fence_js with (fence ++ [106; 115]).
  rewrite !Hn, H. reflexivity.
Qed.

Lemma code_fence_match_some before rest k r :
  code_fence_match before rest = Some (k, r) ->
  r = [] /\ exists k', k = S (S (S k')).
Proof.
  unfold code_fence_match.
  repeat match goal with
         | |- context [if ?c then _ else _] => destruct c
         end;
    intros H; inversion H; subst; split; try reflexivity; eexists; reflexivity.
Qed.

Lemma clean_step before c tl :
  starts_with fence (c :: tl) = false ->
  replace_all code_fence_match before 0 (c :: tl)
  = c :: replace_all code_fence_match (c :: before) 0 tl.
Proof. intros H. apply replace_all_step, code_fence_match_none, H. Qed.

(** What follows a position where no fence starts does not begin with two
    backquotes once cleaned, unless it did before. *)
Lemma clean_keeps_no_pair tl before :
  starts_with [96; 96] tl = false ->
  starts_with [96; 96] (replace_all code_fence_match before 0 tl) = false.
Proof.
  intros H. destruct tl as [|x tl]; [reflexivity|].
  destruct (N.eqb_spec 96 x) as [<-|Hx].
  - destruct tl as [|y tl].
    + rewrite clean_step by reflexivity. reflexivity.
    + cbn [starts_with] in H. rewrite N.eqb_refl in H. cbn [andb] in H.
      rewrite andb_true_r in H.
      rewrite clean_step by (cbn [fence starts_with]; rewrite H; reflexivity).
      rewrite clean_step
        by (unfold fence; cbn [starts_with]; rewrite H; reflexivity).
      cbn [starts_with]. rewrite H. reflexivity.
  - rewrite clean_step.
    + cbn [starts_with]. destruct (N.eqb_spec 96 x); [contradiction | reflexivity].
    + unfold fence. cbn [starts_with].
      destruct (N.eqb_spec 96 x); [contradiction | reflexivity].
Qed.

Lemma clean_leaves_no_fence n : forall s before,
  (length s <= n)%nat ->
  includes fence (replace_all code_fence_match before 0 s) = false.
Proof.
  induction n as [|n IH]; intros s before Hn.
  - destruct s; [reflexivity | simpl in Hn; lia].
  - destruct s as [|c tl]; [reflexivity|].
    destruct (code_fence_match before (c :: tl)) as [[k r]|] eqn:Hm.
    + destruct (code_fence_match_some _ _ _ _ Hm) as (-> & k' & ->).
      rewrite (replace_all_match _ _ _ _ _ _ Hm). cbn [app].
      apply IH. rewrite length_drop. simpl in Hn. lia.
    + cbn [replace_all]. rewrite Hm.
      cbn [includes]. rewrite IH by (simpl in Hn; lia). rewrite orb_false_r.
      destruct (starts_with fence (c :: tl)) eqn:Hs.
      { unfold code_fence_match in Hm. rewrite Hs in Hm.
        repeat match type of Hm with
               | context [if ?c then _ else _] => destruct c
               end; discriminate. }
      unfold fence in *. cbn [starts_with] in *.
      destruct (N.eqb_spec 96 c) as [<-|_]; [|reflexivity].
      cbn [andb] in *. apply (clean_keeps_no_pair tl). exact Hs.
Qed.

Lemma includes_prefix p a b : includes p a = true -> includes p (a ++ b) = true.
Proof.
  induction a as [|x a IH]; intros H.
  - destruct p; [destruct b; reflexivity | discriminate].
  - cbn [app includes] in *. apply orb_true_iff in H as [H|H].
    + pose proof (starts_with_extend _ _ b H) as H'. cbn [app] in H'.
      rewrite H'. reflexivity.
    + rewrite (IH H). apply orb_true_r.
Qed.

Lemma includes_middle p a m b :
  includes p (a ++ m ++ b) = false -> includes p m = false.
Proof.
  intros H. destruct (includes p m) eqn:Hm; [|reflexivity].
  rewrite (includes_later p a (m ++ b)) in H; [discriminate|].
  apply includes_prefix, Hm.
Qed.

Lemma trim_is_middle s : exists a b, s = a ++ trim s ++ b.
Proof.
  unfold trim. set (t := drop_while is_whitespace s).
  exists (take_while is_whitespace s),
         (rev (take_while is_whitespace (rev t))).
  rewrite <- rev_app_distr, take_drop_while, rev_involutive.
  symmetry. apply take_drop_while.
Qed.

Lemma strip_language_word_is_suffix s : exists a, s = a ++ strip_language_word s.
Proof.
  unfold strip_language_word.
  destruct (starts_with_ignoring_case word_typescript s);
    [exists (take 10 s); symmetry; apply take_drop|].
  destruct (starts_with_ignoring_case word_javascript s);
    [exists (take 10 s); symmetry; apply take_drop|].
  exists []. reflexivity.
Qed.

(** The trimming and the removal of the language word take a part of the
    text: they bring no fence in. *)
Lemma no_fence_after_trimming s :
  includes fence s = false ->
  includes fence (trim (strip_language_word (trim s))) = false.
Proof.
  intros H0.
  destruct (trim_is_middle s) as (a1 & b1 & E1).
  rewrite E1 in H0. apply includes_middle in H0.
  destruct (strip_language_word_is_suffix (trim s)) as (a2 & E2).
  rewrite E2 in H0.
  rewrite <- (app_nil_r (strip_language_word (trim s))) in H0.
  apply includes_middle in H0.
  destruct (trim_is_middle (strip_language_word (trim s))) as (a3 & b3 & E3).
  rewrite E3 in H0. apply includes_middle in H0. exact H0.
Qed.

(** X15.  The cleaned code never contains a Markdown fence, whatever the
    model wrote. *)
Theorem cleaned_code_has_no_fence (code : jsstring) :
  includes (u "```") (cleanGeneratedCode code) = false.
Proof.
  change (u "```") with fence. unfold cleanGeneratedCode.
  apply no_fence_after_trimming.
  apply (clean_leaves_no_fence (length code)).
  apply Nat.le_refl.
Qed.

Lemma starts_with_fence_long a b c r :
  starts_with fence (a :: b :: c :: r) = starts_with fence [a; b; c].
Proof. unfold fence. cbn [starts_with]. rewrite !andb_true_r. reflexivity. Qed.

(** Up to a closing fence that follows a unit other than a backquote, text
    without a fence is copied. *)
Lemma clean_copy_until_fence t : forall c before,
  includes fence (t ++ [c]) = false -> c <> 96 ->
  replace_all code_fence_match before 0 (t ++ c :: fence) = t ++ [c].
Proof.
  induction t as [|x t IH]; intros c before H Hc.
  - cbn [app]. rewrite clean_step.
    2:{ unfold fence. cbn [starts_with].
        destruct (N.eqb_spec 96 c); [congruence | reflexivity]. }
    reflexivity.
  - cbn [app includes] in H. apply orb_false_iff in H as [Hs H].
    cbn [app]. rewrite clean_step.
    + f_equal. apply IH; assumption.
    + destruct t as [|y [|z t]].
      * cbn [app]. unfold fence. cbn [starts_with].
        destruct (N.eqb_spec 96 c); [congruence|].
        rewrite andb_false_l, andb_false_r. reflexivity.
      * cbn [app] in *. rewrite starts_with_fence_long. exact Hs.
      * cbn [app] in *. rewrite starts_with_fence_long.
        rewrite starts_with_fence_long in Hs. exact Hs.
Qed.

Lemma drop_while_shorter f (s : jsstring) :
  (length (drop_while f s) <= length s)%nat.
Proof.
  induction s as [|c s IH]; [reflexivity|]. cbn [drop_while].
  destruct (f c); cbn [length]; lia.
Qed.

Lemma trim_fixed_ends s :
  trim s = s ->
  (forall c r, s = c :: r -> is_whitespace c = false)
  /\ (forall c r, s = r ++ [c] -> is_whitespace c = false).
Proof.
  intros H. unfold trim in H.
  assert (Hlen : length (drop_while is_whitespace
                           (rev (drop_while is_whitespace s))) = length s).
  { rewrite <- (length_rev (drop_while _ _)), H. reflexivity. }
  pose proof (drop_while_shorter is_whitespace s) as L1.
  pose proof (drop_while_shorter is_whitespace (rev (drop_while is_whitespace s)))
    as L2.
  rewrite length_rev in L2.
  assert (Hhead : forall c r, s = c :: r -> is_whitespace c = false).
  { intros c r ->. destruct (is_whitespace c) eqn:Hc; [|reflexivity].
    cbn [drop_while] in L2, Hlen. rewrite Hc in L2, Hlen.
    pose proof (drop_while_shorter is_whitespace r) as L3.
    cbn [length] in *. lia. }
  split; [exact Hhead|].
  intros c r ->.
  assert (Hs : drop_while is_whitespace (r ++ [c]) = r ++ [c]).
  { destruct r as [|x r]; cbn [app drop_while].
    - destruct (is_whitespace c) eqn:Hc; [|reflexivity].
      specialize (Hhead c [] eq_refl). congruence.
    - rewrite (Hhead x (r ++ [c]) eq_refl). reflexivity. }
  rewrite Hs in Hlen. rewrite rev_app_distr in Hlen. cbn [rev app drop_while] in Hlen.
  destruct (is_whitespace c); [|reflexivity].
  pose proof (drop_while_shorter is_whitespace (rev r)) as L3.
  rewrite length_rev in L3. rewrite length_app in Hlen. cbn [length] in Hlen. lia.
Qed.

Lemma trim_between_newlines body :
  trim body = body -> trim (newline :: body ++ [newline]) = body.
Proof.
  intros H. destruct (trim_fixed_ends body H) as [Hhead Hlast].
  destruct body as [|c r]; [reflexivity|].
  pose proof (Hhead c r eq_refl) as Hc.
  assert (Hl : exists r' d, c :: r = r' ++ [d]).
  { destruct (rev (c :: r)) as [|d r'] eqn:Hr.
    - apply (f_equal (@length N)) in Hr. rewrite length_rev in Hr. discriminate.
    - exists (rev r'), d. rewrite <- (rev_involutive (c :: r)), Hr. reflexivity. }
  destruct Hl as (r' & d & Hrd). pose proof (Hlast d r' Hrd) as Hd.
  change (newline :: (c :: r) ++ [newline]) with ([newline] ++ (c :: r) ++ [newline]).
  rewrite trim_between.
  - change (drop_while is_whitespace [newline]) with (@nil N).
    change (rev (drop_while is_whitespace (rev [newline]))) with (@nil N).
    rewrite app_nil_r. reflexivity.
  - intros R. cbn [app drop_while]. change (is_whitespace newline) with true.
    cbn iota. rewrite Hc. reflexivity.
  - intros R. rewrite Hrd, rev_app_distr. cbn [rev app drop_while].
    change (is_whitespace newline) with true. cbn iota. rewrite Hd. reflexivity.
Qed.

(** X16.  A code block is unwrapped.  For code without a fence, without
    white space around it and not starting with one of the two language
    words, wrapped in an opener the function knows, a line break on each
    side and the closing fence, the cleaning gives back the code. *)
Theorem fenced_code_is_unwrapped (opener body : jsstring) :
  opener ∈ fence_openers ->
  includes fence body = false ->
  trim body = body ->
  starts_with_ignoring_case word_typescript body = false ->
  starts_with_ignoring_case word_javascript body = false ->
  cleanGeneratedCode (opener ++ [newline] ++ body ++ [newline] ++ fence) = body.
Proof.
  intros Hop Hfence Htrim Hts Hjs.
  assert (Hcopy : forall before,
            replace_all code_fence_match before 0 (newline :: body ++ newline :: fence)
            = newline :: body ++ [newline]).
  { intros before.
    apply (clean_copy_until_fence (newline :: body) newline before); [|discriminate].
    unfold fence in *. cbn [app]. rewrite includes_cons_other by discriminate.
    apply includes_snoc; [|exact Hfence].
    rewrite !not_elem_of_cons. repeat split; try discriminate. apply not_elem_of_nil. }
  assert (Hstrip : replace_all code_fence_match [] 0
                     (opener ++ [newline] ++ body ++ [newline] ++ fence)
                   = newline :: body ++ [newline]).
  { unfold fence_openers in Hop.
    repeat (apply elem_of_cons in Hop as [->|Hop]); [| | | | |inversion Hop].
    - unfold fence_typescript. cbn [app].
      rewrite (replace_all_match _ _ _ _ 12 []) by reflexivity. apply Hcopy.
    - unfold fence_ts. cbn [app].
      rewrite (replace_all_match _ _ _ _ 4 []) by reflexivity. apply Hcopy.
    - unfold fence_javascript. cbn [app].
      rewrite (replace_all_match _ _ _ _ 12 []) by reflexivity. apply Hcopy.
    - unfold fence_js. cbn [app].
      rewrite (replace_all_match _ _ _ _ 4 []) by reflexivity. apply Hcopy.
    - unfold fence at 1. cbn [app].
      rewrite (replace_all_match _ _ _ _ 2 []) by reflexivity. apply Hcopy. }
  unfold cleanGeneratedCode. rewrite Hstrip.
  rewrite (trim_between_newlines body Htrim).
  unfold strip_language_word. rewrite Hts, Hjs. exact Htrim.
Qed.

(** * Replies laid out over several lines *)

(** ** Around any object *)

Lemma strip_fences_around_object M pre post :
  (lbrace ∉ pre) -> (rbrace ∉ post) ->
  includes fence_open M = false ->
  exists P Q,
    strip_fences (pre ++ (lbrace :: M ++ [rbrace]) ++ post)
    = P ++ (lbrace :: M ++ [rbrace]) ++ Q
    /\ (lbrace ∉ P) /\ (rbrace ∉ Q).
Proof.
  intros Hpre Hpost HM. unfold strip_fences, strip_json_fence.
  assert (Hl : (lbrace ∉ fence_open) /\ lbrace <> newline /\ (rbrace ∉ fence_open)
               /\ rbrace <> newline).
  { change fence_open with [96; 96; 96; 106; 115; 111; 110].
    rewrite !not_elem_of_cons.
    repeat split; try discriminate; apply not_elem_of_nil. }
  destruct Hl as (Hl1 & Hl2 & Hr1 & Hr2).
  assert (Hstrip :
    replace_all fence_open_match [] 0 (pre ++ (lbrace :: M ++ [rbrace]) ++ post)
    = replace_all fence_open_match [] 0 pre
      ++ (lbrace :: M ++ [rbrace]) ++ replace_all fence_open_match [] 0 post).
  { cbn [app]. rewrite (strip_app_stop lbrace _ pre 0 [] Hl1 Hl2) by lia. f_equal.
    rewrite replace_all_step by reflexivity. f_equal.
    rewrite <- !app_assoc. cbn [app].
    rewrite (strip_app_stop rbrace post M 0 _ Hr1 Hr2) by lia.
    rewrite strip_identity by exact HM.
    f_equal. rewrite replace_all_step by reflexivity. f_equal.
    apply replace_all_fence_before. }
  rewrite Hstrip.
  set (P0 := replace_all fence_open_match [] 0 pre).
  set (Q0 := replace_all fence_open_match [] 0 post).
  assert (HP0 : lbrace ∉ P0)
    by (intros H; apply Hpre, (elem_of_replace_all_fence _ _ _ _ H)).
  assert (HQ0 : rbrace ∉ Q0)
    by (intros H; apply Hpost, (elem_of_replace_all_fence _ _ _ _ H)).
  destruct (strip_end_fence_after rbrace (P0 ++ lbrace :: M) Q0) as (Q1 & HQ1 & Hsub);
    [discriminate|].
  replace (P0 ++ (lbrace :: M ++ [rbrace]) ++ Q0)
    with ((P0 ++ lbrace :: M) ++ rbrace :: Q0)
    by (cbn [app]; rewrite <- !app_assoc; reflexivity).
  rewrite HQ1.
  assert (HQ1' : rbrace ∉ Q1) by (intros H; apply HQ0, Hsub, H).
  replace ((P0 ++ lbrace :: M) ++ rbrace :: Q1)
    with (P0 ++ (lbrace :: M ++ [rbrace]) ++ Q1)
    by (cbn [app]; rewrite <- !app_assoc; reflexivity).
  rewrite trim_between.
  - exists (drop_while is_whitespace P0), (rev (drop_while is_whitespace (rev Q1))).
    split; [reflexivity|]. split.
    + intros H. apply HP0, (elem_of_drop_while _ _ _ H).
    + intros H. apply HQ1'. apply (proj1 (elem_of_rev _ _)) in H.
      apply elem_of_drop_while in H. apply (proj1 (elem_of_rev _ _)) in H. exact H.
  - intros R. cbn [app]. apply drop_while_app_stop. reflexivity.
  - intros R. cbn [rev]. rewrite rev_app_distr. cbn [rev app].
    rewrite <- !app_assoc. cbn [app].
    apply drop_while_app_stop. reflexivity.
Qed.

(** The text between the first opening brace and the last closing brace is
    what goes on, flattened and repaired. *)
Lemma extract_json_of_object M pre post :
  (lbrace ∉ pre) -> (rbrace ∉ post) ->
  includes fence_open M = false ->
  extract_json (pre ++ (lbrace :: M ++ [rbrace]) ++ post)
  = Normal (flatten_and_fix (lbrace :: M ++ [rbrace])).
Proof.
  intros Hpre Hpost HM. unfold extract_json.
  destruct (strip_fences_around_object M pre post Hpre Hpost HM)
    as (P & Q & -> & HP & HQ).
  set (obj := lbrace :: M ++ [rbrace]).
  assert (Hfirst : indexOf lbrace (P ++ obj ++ Q) = Z.of_nat (length P)).
  { unfold indexOf, obj. cbn [app].
    rewrite indexOf_from_app by exact HP. lia. }
  assert (Hlast : lastIndexOf rbrace (P ++ obj ++ Q)
                  = (Z.of_nat (length P + length obj) - 1)%Z).
  { unfold lastIndexOf, obj.
    replace (P ++ (lbrace :: M ++ [rbrace]) ++ Q)
      with ((P ++ lbrace :: M) ++ rbrace :: Q)
      by (cbn [app]; rewrite <- !app_assoc; reflexivity).
    rewrite lastIndexOf_from_app by exact HQ.
    rewrite !length_app. cbn [length]. rewrite length_app. cbn [length]. lia. }
  rewrite Hfirst, Hlast.
  assert (Hlen : (0 < length obj)%nat) by (unfold obj; cbn [length]; lia).
  destruct (Z.eqb_spec (Z.of_nat (length P)) (-1)) as [|_]; [lia|].
  destruct (Z.eqb_spec (Z.of_nat (length P + length obj) - 1) (-1)) as [|_]; [lia|].
  destruct (Z.ltb_spec (Z.of_nat (length P + length obj) - 1)
              (Z.of_nat (length P))) as [|_]; [lia|].
  cbn [orb]. f_equal.
  replace (Z.of_nat (length P + length obj) - 1 + 1)%Z
    with (Z.of_nat (length P + length obj)) by lia.
  rewrite substring_middle. reflexivity.
Qed.

(** ** The repair on a laid out reply *)

Lemma json_space_whitespace w :
  json_space w -> Forall (fun x => is_whitespace x = true) w.
Proof.
  intros H. eapply Forall_impl; [exact H|]. intros c Hc. cbn beta in *.
  unfold JSON.is_ws in Hc.
  repeat match type of Hc with
         | context [?a =? ?b] => destruct (N.eqb_spec a b); [subst; reflexivity|]
         end.
  discriminate.
Qed.

Lemma json_space_units w c : json_space w -> c ∈ w -> c = 32 \/ c = 9 \/ c = 10 \/ c = 13.
Proof.
  intros H Hc. unfold json_space in H. rewrite Forall_forall in H.
  specialize (H c Hc). unfold JSON.is_ws in H.
  repeat match type of H with
         | context [?a =? ?b] => destruct (N.eqb_spec a b); [tauto|]
         end.
  discriminate.
Qed.

Lemma repair_copies_space w : forall rest before,
  Forall (fun x => is_whitespace x = true) w ->
  starts_with key_reason (drop_while is_whitespace rest) = false ->
  replace_all missing_comma_match before 0 (w ++ rest)
  = w ++ replace_all missing_comma_match (rev w ++ before) 0 rest.
Proof.
  induction w as [|x w IH]; intros rest before Hw Hr; [reflexivity|].
  cbn [app]. rewrite replace_all_step.
  - f_equal. rewrite IH by (try exact Hr; inversion Hw; assumption).
    cbn [rev]. rewrite <- app_assoc. reflexivity.
  - apply missing_comma_match_none_rest.
    change (x :: w ++ rest) with ((x :: w) ++ rest).
    rewrite drop_while_all by exact Hw. exact Hr.
Qed.

Lemma after_passed_bool_not_e x b : x <> 101 -> after_passed_bool (x :: b) = false.
Proof.
  intros Hx. unfold after_passed_bool.
  change (rev (u "true")) with [101; 117; 114; 116].
  change (rev (u "false")) with [101; 115; 108; 97; 102].
  cbn [starts_with]. destruct (N.eqb_spec 101 x); [congruence | reflexivity].
Qed.

(** White space that does not follow the letter e is copied, whatever comes
    after it. *)
Lemma repair_copies_behind w : forall rest x b0,
  Forall (fun y => is_whitespace y = true) w -> x <> 101 ->
  exists y b1,
    y <> 101
    /\ replace_all missing_comma_match (x :: b0) 0 (w ++ rest)
       = w ++ replace_all missing_comma_match (y :: b1) 0 rest.
Proof.
  induction w as [|c w IH]; intros rest x b0 Hw Hx.
  - exists x, b0. split; [exact Hx | reflexivity].
  - inversion Hw as [|? ? Hc Hw']; subst.
    assert (Hc' : c <> 101) by (intros ->; discriminate).
    destruct (IH rest c (x :: b0) Hw' Hc') as (y & b1 & Hy & Heq).
    exists y, b1. split; [exact Hy|].
    cbn [app]. destruct (w ++ rest) as [|d tl] eqn:Hd.
    + cbn [replace_all] in *.
      rewrite missing_comma_match_none_before by (apply after_passed_bool_not_e, Hx).
      f_equal. exact Heq.
    + rewrite replace_all_step
        by (apply missing_comma_match_none_before, after_passed_bool_not_e, Hx).
      f_equal. exact Heq.
Qed.

(** The key [reason] that does not follow the letter e is copied. *)
Lemma repair_copies_key x b0 rest :
  x <> 101 ->
  replace_all missing_comma_match (x :: b0) 0 (key_reason ++ rest)
  = key_reason ++ replace_all missing_comma_match (rev key_reason ++ x :: b0) 0 rest.
Proof.
  intros Hx. change key_reason with [34; 114; 101; 97; 115; 111; 110; 34; 58].
  cbn [app rev].
  rewrite replace_all_step
    by (apply missing_comma_match_none_before, after_passed_bool_not_e, Hx).
  reflexivity.
Qed.

Lemma reason_not_ahead_tail E X T :
  json_string_body E X ->
  starts_with key_reason (dquote :: T) = false ->
  starts_with key_reason (drop_while is_whitespace (E ++ dquote :: T)) = false.
Proof.
  intros HE HT.
  induction HE as [|c E X Hc _ IH|e cu E X He _ IH|h1 h2 h3 h4 cu E X Hh _ IH].
  - exact HT.
  - cbn [app drop_while]. destruct (is_whitespace c); [exact IH|].
    apply plain_unit_spec in Hc as (H1 & _).
    unfold key_reason. cbn [starts_with].
    destruct (N.eqb_spec dquote c) as [<-|_]; [contradiction | reflexivity].
  - reflexivity.
  - reflexivity.
Qed.

Lemma key_tail_not_ahead_tail p T : forall E X,
  Forall (fun c => c <> 34 /\ c <> 92) p ->
  json_string_body E X ->
  (forall r, T <> 58 :: r) ->
  starts_with (p ++ [dquote; 58]) (E ++ dquote :: T) = false.
Proof.
  induction p as [|x p IH]; intros E X Hp HE HT.
  - destruct HE as [|c E X Hc _|e cu E X He _|h1 h2 h3 h4 cu E X Hh _];
      [| |reflexivity|reflexivity].
    + cbn [app starts_with]. change (dquote =? dquote) with true. cbn [andb].
      destruct T as [|c r]; [reflexivity|].
      destruct (N.eqb_spec 58 c) as [<-|_]; [destruct (HT r eq_refl) | reflexivity].
    + apply plain_unit_spec in Hc as (H1 & _). cbn [app starts_with].
      destruct (N.eqb_spec dquote c) as [<-|_]; [contradiction | reflexivity].
  - inversion Hp as [|? ? [Hx1 Hx2] Hp']; subst.
    destruct HE as [|c E X Hc HE|e cu E X He _|h1 h2 h3 h4 cu E X Hh _];
      cbn [app starts_with].
    + destruct (N.eqb_spec x dquote) as [->|_]; [contradiction | reflexivity].
    + rewrite (IH E X Hp' HE HT). apply andb_false_r.
    + destruct (N.eqb_spec x backslash) as [->|_]; [contradiction | reflexivity].
    + destruct (N.eqb_spec x backslash) as [->|_]; [contradiction | reflexivity].
Qed.

Lemma key_reason_not_at_string E X T :
  json_string_body E X ->
  (forall r, T <> 58 :: r) ->
  starts_with key_reason (dquote :: E ++ dquote :: T) = false.
Proof.
  intros HE HT. unfold key_reason. cbn [starts_with].
  change (dquote =? dquote) with true. cbn [andb].
  apply (key_tail_not_ahead_tail (u "reason") T E X); [|exact HE|exact HT].
  change (u "reason") with [114; 101; 97; 115; 111; 110].
  repeat constructor; discriminate.
Qed.

Lemma repair_copies_body_tail E X T :
  json_string_body E X ->
  (forall r, T <> 58 :: r) ->
  starts_with key_reason (dquote :: T) = false ->
  (forall before, replace_all missing_comma_match before 0 T = T) ->
  forall before,
    replace_all missing_comma_match before 0 (E ++ dquote :: T) = E ++ dquote :: T.
Proof.
  intros HE HT1 HT2 HT3.
  induction HE as [|c E X Hc HE IH|e cu E X He HE IH|h1 h2 h3 h4 cu E X Hh HE IH];
    intros before.
  - cbn [app]. rewrite replace_all_step.
    + f_equal. apply HT3.
    + apply missing_comma_match_none_rest. exact HT2.
  - cbn [app]. rewrite replace_all_step.
    + f_equal. apply IH.
    + apply missing_comma_match_none_rest.
      apply (reason_not_ahead_tail (c :: E) (c :: X) T); [|exact HT2].
      constructor; assumption.
  - cbn [app]. rewrite repair_copies_unit by reflexivity. f_equal.
    rewrite replace_all_step.
    + f_equal. apply IH.
    + apply missing_comma_match_none_rest.
      destruct (simple_escape_cases e cu He) as [->|[->|[->|[->|[->|[->|[->| ->]]]]]]];
        try reflexivity.
      cbn [drop_while]. change (is_whitespace 34) with false. cbn iota.
      apply (key_reason_not_at_string E X T HE HT1).
  - destruct (hex4_ranges _ _ _ _ _ Hh) as (R1 & R2 & R3 & R4).
    cbn [app]. do 2 (rewrite repair_copies_unit by reflexivity; f_equal).
    do 4 (rewrite repair_copies_unit
            by (first [ apply visible_not_whitespace; lia
                      | apply N.eqb_neq; unfold dquote; lia ]);
          f_equal).
    apply IH.
Qed.

(** What follows the key [reason]: white space, the string, white space
    and the closing brace. *)
Lemma repair_copies_value w4 w5 E X : forall before,
  json_space w4 -> json_space w5 -> json_string_body E X ->
  replace_all missing_comma_match before 0
    (w4 ++ dquote :: E ++ dquote :: w5 ++ [rbrace])
  = w4 ++ dquote :: E ++ dquote :: w5 ++ [rbrace].
Proof.
  intros before H4 H5 HE.
  assert (HT1 : forall r, w5 ++ [rbrace] <> 58 :: r).
  { intros r Heq. destruct w5 as [|c w5]; [discriminate|].
    injection Heq as -> _. inversion H5; subst. discriminate. }
  assert (HT2 : starts_with key_reason (dquote :: w5 ++ [rbrace]) = false).
  { unfold key_reason. cbn [starts_with]. change (dquote =? dquote) with true.
    cbn [andb]. destruct w5 as [|c w5]; [reflexivity|].
    change (u "reason" ++ dquote :: u ":") with (114 :: u "eason" ++ dquote :: u ":").
    cbn [app starts_with].
    destruct (N.eqb_spec 114 c) as [<-|_]; [|reflexivity].
    inversion H5; subst. discriminate. }
  assert (HT3 : forall before,
            replace_all missing_comma_match before 0 (w5 ++ [rbrace])
            = w5 ++ [rbrace]).
  { intros b0. rewrite repair_copies_space.
    - f_equal.
      rewrite replace_all_step by (apply missing_comma_match_none_rest; reflexivity).
      reflexivity.
    - apply json_space_whitespace, H5.
    - reflexivity. }
  pose proof (key_reason_not_at_string E X (w5 ++ [rbrace]) HE HT1) as Hq.
  rewrite repair_copies_space.
  - f_equal. rewrite replace_all_step.
    + f_equal. apply (repair_copies_body_tail E X _ HE HT1 HT2 HT3).
    + apply missing_comma_match_none_rest. exact Hq.
  - apply json_space_whitespace, H4.
  - exact Hq.
Qed.

(** Up to the boolean. *)
Lemma repair_copies_start w0 w1 (b : bool) rest : 
  json_space w0 -> json_space w1 ->
  exists before,
    replace_all missing_comma_match [] 0
      (lbrace :: w0 ++ key_passed ++ w1 ++ bool_literal b ++ rest)
    = lbrace :: w0 ++ key_passed ++ w1 ++ bool_literal b
      ++ replace_all missing_comma_match
           (rev (bool_literal b) ++ rev w1 ++ rev key_passed ++ before) 0 rest.
Proof.
  intros H0 H1.
  exists (rev w0 ++ [lbrace]).
  rewrite repair_copies_unit by reflexivity. f_equal.
  rewrite repair_copies_space;
    [|apply json_space_whitespace, H0
     |change key_passed with [34; 112; 97; 115; 115; 101; 100; 34; 58]; reflexivity].
  f_equal.
  change key_passed with [34; 112; 97; 115; 115; 101; 100; 34; 58].
  cbn [app rev].
  rewrite replace_all_step by (apply missing_comma_match_none_rest; reflexivity).
  f_equal.
  do 6 (rewrite repair_copies_unit by reflexivity; f_equal).
  rewrite replace_all_step by (apply missing_comma_match_none_rest; reflexivity).
  f_equal.
  rewrite repair_copies_unit by reflexivity. f_equal.
  rewrite repair_copies_space;
    [|apply json_space_whitespace, H1 | destruct b; reflexivity].
  f_equal.
  destruct b.
  - change (bool_literal true) with [116; 114; 117; 101]. cbn [app rev].
    do 4 (rewrite repair_copies_unit by reflexivity).
    reflexivity.
  - change (bool_literal false) with [102; 97; 108; 115; 101]. cbn [app rev].
    do 5 (rewrite repair_copies_unit by reflexivity).
    reflexivity.
Qed.

Lemma repair_on_layout (comma : bool) w0 w1 w2 w3 w4 w5 (b : bool) E X :
  json_space w0 -> json_space w1 -> json_space w2 -> json_space w3 ->
  json_space w4 -> json_space w5 ->
  json_string_body E X ->
  fix_missing_comma (verdict_layout comma w0 w1 w2 w3 w4 w5 b E)
  = verdict_layout true w0 w1 (if comma then w2 else []) w3 w4 w5 b E.
Proof.
  intros H0 H1 H2 H3 H4 H5 HE. unfold fix_missing_comma, verdict_layout.
  set (tail := w4 ++ dquote :: E ++ dquote :: w5 ++ [rbrace]).
  assert (Htail : forall before,
            replace_all missing_comma_match before 0 tail = tail)
    by (intros before; apply (repair_copies_value w4 w5 E X); assumption).
  destruct (repair_copies_start w0 w1 b
              ((if comma then w2 ++ [44] else []) ++ w3 ++ key_reason ++ tail) H0 H1)
    as [before Hstart].
  rewrite Hstart. do 5 f_equal.
  set (behind := rev (bool_literal b) ++ rev w1 ++ rev key_passed ++ before).
  destruct comma.
  - rewrite <- app_assoc. cbn [app].
    rewrite repair_copies_space;
      [|apply json_space_whitespace, H2 | reflexivity].
    f_equal.
    rewrite repair_copies_unit by reflexivity. f_equal.
    destruct (repair_copies_behind w3 (key_reason ++ tail) 44 (rev w2 ++ behind))
      as (y & b1 & Hy & Heq); [apply json_space_whitespace, H3 | discriminate|].
    rewrite Heq. f_equal.
    rewrite (repair_copies_key y b1 tail Hy). f_equal. apply Htail.
  - cbn [app].
    assert (Hm : missing_comma_match behind (w3 ++ key_reason ++ tail)
                 = Some ((length w3 + length key_reason)%nat,
                         u "," ++ w3 ++ key_reason)).
    { unfold missing_comma_match, behind.
      rewrite (after_passed_bool_here b w1 before (json_space_whitespace _ H1)).
      replace (take_while is_whitespace (w3 ++ key_reason ++ tail)) with w3.
      2:{ symmetry. change key_reason with (dquote :: u "reason" ++ dquote :: u ":").
          cbn [app]. apply take_while_all; [apply json_space_whitespace, H3|].
          reflexivity. }
      rewrite drop_app_length, starts_with_app. reflexivity. }
    assert (Hdrop : drop (length w3 + length key_reason) (w3 ++ key_reason ++ tail)
                    = tail).
    { rewrite <- drop_drop, drop_app_length, drop_app_length. reflexivity. }
    assert (Hs : exists c tl, w3 ++ key_reason ++ tail = c :: tl).
    { destruct (w3 ++ key_reason ++ tail) as [|c tl] eqn:Hs; [|eauto].
      destruct w3; discriminate. }
    destruct Hs as (c & tl & Hs). rewrite Hs in Hm, Hdrop. rewrite Hs at 1.
    replace (length w3 + length key_reason)%nat
      with (S (length w3 + 8)) in Hm, Hdrop
      by (change (length key_reason) with 9%nat; lia).
    rewrite (replace_all_match _ _ _ _ _ _ Hm).
    cbn [drop] in Hdrop. rewrite Hdrop, Htail.
    change (u ",") with [44]. rewrite <- !app_assoc. reflexivity.
Qed.

(** ** Parsing a laid out reply *)

Lemma skip_ws_space w c r :
  json_space w -> JSON.is_ws c = false -> JSON.skip_ws (w ++ c :: r) = c :: r.
Proof.
  intros Hw Hc. unfold JSON.skip_ws. rewrite drop_while_all by exact Hw.
  cbn [drop_while]. rewrite Hc. reflexivity.
Qed.

Lemma value_of_string f w E X T :
  json_space w -> json_string_body E X ->
  JSON.value (S f) (w ++ dquote :: E ++ dquote :: T) = Some (JString X, T).
Proof.
  intros Hw HE. cbn [JSON.value]. rewrite skip_ws_space by (exact Hw || reflexivity).
  change (dquote =? 123) with false. change (dquote =? 91) with false.
  change (dquote =? 34) with true. cbn iota.
  rewrite (string_body_of_body E X HE T). reflexivity.
Qed.

Lemma value_of_bool f w (b : bool) T :
  json_space w ->
  JSON.value (S f) (w ++ bool_literal b ++ T) = Some (JBool b, T).
Proof.
  intros Hw. cbn [JSON.value]. destruct b.
  - change (bool_literal true) with [116; 114; 117; 101]. cbn [app].
    rewrite skip_ws_space by (exact Hw || reflexivity). reflexivity.
  - change (bool_literal false) with [102; 97; 108; 115; 101]. cbn [app].
    rewrite skip_ws_space by (exact Hw || reflexivity). reflexivity.
Qed.

Lemma value_of_object f r c2 r2 :
  JSON.skip_ws r = c2 :: r2 -> (c2 =? 125) = false ->
  JSON.value (S f) (lbrace :: r)
  = match JSON.members f r with
    | Some (ms, rest) => Some (JObject ms, rest)
    | None => None
    end.
Proof.
  intros Hr Hc. cbn [JSON.value]. unfold JSON.skip_ws in *. cbn [drop_while].
  change (JSON.is_ws lbrace) with false. cbn iota.
  change (lbrace =? 123) with true. cbn iota.
  rewrite Hr, Hc. reflexivity.
Qed.

(** One member: the key in quotes, the colon right after it, the value, and
    then a comma and more members, or the closing brace. *)
Lemma members_of_key f w KE K r2 :
  json_space w -> json_string_body KE K ->
  JSON.members (S f) (w ++ dquote :: KE ++ dquote :: 58 :: r2)
  = match JSON.value f r2 with
    | Some (v, r3) =>
        match JSON.skip_ws r3 with
        | c3 :: r4 =>
            if c3 =? 44 then
              match JSON.members f r4 with
              | Some (ms, r5) => Some ((K, v) :: ms, r5)
              | None => None
              end
            else if c3 =? 125 then Some ([(K, v)], r4)
            else None
        | [] => None
        end
    | None => None
    end.
Proof.
  intros Hw HK. cbn [JSON.members].
  rewrite skip_ws_space by (exact Hw || reflexivity).
  change (dquote =? 34) with true. cbn iota.
  rewrite (string_body_of_body KE K HK (58 :: r2)).
  cbn [JSON.skip_ws drop_while]. change (JSON.is_ws 58) with false. cbn iota.
  change (58 =? 58) with true. cbn iota. reflexivity.
Qed.

Lemma plain_key_body k :
  forallb plain_unit k = true -> json_string_body k k.
Proof.
  induction k as [|c k IH]; intros H; [constructor|].
  cbn [forallb] in H. apply andb_true_iff in H as [Hc Hk].
  constructor; [exact Hc | apply IH, Hk].
Qed.

Lemma parse_layout w0 w1 w2 w3 w4 w5 (b : bool) E X :
  json_space w0 -> json_space w1 -> json_space w2 -> json_space w3 ->
  json_space w4 -> json_space w5 ->
  json_string_body E X ->
  JSON.parse (verdict_layout true w0 w1 w2 w3 w4 w5 b E)
  = Some (JObject [(u "passed", JBool b); (u "reason", JString X)]).
Proof.
  intros H0 H1 H2 H3 H4 H5 HE. unfold JSON.parse, verdict_layout.
  set (t4 := w5 ++ [rbrace]).
  set (t3 := w4 ++ dquote :: E ++ dquote :: t4).
  set (t2 := w3 ++ key_reason ++ t3).
  set (t1 := w1 ++ bool_literal b ++ (w2 ++ [44]) ++ t2).
  assert (Hlen : exists n, length (lbrace :: w0 ++ key_passed ++ t1) = S (S (S n))).
  { cbn [length]. rewrite length_app.
    exists (length w0 + 7 + length t1)%nat.
    rewrite length_app. change (length key_passed) with 9%nat. lia. }
  destruct Hlen as [n Hn]. rewrite Hn. clear Hn.
  assert (Kp : json_string_body (u "passed") (u "passed"))
    by (apply plain_key_body; reflexivity).
  assert (Kr : json_string_body (u "reason") (u "reason"))
    by (apply plain_key_body; reflexivity).
  assert (M2 : JSON.members (S (S n)) t2 = Some ([(u "reason", JString X)], [])).
  { unfold t2. change key_reason with (dquote :: u "reason" ++ dquote :: u ":").
    change ((dquote :: u "reason" ++ dquote :: u ":") ++ t3)
      with (dquote :: u "reason" ++ dquote :: 58 :: t3).
    rewrite (members_of_key _ w3 (u "reason") (u "reason") t3 H3 Kr).
    unfold t3. rewrite (value_of_string n w4 E X t4 H4 HE).
    unfold t4. rewrite skip_ws_space by (exact H5 || reflexivity).
    reflexivity. }
  assert (M1 : JSON.members (S (S (S n))) (w0 ++ key_passed ++ t1)
               = Some ([(u "passed", JBool b); (u "reason", JString X)], [])).
  { change key_passed with (dquote :: u "passed" ++ dquote :: u ":").
    change ((dquote :: u "passed" ++ dquote :: u ":") ++ t1)
      with (dquote :: u "passed" ++ dquote :: 58 :: t1).
    rewrite (members_of_key _ w0 (u "passed") (u "passed") t1 H0 Kp).
    unfold t1. rewrite (value_of_bool (S n) w1 b _ H1).
    rewrite <- app_assoc. cbn [app].
    rewrite skip_ws_space by (exact H2 || reflexivity).
    change (44 =? 44) with true. cbn iota.
    rewrite M2. reflexivity. }
  rewrite (value_of_object _ (w0 ++ key_passed ++ t1) dquote
             (u "passed" ++ dquote :: 58 :: t1)).
  - rewrite M1. reflexivity.
  - change key_passed with (dquote :: u "passed" ++ dquote :: u ":").
    change ((dquote :: u "passed" ++ dquote :: u ":") ++ t1)
      with (dquote :: u "passed" ++ dquote :: 58 :: t1).
    apply skip_ws_space; [exact H0 | reflexivity].
  - reflexivity.
Qed.

(** ** Flattening *)

Lemma flatten_app a b : flatten (a ++ b) = flatten a ++ flatten b.
Proof. unfold flatten, replace_unit. rewrite !List.map_app. reflexivity. Qed.

Lemma json_space_flatten w : json_space w -> json_space (flatten w).
Proof.
  intros H. unfold json_space, flatten, replace_unit in *.
  induction H as [|c w Hc _ IH]; [constructor|].
  cbn [map]. constructor; [|exact IH].
  unfold JSON.is_ws in Hc.
  repeat match type of Hc with
         | context [?a =? ?b] => destruct (N.eqb_spec a b); [subst; reflexivity|]
         end.
  discriminate.
Qed.

Lemma flatten_layout (comma : bool) w0 w1 w2 w3 w4 w5 (b : bool) E :
  flatten (verdict_layout comma w0 w1 w2 w3 w4 w5 b E)
  = verdict_layout comma (flatten w0) (flatten w1) (flatten w2) (flatten w3)
      (flatten w4) (flatten w5) b (flatten E).
Proof.
  unfold verdict_layout.
  change (lbrace :: ?x) with ([lbrace] ++ x).
  change (dquote :: E ++ ?x) with ([dquote] ++ E ++ x).
  change (dquote :: w5 ++ ?x) with ([dquote] ++ w5 ++ x).
  rewrite !flatten_app.
  destruct comma, b; rewrite ?flatten_app; reflexivity.
Qed.

(** ** No fence opener between the braces *)

Lemma includes_skip p0 p A S :
  (p0 ∉ A) -> includes (p0 :: p) (A ++ S) = includes (p0 :: p) S.
Proof.
  induction A as [|x A IH]; intros H; [reflexivity|].
  apply not_elem_of_cons in H as [Hx HA]. cbn [app].
  rewrite includes_cons_other by exact Hx. apply IH, HA.
Qed.

Lemma includes_app_sep p X c T :
  (c ∉ p) -> includes p X = false -> includes p T = false ->
  includes p (X ++ c :: T) = false.
Proof.
  intros Hc. induction X as [|y X IH]; intros HX HT.
  - cbn [app includes]. rewrite HT, orb_false_r.
    destruct p as [|a p]; [destruct T; discriminate|].
    apply not_elem_of_cons in Hc as [Hc _]. cbn [starts_with].
    destruct (N.eqb_spec a c); [congruence | reflexivity].
  - cbn [app includes] in *. apply orb_false_iff in HX as [Hs HX].
    rewrite (IH HX HT), orb_false_r.
    destruct (starts_with p (y :: X ++ c :: T)) eqn:Hs'; [|reflexivity].
    destruct (starts_with_before p (y :: X) c T Hc Hs') as [Hy _]. congruence.
Qed.

Lemma json_space_no_backquote w : json_space w -> (96 ∉ w).
Proof.
  intros H Hin. destruct (json_space_units w 96 H Hin) as [?|[?|[?|?]]]; discriminate.
Qed.

Lemma layout_shape (comma : bool) w0 w1 w2 w3 w4 w5 (b : bool) E :
  json_space w0 -> json_space w1 -> json_space w2 -> json_space w3 ->
  json_space w4 -> json_space w5 ->
  includes fence_open E = false ->
  exists M,
    verdict_layout comma w0 w1 w2 w3 w4 w5 b E = lbrace :: M ++ [rbrace]
    /\ includes fence_open M = false.
Proof.
  intros H0 H1 H2 H3 H4 H5 HE.
  set (A := w0 ++ key_passed ++ w1 ++ bool_literal b
            ++ (if comma then w2 ++ [44] else []) ++ w3 ++ key_reason ++ w4
            ++ [dquote]).
  exists (A ++ E ++ dquote :: w5). split.
  - unfold verdict_layout, A.
    destruct comma; rewrite <- ?app_assoc; cbn [app]; rewrite <- ?app_assoc;
      reflexivity.
  - change fence_open with (96 :: [96; 96; 106; 115; 111; 110]) in *.
    rewrite includes_skip.
    + apply includes_app_sep.
      * rewrite !not_elem_of_cons. repeat split; try discriminate.
        apply not_elem_of_nil.
      * exact HE.
      * rewrite <- (app_nil_r w5).
        rewrite includes_skip by (apply json_space_no_backquote, H5). reflexivity.
    + unfold A.
      assert (Hk : forall k : jsstring, forallb (fun c => negb (c =? 96)) k = true ->
                                        (96 ∉ k)).
      { intros k Hk Hin. rewrite forallb_forall in Hk.
        apply list_elem_of_In in Hin. specialize (Hk 96 Hin). discriminate. }
      rewrite !not_elem_of_app.
      repeat split;
        try (apply json_space_no_backquote; assumption);
        try (apply Hk; reflexivity).
      * destruct b; apply Hk; reflexivity.
      * destruct comma; [|apply not_elem_of_nil].
        rewrite not_elem_of_app. split; [apply json_space_no_backquote, H2|].
        apply Hk. reflexivity.
Qed.


(** * The callers of the gateway *)

Lemma generateText_run env this request w :
  generateText env this request w
  = (record_event (EvPost (generate_url this) (text_payload this request)) w,
     Normal (llm_response_of
               (http_post env (generate_url this) (text_payload this request)))).
Proof. reflexivity. Qed.

(** X18.  [generateTestFromSpec] sends one request, to the service it was
    built with; the body names the model [llama3:latest] whatever the
    default model of that service, with the temperature 0.2 and 2000 tokens.
    When the gateway fails the result is the empty text; and whenever code
    is returned it holds no Markdown fence.  When the reply has no string
    under [response] the call throws. *)
Theorem generated_test_request_and_code (env : Env)
    (service : option LocalLLMService) (specification : jsstring) (w : World) :
  exists payload r,
    generateTestFromSpec env (new_TestGenerator service) specification w
    = (record_event
         (EvPost (generate_url (tg_llmService (new_TestGenerator service))) payload) w,
       r)
    /\ p_model payload = u "llama3:latest"
    /\ p_temperature payload = num_0_2
    /\ p_max_tokens payload = num_2000
    /\ p_prompt payload = generate_prompt specification
    /\ (forall e,
          http_post env (generate_url (tg_llmService (new_TestGenerator service)))
            payload = HttpFailure e ->
          r = Normal [])
    /\ (forall code, r = Normal code -> includes (u "```") code = false)
    /\ (forall d,
          http_post env (generate_url (tg_llmService (new_TestGenerator service)))
            payload = HttpResponse (Some d) ->
          d <> JNull -> (forall s, field d (u "response") <> Some (JString s)) ->
          exists e, r = Throw e).
Proof.
  set (this := new_TestGenerator service).
  set (payload := text_payload (tg_llmService this) (generate_request this specification)).
  exists payload.
  unfold generateTestFromSpec.
  rewrite (bindM_normal _ _ _ _ _ (generateText_run env _ _ w)).
  fold payload.
  set (o := http_post env (generate_url (tg_llmService this)) payload).
  exists (if negb (success (llm_response_of o)) then Normal []
          else clean_response_text (text (llm_response_of o))).
  split.
  { destruct (success (llm_response_of o)); cbn [negb]; [|reflexivity].
    destruct (clean_response_text (text (llm_response_of o))); reflexivity. }
  split; [reflexivity|]. split; [reflexivity|]. split; [reflexivity|].
  split; [reflexivity|].
  split; [|split].
  - intros e He. rewrite He. reflexivity.
  - intros code. destruct (success (llm_response_of o)); cbn [negb].
    + unfold clean_response_text.
      destruct (text (llm_response_of o)) as [[| | |c| |]|]; try discriminate.
      intros Hr. injection Hr as <-. change (u "```") with fence.
      unfold cleanGeneratedCode. apply no_fence_after_trimming.
      apply (clean_leaves_no_fence (length c)). apply Nat.le_refl.
    + intros Hr. injection Hr as <-. reflexivity.
  - intros d Hd Hnull Hfield. rewrite Hd.
    assert (Ht : get_prop d (u "response") = Normal (field d (u "response"))).
    { destruct d; try reflexivity. contradiction. }
    unfold llm_response_of, response_text. rewrite Ht. cbn [bind success negb text].
    unfold clean_response_text.
    destruct (field d (u "response")) as [[| | |s| |]|] eqn:Hf;
      try (eexists; reflexivity).
    destruct (Hfield s eq_refl).
Qed.

Lemma read_improvements_fallback parse response :
  success response = true ->
  (forall s, text response = Some (JString s) -> (lbrace ∉ s)) ->
  read_improvements parse response = fallback_improvements.
Proof.
  intros Hs Hb. unfold read_improvements. rewrite Hs. cbn [negb].
  destruct (text response) as [[| | |s| |]|] eqn:Ht; try reflexivity.
  cbn [bind]. unfold match_braces.
  assert (Hno : lbrace ∉ trim s).
  { intros Hin. apply (Hb s eq_refl). unfold trim in Hin.
    apply (proj1 (elem_of_rev _ _)) in Hin. apply elem_of_drop_while in Hin.
    apply (proj1 (elem_of_rev _ _)) in Hin. apply elem_of_drop_while in Hin.
    exact Hin. }
  unfold indexOf. rewrite indexOf_from_absent by exact Hno. reflexivity.
Qed.

(** X19.  [improveTest] always returns an object: the empty lists when the
    gateway fails, the fixed suggestions when the reply holds no opening
    brace (or no text), and otherwise what is parsed, as it is.  It names
    the model [llama3:latest] whatever service the factory chose: with the
    cloud service the library is asked for that model, not for the
    configured one, and nothing is posted to the on-device endpoint; with
    the on-device service one request is posted, naming that model. *)
Theorem enhancer_names_the_ollama_model (parse : jsstring -> completion json)
    (cfg : Config) (instance : option LLMService) (env : Env) (sdk : Google.Sdk)
    (testCode : jsstring) (w : World) :
  (exists w' v,
     improveTest parse env sdk (snd (new_TestEnhancer cfg instance)) testCode w
     = (w', Normal v))
  /\ (forall g,
        te_llmService (snd (new_TestEnhancer cfg instance)) = Cloud g ->
        exists payload,
          improveTest parse env sdk (snd (new_TestEnhancer cfg instance)) testCode w
          = (w, Normal (read_improvements parse
                          (Google.executeGeneration sdk g (u "llama3:latest") payload)))
          /\ Google.contents payload
             = [{| Google.role := u "user";
                   Google.parts :=
                     [Google.TextPart (improve_system_prompt ++ [newline; newline]
                                       ++ improve_prompt testCode)] |}])
  /\ (forall l,
        te_llmService (snd (new_TestEnhancer cfg instance)) = OnDevice l ->
        exists payload,
          trace (fst (improveTest parse env sdk (snd (new_TestEnhancer cfg instance))
                        testCode w))
          = trace w ++ [EvPost (generate_url l) payload]
          /\ p_model payload = u "llama3:latest")
  /\ (forall response,
        success response = false ->
        read_improvements parse response = empty_improvements)
  /\ (forall response,
        success response = true ->
        (forall s, text response = Some (JString s) -> (lbrace ∉ s)) ->
        read_improvements parse response = fallback_improvements).
Proof.
  assert (Hmodel : te_defaultModel (snd (new_TestEnhancer cfg instance))
                   = u "llama3:latest").
  { unfold new_TestEnhancer. destruct (getLLMService cfg instance). reflexivity. }
  set (this := snd (new_TestEnhancer cfg instance)) in *.
  split; [|split; [|split; [|split]]].
  - unfold improveTest, service_generateText.
    destruct (te_llmService this) as [l|g].
    + rewrite (bindM_normal _ _ _ _ _ (generateText_run env _ _ w)).
      eexists. eexists. reflexivity.
    + eexists. eexists. reflexivity.
  - intros g Hg. unfold improveTest, service_generateText. rewrite Hg.
    unfold Google.generateText, Google.text_call, improve_request.
    cbn [model systemPrompt prompt temperature maxTokens opt_string_or].
    rewrite Hmodel. eexists. split; reflexivity.
  - intros l Hl. unfold improveTest, service_generateText. rewrite Hl.
    rewrite (bindM_normal _ _ _ _ _ (generateText_run env _ _ w)).
    eexists. split; [reflexivity|].
    unfold text_payload, improve_request. cbn [p_model model opt_string_or].
    rewrite Hmodel. reflexivity.
  - intros response Hs. unfold read_improvements. rewrite Hs. reflexivity.
  - apply read_improvements_fallback.
Qed.

(** * What the model is asked *)

(** X20.  The body of the comparison request: the two images, the baseline
    first and the capture second, as the prompt names them; the visual
    model, the temperature 0.1 and 2048 tokens; no system prompt and no
    streaming.  And each of the three replies the prompt shows to the model
    is read back by the interpreter as the verdict it states. *)
Theorem comparison_request_content (cfg : Config) (base img : list Byte.byte) :
  p_images (comparison_payload cfg base img) = Some [base64 base; base64 img]
  /\ includes (u "Image 1 is the baseline. Image 2 is the current state.")
       (p_prompt (comparison_payload cfg base img)) = true
  /\ p_model (comparison_payload cfg base img) = visualModel cfg
  /\ p_temperature (comparison_payload cfg base img) = num_0_1
  /\ p_max_tokens (comparison_payload cfg base img) = num_2048
  /\ p_system (comparison_payload cfg base img) = None
  /\ p_stream (comparison_payload cfg base img) = false
  /\ Forall (fun example =>
               includes (verdict_text (fst example) (snd example))
                 (p_prompt (comparison_payload cfg base img)) = true
               /\ forall msg,
                    interpretAIJsonResponse (JSON_parse msg)
                      (verdict_text (fst example) (snd example))
                    = Normal {| passed := fst example; reason := snd example |})
       prompt_examples.
Proof.
  split; [reflexivity|]. split; [vm_compute; reflexivity|].
  split.
  { unfold comparison_payload, build_payload, comparison_request.
    cbn [p_model model opt_string_or]. unfold visualModel.
    destruct (ollamaVisualModel cfg); reflexivity. }
  split; [reflexivity|]. split; [reflexivity|]. split; [reflexivity|].
  split; [reflexivity|].
  repeat constructor; try (vm_compute; reflexivity); intros msg; vm_compute; reflexivity.
Qed.

(** * From the environment to the backend *)

Lemma loaded_mode_is_google lower penv :
  aiServiceMode (load_config lower penv) = u "google"
  <-> exists v, penv !! u "AI_SERVICE_MODE" = Some v /\ lower v = u "google".
Proof.
  unfold load_config. cbn [aiServiceMode].
  destruct (penv !! u "AI_SERVICE_MODE") as [v|]; cbn [option_map opt_string_or].
  - split.
    + intros H. exists v. split; [reflexivity|].
      destruct (lower v); [discriminate | exact H].
    + intros (v' & Hv & Hl). injection Hv as <-. rewrite Hl. reflexivity.
  - split; [discriminate | intros (v & Hv & _); discriminate].
Qed.

Lemma loaded_key_is_set lower penv c k :
  googleApiKey (load_config lower penv) = c :: k
  <-> penv !! u "GOOGLE_API_KEY" = Some (c :: k).
Proof.
  unfold load_config, env_or. cbn [googleApiKey].
  destruct (penv !! u "GOOGLE_API_KEY") as [[|c' k']|]; cbn [opt_string_or string_or].
  - split; discriminate.
  - split; intros H; injection H as -> ->; reflexivity.
  - split; discriminate.
Qed.

(** X21.  The first call of the factory on the loaded configuration gives
    the cloud backend exactly when [AI_SERVICE_MODE], put in lower case, is
    [google] and [GOOGLE_API_KEY] is set and not empty; in every other case
    it gives the on-device backend for the loaded Ollama address and
    default model. *)
Theorem backend_from_environment (lower : jsstring -> jsstring)
    (penv : gmap (list N) (list N)) :
  ((exists g, snd (getLLMService (load_config lower penv) None) = Cloud g)
   <-> (exists v c k,
          penv !! u "AI_SERVICE_MODE" = Some v /\ lower v = u "google"
          /\ penv !! u "GOOGLE_API_KEY" = Some (c :: k)))
  /\ ((forall g, snd (getLLMService (load_config lower penv) None) <> Cloud g) ->
      snd (getLLMService (load_config lower penv) None)
      = OnDevice
          {| baseUrl := env_or penv (u "OLLAMA_BASE_URL") (u "http://localhost:11434/api");
             defaultModel := env_or penv (u "OLLAMA_DEFAULT_MODEL") (u "llama3:latest") |}).
Proof.
  pose proof (loaded_mode_is_google lower penv) as Hmode.
  pose proof (loaded_key_is_set lower penv) as Hkey.
  set (cfg := load_config lower penv) in *.
  assert (Hlocal : new_LocalLLMService cfg
                   = {| baseUrl := env_or penv (u "OLLAMA_BASE_URL")
                                     (u "http://localhost:11434/api");
                        defaultModel := env_or penv (u "OLLAMA_DEFAULT_MODEL")
                                          (u "llama3:latest") |})
    by reflexivity.
  unfold getLLMService, new_GoogleLLMService. rewrite Hlocal.
  destruct (decide (aiServiceMode cfg = u "google")) as [Hg|Hg].
  - rewrite bool_decide_eq_true_2 by exact Hg.
    destruct (proj1 Hmode Hg) as (v & Hv & Hl).
    destruct (googleApiKey cfg) as [|c k] eqn:Hk; cbn [snd].
    + split; [|reflexivity].
      split; [intros [g H]; discriminate|].
      intros (v' & c & k & _ & _ & H). apply Hkey in H. discriminate.
    + split.
      * split; [|intros _; eexists; reflexivity].
        intros _. exists v, c, k. split; [exact Hv|]. split; [exact Hl|].
        apply Hkey. reflexivity.
      * intros H. exfalso. eapply H. reflexivity.
  - rewrite bool_decide_eq_false_2 by exact Hg. cbn [snd]. split; [|reflexivity].
    split; [intros [g H]; discriminate|].
    intros (v & c & k & Hv & Hl & _). exfalso. apply Hg, Hmode. eauto.
Qed.

(** * Suggestions read from free text *)

Lemma drop_while_head f (s : jsstring) c r :
  drop_while f s = c :: r -> f c = false.
Proof.
  induction s as [|x s IH]; [discriminate|]. cbn [drop_while].
  destruct (f x) eqn:Hx; [exact IH|]. intros [= <- _]. exact Hx.
Qed.

Lemma drop_while_fixed f (s : jsstring) :
  drop_while f (drop_while f s) = drop_while f s.
Proof.
  destruct (drop_while f s) as [|c r] eqn:H; [reflexivity|].
  cbn [drop_while]. rewrite (drop_while_head f s c r H). reflexivity.
Qed.

Lemma trim_idempotent s : trim (trim s) = trim s.
Proof.
  unfold trim. destruct (drop_while is_whitespace s) as [|c r] eqn:H; [reflexivity|].
  pose proof (drop_while_head _ _ _ _ H) as Hc.
  cbn [rev]. rewrite (drop_while_app_stop is_whitespace (rev r) c [] Hc).
  rewrite rev_app_distr. cbn [rev app drop_while]. rewrite Hc.
  cbn [rev]. rewrite rev_involutive.
  rewrite (drop_while_app_stop is_whitespace _ c [] Hc), drop_while_fixed.
  rewrite rev_app_distr. reflexivity.
Qed.

Lemma take_while_forall f (s : jsstring) :
  Forall (fun c => f c = true) s -> take_while f s = s.
Proof.
  induction 1 as [|x s Hx _ IH]; [reflexivity|]. cbn [take_while].
  rewrite Hx, IH. reflexivity.
Qed.

Lemma split_lines_line l :
  newline ∉ l -> split_lines l = [l].
Proof.
  induction l as [|c l IH]; intros H; [reflexivity|].
  apply not_elem_of_cons in H as [Hc Hl]. cbn [split_lines].
  destruct (N.eqb_spec c newline) as [->|_]; [contradiction|].
  rewrite (IH Hl). reflexivity.
Qed.

Lemma split_lines_app l rest :
  newline ∉ l -> split_lines (l ++ newline :: rest) = l :: split_lines rest.
Proof.
  induction l as [|c l IH]; intros H.
  - reflexivity.
  - apply not_elem_of_cons in H as [Hc Hl]. cbn [app split_lines].
    destruct (N.eqb_spec c newline) as [->|_]; [contradiction|].
    rewrite (IH Hl). reflexivity.
Qed.

Lemma split_lines_lines ls :
  ls <> [] -> Forall (fun l => newline ∉ l) ls -> split_lines (lines ls) = ls.
Proof.
  intros Hne H. induction H as [|l r Hl Hr IH]; [contradiction|].
  destruct r as [|l' r].
  - apply split_lines_line, Hl.
  - change (lines (l :: l' :: r)) with (l ++ newline :: lines (l' :: r)).
    rewrite (split_lines_app _ _ Hl), IH by discriminate. reflexivity.
Qed.

Lemma after_marker_app m rest :
  list_marker m -> after_marker (m ++ rest) = Some rest.
Proof.
  intros [digits d Hne Hd Hdot | c Hc].
  - destruct digits as [|c ds]; [contradiction|].
    apply Forall_cons in Hd as [Hc Hds].
    rewrite <- !app_assoc. cbn [app after_marker]. rewrite Hc.
    rewrite (drop_while_all JSON.is_digit ds (d :: rest) Hds).
    cbn [drop_while].
    destruct Hdot as [-> | ->]; reflexivity.
  - cbn [app after_marker].
    assert (Hnd : JSON.is_digit c = false).
    { unfold is_bullet in Hc. unfold JSON.is_digit.
      destruct (N.eqb_spec c 45) as [E|_]; [rewrite E; reflexivity|].
      destruct (N.eqb_spec c 42) as [E|_]; [rewrite E; reflexivity|].
      destruct (N.eqb_spec c 8226) as [E|_]; [rewrite E; reflexivity|discriminate]. }
    rewrite Hnd, Hc. reflexivity.
Qed.

Lemma after_marker_alone m : list_marker m -> after_marker m = Some [].
Proof.
  intros H. rewrite <- (app_nil_r m) at 1. apply after_marker_app, H.
Qed.

Lemma marker_no_newline m : list_marker m -> newline ∉ m.
Proof.
  intros [digits d Hne Hd Hdot | c Hc] Hin.
  - apply elem_of_app in Hin as [Hin | Hin].
    + rewrite Forall_forall in Hd.
      specialize (Hd _ Hin). discriminate.
    + apply list_elem_of_singleton in Hin. destruct Hdot; subst; discriminate.
  - apply list_elem_of_singleton in Hin. subst c. discriminate.
Qed.

Lemma item_text_after_gap gap item :
  Forall (fun c => is_whitespace c = true /\ c <> newline) gap ->
  item <> [] -> trim item = item ->
  Forall (fun c => is_line_terminator c = false) item ->
  item_text (gap ++ item) = Some item.
Proof.
  intros Hgap Hne Htrim Hlt. unfold item_text.
  rewrite drop_while_all by (eapply Forall_impl; [exact Hgap | intros ? [? _]; assumption]).
  destruct item as [|c r]; [contradiction|].
  destruct (trim_fixed_ends _ Htrim) as [Hhead _].
  cbn [drop_while]. rewrite (Hhead c r eq_refl).
  rewrite take_while_forall; [reflexivity|].
  eapply Forall_impl; [exact Hlt|]. intros x Hx. cbn beta. rewrite Hx. reflexivity.
Qed.

Lemma list_item_render l :
  well_formed_line l -> list_item (render_line l) = Some (ll_item l).
Proof.
  intros (Hm & Hgap & Hne & Htrim & Hlt). unfold list_item, render_line.
  rewrite (after_marker_app _ _ Hm), (item_text_after_gap _ _ Hgap Hne Htrim Hlt).
  cbn [option_map]. rewrite Htrim. reflexivity.
Qed.

Lemma render_line_no_newline l :
  well_formed_line l -> newline ∉ render_line l.
Proof.
  intros (Hm & Hgap & _ & _ & Hlt) Hin. unfold render_line in Hin.
  apply elem_of_app in Hin as [Hin | Hin]; [exact (marker_no_newline _ Hm Hin)|].
  apply elem_of_app in Hin as [Hin | Hin].
  - rewrite Forall_forall in Hgap.
    destruct (Hgap _ Hin) as [_ Hn]. apply Hn. reflexivity.
  - rewrite Forall_forall in Hlt.
    specialize (Hlt _ Hin). discriminate.
Qed.

Lemma list_items_of_rendered ls :
  Forall well_formed_line ls ->
  omap list_item (map render_line ls) = map ll_item ls.
Proof.
  induction 1 as [|l ls Hl _ IH]; [reflexivity|].
  cbn [map omap list_omap]. rewrite (list_item_render _ Hl).
  cbn. f_equal. exact IH.
Qed.

Lemma list_item_trimmed line e : list_item line = Some e -> trim e = e.
Proof.
  unfold list_item. destruct (after_marker line) as [rest|]; [|discriminate].
  destruct (item_text rest) as [t|]; [|discriminate].
  intros [= <-]. apply trim_idempotent.
Qed.

Lemma list_items_trimmed ls :
  Forall (fun e => trim e = e) (omap list_item ls).
Proof.
  induction ls as [|l ls IH]; [constructor|].
  cbn [omap list_omap]. destruct (list_item l) as [e|] eqn:He; [|exact IH].
  constructor; [exact (list_item_trimmed _ _ He) | exact IH].
Qed.

(** X22.  A numbered or bulleted list is read back item by item: for lines
    made of a number followed by [.] or [)], or of one of the bullets [-],
    [*] and [•], then any white space other than a line break, then an
    item that is not empty, has no white space around it and no line
    terminator in it, [extractSuggestionsFromText] of the lines joined by
    line breaks returns the items, in order. *)
Theorem list_is_read_back (ls : list list_line) :
  ls <> [] -> Forall well_formed_line ls ->
  extractSuggestionsFromText (lines (map render_line ls)) = map ll_item ls.
Proof.
  intros Hne Hwf. unfold extractSuggestionsFromText.
  rewrite split_lines_lines.
  - rewrite (list_items_of_rendered _ Hwf).
    destruct ls as [|l r]; [contradiction | reflexivity].
  - destruct ls; [contradiction | discriminate].
  - rewrite Forall_map. eapply Forall_impl; [exact Hwf|].
    intros l Hl. apply render_line_no_newline, Hl.
Qed.

(** X23.  [extractSuggestionsFromText] never returns the empty list, and
    no text it returns has white space at either end. *)
Theorem suggestions_never_empty (text : jsstring) :
  extractSuggestionsFromText text <> []
  /\ Forall (fun e => trim e = e) (extractSuggestionsFromText text).
Proof.
  unfold extractSuggestionsFromText.
  pose proof (list_items_trimmed (split_lines text)) as H.
  destruct (omap list_item (split_lines text)) as [|e r].
  - split; [discriminate|]. constructor; [apply trim_idempotent | constructor].
  - split; [discriminate | exact H].
Qed.

(** X24.  A marker followed only by blanks is an item, the empty one, so
    the list that is returned can hold the empty text; a marker alone is
    no item, and is returned as it is, as the whole text. *)
Theorem marker_without_item (m gap : jsstring) :
  list_marker m -> gap <> [] ->
  Forall (fun c => is_whitespace c = true /\ is_line_terminator c = false) gap ->
  extractSuggestionsFromText (m ++ gap) = [[]]
  /\ extractSuggestionsFromText m = [m].
Proof.
  intros Hm Hne Hgap.
  assert (Hws : Forall (fun c => is_whitespace c = true) gap)
    by (eapply Forall_impl; [exact Hgap | intros ? [? _]; assumption]).
  assert (Hnl : newline ∉ m ++ gap).
  { intros Hin. apply elem_of_app in Hin as [Hin | Hin];
      [exact (marker_no_newline _ Hm Hin)|].
    rewrite Forall_forall in Hgap. destruct (Hgap _ Hin) as [_ Hn]. discriminate. }
  split.
  - unfold extractSuggestionsFromText. rewrite (split_lines_line _ Hnl).
    cbn [omap list_omap]. unfold list_item.
    rewrite (after_marker_app _ _ Hm). unfold item_text.
    assert (Hd : drop_while is_whitespace gap = []).
    { rewrite <- (app_nil_r gap). rewrite (drop_while_all _ _ _ Hws). reflexivity. }
    rewrite Hd.
    destruct (rev gap) as [|x r] eqn:Hr.
    { apply (f_equal (@length N)) in Hr. rewrite length_rev in Hr.
      destruct gap; [contradiction | discriminate]. }
    assert (Hx : x ∈ gap).
    { apply elem_of_rev. rewrite Hr. left. }
    rewrite Forall_forall in Hgap. destruct (Hgap _ Hx) as [Hxw Hxl].
    cbn [List.find]. rewrite Hxl. cbn [negb option_map].
    unfold trim. cbn [drop_while]. rewrite Hxw. reflexivity.
  - unfold extractSuggestionsFromText.
    rewrite split_lines_line by (intros Hin; apply Hnl, elem_of_app; left; exact Hin).
    cbn [omap list_omap]. unfold list_item.
    rewrite (after_marker_alone _ Hm). cbn. f_equal.
    destruct Hm as [digits d Hd0 Hd Hdot | c Hc].
    + assert (Hdw : is_whitespace d = false) by (destruct Hdot; subst; reflexivity).
      destruct digits as [|c ds]; [contradiction|].
      apply Forall_cons in Hd as [Hc Hds].
      assert (Hcw : is_whitespace c = false).
      { unfold JSON.is_digit in Hc. unfold is_whitespace.
        apply andb_true_iff in Hc as [H1 H2].
        apply N.leb_le in H1, H2.
        repeat match goal with
               | |- context [?a <=? ?b] =>
                   destruct (N.leb_spec a b); try lia
               | |- context [?a =? ?b] =>
                   destruct (N.eqb_spec a b); try lia
               end; reflexivity. }
      unfold trim. cbn [app drop_while]. rewrite Hcw.
      change (c :: ds ++ [d]) with ((c :: ds) ++ [d]).
      rewrite rev_app_distr. cbn [rev app drop_while]. rewrite Hdw.
      change (d :: rev ds ++ [c]) with ([d] ++ (rev ds ++ [c])).
      rewrite rev_app_distr, rev_app_distr, rev_involutive. reflexivity.
    + assert (Hcw : is_whitespace c = false).
      { unfold is_bullet in Hc.
        destruct (N.eqb_spec c 45) as [E|_]; [rewrite E; reflexivity|].
        destruct (N.eqb_spec c 42) as [E|_]; [rewrite E; reflexivity|].
        destruct (N.eqb_spec c 8226) as [E|_]; [rewrite E; reflexivity|discriminate]. }
      unfold trim. cbn [drop_while]. rewrite Hcw. cbn [rev app drop_while].
      rewrite Hcw. reflexivity.
Qed.


(** * The statements at concrete inputs *)

Lemma interpreter_total_and_fails_closed_witness :
  exists v,
    interpretAIJsonResponse (JSON_parse sample_syntax_error) (uq "{'passed': true") = Normal v
    /\ passed v = false /\ reason v <> [].
Proof.
  destruct (interpreter_total_and_fails_closed (JSON_parse sample_syntax_error)
              (uq "{'passed': true")) as (v & Hv & Hthrow & _).
  exists v. split; [exact Hv|].
  apply (Hthrow (ErrorObj (u "Could not find valid JSON object delimiters {} in response."))).
  vm_compute. reflexivity.
Defined.

(** C3.  The flag does not reach the comparison pipeline.  With the flag
    on [google] and an API key the factory selects the cloud backend, and
    an invocation of the orchestrator that reaches the comparison still
    sends its request to the on-device endpoint: the service of the
    pipeline is not the one the factory selects. *)
Lemma comparison_ignores_service_mode :
  snd (getLLMService google_config None)
  = Cloud {| apiKey := u "key"; geminiModel := u "gemini-pro" |}
  /\ OnDevice (llmService google_config) <> snd (getLLMService google_config None)
  /\ exists payload,
       last (trace (fst (expectPageToMatchVisuallyAI (JSON_parse sample_syntax_error)
                           (sample_env google_config refused) sample_page (u "home")
                           no_options world_with_baseline)))
       = Some (EvPost (u "http://localhost:11434/api/generate") payload).
Proof.
  split; [reflexivity|]. split; [discriminate|].
  eexists. vm_compute. reflexivity.
Qed.



Lemma gateway_failure_verdict_witness :
  exists w',
    expectPageToMatchVisuallyAI (JSON_parse sample_syntax_error)
      (sample_env sample_config refused) sample_page (u "home") no_options
      world_with_baseline
    = (w', Normal {| verdict :=
                       {| passed := false;
                          reason := u "LLM service error during comparison for home: connect ECONNREFUSED 127.0.0.1:11434" |};
                     baselinePath := u "/proj/tests/visual-baselines/home.png";
                     actualPath := u "/proj/test-results/visual-actuals/home.png" |}).
Proof.
  destruct (proj2 (gateway_failure_verdict (JSON_parse sample_syntax_error)
                     (sample_env sample_config refused) sample_page)
              (u "home") no_options world_with_baseline sample_image old_image)
    as (w' & err & Herr & Hrun & _).
  - exact I.
  - exact I.
  - reflexivity.
  - discriminate.
  - vm_compute. reflexivity.
  - reflexivity.
  - exists w'. injection Herr as <-. exact Hrun.
Defined.

Lemma verdict_round_trip_witness :
  interpretAIJsonResponse (JSON_parse sample_syntax_error)
    ((u "Here is the result:" ++ [newline] ++ u "```json" ++ [newline])
     ++ verdict_text false (u "Button \" ++ dquote :: u "Save\" ++ dquote :: u " is missing.")
     ++ ([newline] ++ u "```" ++ [newline] ++ u "Done."))
  = Normal {| passed := false;
              reason := u "Button " ++ dquote :: u "Save" ++ dquote :: u " is missing." |}.
Proof.
  apply (verdict_round_trip sample_syntax_error false).
  - apply (bool_decide_unpack _). vm_compute. exact I.
  - apply (bool_decide_unpack _). vm_compute. exact I.
  - vm_compute. repeat constructor.
  - vm_compute. reflexivity.
Defined.

(** Prose with braces around a well-formed reply, and a reason that contains
    the fence opener: the verdict is lost or altered. *)
Lemma round_trip_counterexample :
  interpretAIJsonResponse (JSON_parse sample_syntax_error)
    (u "see {this}: " ++ verdict_text true (u "ok"))
  <> Normal {| passed := true; reason := u "ok" |}
  /\ interpretAIJsonResponse (JSON_parse sample_syntax_error)
       (verdict_text false (u "use ```json fences"))
     <> Normal {| passed := false; reason := u "use ```json fences" |}.
Proof. split; vm_compute; discriminate. Qed.

Lemma missing_comma_repair_witness :
  fix_missing_comma (key_passed ++ [space] ++ bool_literal true
                     ++ [space; space] ++ key_reason)
  = key_passed ++ [space] ++ bool_literal true ++ u ","
    ++ [space; space] ++ key_reason.
Proof.
  apply (proj1 (proj2 missing_comma_repair) true [space] [space; space]).
  - repeat constructor.
  - repeat constructor.
Defined.

Lemma missing_brace_verdict_witness :
  interpretAIJsonResponse (JSON_parse sample_syntax_error) (u "The screenshots match.")
  = Normal {| passed := false;
              reason := u "AI response could not be parsed as valid JSON: Could not find valid JSON object delimiters {} in response. (Original: The screenshots match....)" |}.
Proof.
  apply (missing_brace_verdict (JSON_parse sample_syntax_error)
           (u "The screenshots match.")).
  left. apply (bool_decide_unpack _). vm_compute. exact I.
Defined.

(** The reason of the code does not contain the words of the claim. *)
Lemma no_json_wording_counterexample :
  ~ (exists v,
       interpretAIJsonResponse (JSON_parse sample_syntax_error)
         (u "The screenshots match.") = Normal v
       /\ passed v = false
       /\ includes (u "no JSON") (reason v) = true).
Proof.
  intros (v & Hv & _ & Hr). vm_compute in Hv. injection Hv as <-.
  vm_compute in Hr. discriminate.
Qed.

(** The claim C8 as it is worded fails: a text that is valid JSON, an
    array here, has no field at all, and still the object inside it is
    read and the verdict passes; and for an array without an object the
    reason is the one of the delimiters, not the one of the lacked
    fields. *)
Lemma valid_json_counterexample :
  JSON.parse (uq "[{'passed': true, 'reason': 'x'}]")
  = Some (JArray [JObject [(u "passed", JBool true); (u "reason", JString (u "x"))]])
  /\ field (JArray [JObject [(u "passed", JBool true); (u "reason", JString (u "x"))]])
       (u "passed") = None
  /\ interpretAIJsonResponse (JSON_parse sample_syntax_error)
       (uq "[{'passed': true, 'reason': 'x'}]")
     = Normal {| passed := true; reason := u "x" |}
  /\ JSON.parse (uq "[1,2]") = Some (JArray [JNumber (u "1"); JNumber (u "2")])
  /\ interpretAIJsonResponse (JSON_parse sample_syntax_error) (uq "[1,2]")
     = Normal {| passed := false;
                 reason := u "AI response could not be parsed as valid JSON: Could not find valid JSON object delimiters {} in response. (Original: [1,2]...)" |}.
Proof. repeat split; vm_compute; reflexivity. Qed.

Lemma wrong_shape_verdict_witness :
  interpretAIJsonResponse (JSON_parse sample_syntax_error) (uq "{'ok': true}")
  = Normal {| passed := false;
              reason := u "AI response was valid JSON but lacked expected fields: "
                        ++ uq "{'ok': true}" ++ u "..." |}.
Proof.
  apply (wrong_shape_verdict (JSON_parse sample_syntax_error) (uq "{'ok': true}")
           (uq "{'ok': true}") (JObject [(u "ok", JBool true)])).
  - vm_compute. reflexivity.
  - vm_compute. reflexivity.
  - discriminate.
  - left. intros b. vm_compute. discriminate.
Defined.

(** The claim C9 as it is worded fails for a name that climbs to the
    baseline folder: the baseline exists, no update is asked for, and the
    screenshot is written over it. *)
Lemma baseline_frame_counterexample :
  files world_with_baseline
  !! baseline_path_of (sample_env sample_config refused) (climbing_name (u "home"))
  = Some old_image
  /\ updateBaselines no_options = None
  /\ files (fst (expectPageToMatchVisuallyAI (JSON_parse sample_syntax_error)
                   (sample_env sample_config refused) sample_page
                   (climbing_name (u "home")) no_options world_with_baseline))
     !! baseline_path_of (sample_env sample_config refused) (climbing_name (u "home"))
     = Some sample_image
  /\ sample_image <> old_image
  /\ nth_error (trace (fst (expectPageToMatchVisuallyAI (JSON_parse sample_syntax_error)
                              (sample_env sample_config refused) sample_page
                              (climbing_name (u "home")) no_options
                              world_with_baseline))) 2
     = Some (EvScreenshot
               (baseline_path_of (sample_env sample_config refused)
                  (climbing_name (u "home"))) []).
Proof.
  split; [vm_compute; reflexivity|]. split; [reflexivity|].
  split; [vm_compute; reflexivity|]. split; [discriminate|].
  vm_compute. reflexivity.
Qed.

Lemma baseline_untouched_on_compare_witness :
  files (fst (expectPageToMatchVisuallyAI (JSON_parse sample_syntax_error)
                (sample_env sample_config refused) sample_page (u "home") no_options
                world_with_baseline))
  !! u "/proj/tests/visual-baselines/home.png" = Some old_image.
Proof.
  apply (baseline_untouched_on_compare (JSON_parse sample_syntax_error)
           (sample_env sample_config refused) sample_page (u "home") no_options
           world_with_baseline old_image)
    with (r := snd (expectPageToMatchVisuallyAI (JSON_parse sample_syntax_error)
                      (sample_env sample_config refused) sample_page (u "home")
                      no_options world_with_baseline)).
  - vm_compute. reflexivity.
  - discriminate.
  - vm_compute. discriminate.
  - apply surjective_pairing.
Defined.

Lemma temperature_zero_never_sent_witness :
  p_temperature (build_payload (llmService sample_config) zero_temperature_request)
  = num_0_2.
Proof.
  apply (proj1 (proj2 (temperature_zero_never_sent (llmService sample_config)
                         zero_temperature_request)) false).
  reflexivity.
Defined.

Lemma artifacts_after_invocation_witness :
  files (fst (expectPageToMatchVisuallyAI (JSON_parse sample_syntax_error)
                (sample_env sample_config error_reply) sample_page (u "home")
                no_options world_with_baseline))
  !! u "/proj/test-results/visual-actuals/home.png" = Some sample_image.
Proof.
  apply (proj1 (artifacts_after_invocation (JSON_parse sample_syntax_error)
                  (sample_env sample_config error_reply) sample_page (u "home")
                  no_options world_with_baseline _ _ (surjective_pairing _))
           sample_image).
  - exact I.
  - exact I.
  - reflexivity.
Defined.

Lemma failed_capture_propagates_witness :
  expectPageToMatchVisuallyAI (JSON_parse sample_syntax_error)
    (sample_env sample_config refused) closed_page (u "home") no_options
    world_with_baseline
  = ({| files := files world_with_baseline;
        folders := folders (ensured (sample_env sample_config refused)
                              (u "/proj/test-results/visual-actuals")
                              (ensured (sample_env sample_config refused)
                                 (u "/proj/tests/visual-baselines")
                                 world_with_baseline));
        trace := [EvMkdir (u "/proj/tests/visual-baselines");
                  EvMkdir (u "/proj/test-results/visual-actuals");
                  EvScreenshot (u "/proj/test-results/visual-actuals/home.png") []] |},
     Throw (ErrorObj (u "Target page has been closed"))).
Proof.
  apply (proj2 (proj2 (failed_capture_propagates (JSON_parse sample_syntax_error)
                         (sample_env sample_config refused) closed_page (u "home")
                         no_options world_with_baseline))
           (ErrorObj (u "Target page has been closed"))).
  - exact I.
  - exact I.
  - reflexivity.
Defined.

Lemma string_reply_is_interpreted_witness :
  snd (expectPageToMatchVisuallyAI (JSON_parse sample_syntax_error)
         (sample_env sample_config verdict_reply) sample_page (u "home") no_options
         world_with_baseline)
  = Normal {| verdict := {| passed := false; reason := u "Button missing" |};
              baselinePath := u "/proj/tests/visual-baselines/home.png";
              actualPath := u "/proj/test-results/visual-actuals/home.png" |}.
Proof.
  destruct (string_reply_is_interpreted (JSON_parse sample_syntax_error)
              (sample_env sample_config verdict_reply) sample_page (u "home")
              no_options world_with_baseline sample_image old_image
              (JObject [(u "model", JString (u "llava:latest"));
                        (u "response",
                         JString (uq "{'passed': false, 'reason': 'Button missing'}"))])
              (uq "{'passed': false, 'reason': 'Button missing'}"))
    as (v & Hv & Hrun).
  - exact I.
  - exact I.
  - reflexivity.
  - discriminate.
  - vm_compute. reflexivity.
  - reflexivity.
  - vm_compute. reflexivity.
  - rewrite Hrun. vm_compute in Hv. injection Hv as <-. reflexivity.
Defined.

Lemma reply_without_text_throws_witness :
  exists e,
    snd (expectPageToMatchVisuallyAI (JSON_parse sample_syntax_error)
           (sample_env sample_config error_reply) sample_page (u "home") no_options
           world_with_baseline)
    = Throw e.
Proof.
  destruct (reply_without_text_throws (JSON_parse sample_syntax_error)
              (sample_env sample_config error_reply) sample_page (u "home")
              no_options world_with_baseline sample_image old_image
              (JObject [(u "error", JString (u "model not found"))]))
    as (_ & e & Hrun).
  - exact I.
  - exact I.
  - reflexivity.
  - discriminate.
  - vm_compute. reflexivity.
  - reflexivity.
  - discriminate.
  - intros s. vm_compute. discriminate.
  - exists e. rewrite Hrun. reflexivity.
Defined.


Lemma climbing_name_overwrites_baseline_witness :
  files (fst (expectPageToMatchVisuallyAI (JSON_parse sample_syntax_error)
                (sample_env sample_config refused) sample_page
                (climbing_name (u "home")) no_options world_with_baseline))
  !! u "/proj/tests/visual-baselines/home.png" = Some sample_image.
Proof.
  apply (proj2 (climbing_name_overwrites_baseline (JSON_parse sample_syntax_error)
                  (sample_env sample_config refused) sample_page (u "home")
                  no_options world_with_baseline sample_image
                  ltac:(apply (bool_decide_unpack _); vm_compute; exact I)
                  I I eq_refl)
           _ _ (surjective_pairing _)).
Defined.

Lemma text_method_body_witness :
  text_payload (llmService sample_config) explicit_request
  = build_payload (llmService sample_config) explicit_request.
Proof.
  apply (proj1 (proj2 (proj2 (proj2 (text_method_body (llmService sample_config)
                                       explicit_request))))
           num_0_1 num_2048).
  - reflexivity.
  - reflexivity.
  - reflexivity.
  - reflexivity.
  - left. reflexivity.
Defined.

Lemma availability_agrees_with_listing_witness :
  isModelAvailable serving_host default_LocalLLMService (Some (u "llama3:latest")) []
  = ([HostGet default_tags_url], Normal true).
Proof.
  destruct (availability_agrees_with_listing serving_host default_LocalLLMService [])
    as (names & Hlist & Hagree).
  vm_compute in Hlist. injection Hlist as <-.
  destruct (Hagree ltac:(discriminate) (u "llama3:latest")) as (b & Hrun & Hb).
  rewrite Hrun. f_equal. f_equal. apply Hb. right. left.
Defined.

Lemma running_iff_models_listed_witness :
  LLMUtils.isOllamaRunning empty_host [] = ([HostGet default_tags_url], Normal false).
Proof.
  destruct (running_iff_models_listed empty_host []) as (b & Hrun & Hb).
  rewrite Hrun. f_equal. f_equal. destruct b; [|reflexivity].
  destruct (proj1 Hb eq_refl) as (fields & m & ms & Hget & Hl & _).
  vm_compute in Hget. injection Hget as <-. vm_compute in Hl. discriminate.
Defined.


Lemma pull_reports_what_the_server_lists_witness :
  LLMUtils.pullModelIfNeeded serving_host (u "llava:latest") []
  = ([HostGet default_tags_url], Normal true).
Proof.
  destruct (pull_reports_what_the_server_lists serving_host (u "llava:latest") [])
    as (evs & b & Hrun & _ & _ & _ & Hfirst & _).
  rewrite Hrun. destruct (Hfirst ltac:(vm_compute; reflexivity)) as [-> ->].
  reflexivity.
Defined.

Lemma cloud_request_for_images_witness :
  p_temperature (build_payload (llmService sample_config) image_request)
  <> Google.gc_temperature
       (Google.generationConfig
          (snd (Google.multimodal_call google_config cloud_service image_request))).
Proof.
  apply (proj2 (proj2 (cloud_request_for_images google_config cloud_service
                         image_request))
           false (llmService sample_config)).
  reflexivity.
Defined.

Lemma loaded_settings_are_never_empty_witness :
  geminiModel cloud_service = googleGeminiModel (load_config id keyed_environment).
Proof.
  apply (proj1 (proj2 (proj2 (proj2 (proj2 (proj2 (proj2
           (loaded_settings_are_never_empty id keyed_environment)))))))
           cloud_service).
  vm_compute. reflexivity.
Defined.

Lemma fenced_code_is_unwrapped_witness :
  cleanGeneratedCode (fence_typescript ++ [newline] ++ sample_code ++ [newline] ++ fence)
  = sample_code.
Proof.
  apply (fenced_code_is_unwrapped fence_typescript sample_code).
  - left.
  - vm_compute. reflexivity.
  - vm_compute. reflexivity.
  - vm_compute. reflexivity.
  - vm_compute. reflexivity.
Defined.


Lemma generated_test_request_and_code_witness :
  snd (generateTestFromSpec (sample_env sample_config refused) (new_TestGenerator None)
         (u "The login form accepts a valid user.") empty_world)
  = Normal [].
Proof.
  destruct (generated_test_request_and_code (sample_env sample_config refused) None
              (u "The login form accepts a valid user.") empty_world)
    as (payload & r & Hrun & _ & _ & _ & _ & Hfail & _).
  rewrite Hrun. cbn [snd].
  apply (Hfail (ErrorObj (u "connect ECONNREFUSED 127.0.0.1:11434"))).
  reflexivity.
Defined.

Lemma enhancer_names_the_ollama_model_witness :
  snd (improveTest (JSON_parse sample_syntax_error) (sample_env google_config refused)
         unknown_model_sdk (snd (new_TestEnhancer google_config None))
         (u "test('home', async () => {});") empty_world)
  = Normal empty_improvements.
Proof.
  destruct (proj1 (proj2 (enhancer_names_the_ollama_model
                            (JSON_parse sample_syntax_error) google_config None
                            (sample_env google_config refused) unknown_model_sdk
                            (u "test('home', async () => {});") empty_world))
              cloud_service eq_refl)
    as (payload & Hrun & _).
  rewrite Hrun. reflexivity.
Defined.

Lemma backend_from_environment_witness :
  exists g, snd (getLLMService (load_config ascii_lower google_environment) None) = Cloud g.
Proof.
  apply (proj2 (proj1 (backend_from_environment ascii_lower google_environment))).
  exists (u "Google"), 107, (u "ey").
  split; [vm_compute; reflexivity|]. split; [vm_compute; reflexivity|].
  vm_compute. reflexivity.
Defined.

Lemma list_is_read_back_witness :
  extractSuggestionsFromText (lines (map render_line sample_list))
  = [u "Add assertions"; u "Use fixtures"].
Proof.
  apply (list_is_read_back sample_list); [discriminate|].
  constructor; [|constructor; [|constructor]].
  - split; [|split; [|split; [|split]]].
    + apply (marker_number (u "1") 46); [discriminate | | left; reflexivity].
      constructor; [reflexivity | constructor].
    + constructor; [split; [reflexivity | discriminate] | constructor].
    + discriminate.
    + vm_compute. reflexivity.
    + vm_compute. repeat (constructor; [reflexivity|]). constructor.
  - split; [|split; [|split; [|split]]].
    + apply marker_bullet. reflexivity.
    + constructor.
    + discriminate.
    + vm_compute. reflexivity.
    + vm_compute. repeat (constructor; [reflexivity|]). constructor.
Defined.

Lemma marker_without_item_witness :
  extractSuggestionsFromText (u "- ") = [[]]
  /\ extractSuggestionsFromText (u "-") = [u "-"].
Proof.
  apply (marker_without_item (u "-") (u " ")).
  - apply marker_bullet. reflexivity.
  - discriminate.
  - constructor; [split; reflexivity | constructor].
Defined.

Lemma refused_copy_propagates_witness :
  exists w',
    expectPageToMatchVisuallyAI (JSON_parse sample_syntax_error)
      (sample_env sample_config refused) sample_page (u "sub/home") no_options
      empty_world
    = (w', Throw (ErrorObj (u "ENOENT: no such file or directory, copyfile '/proj/test-results/visual-actuals/sub/home.png' -> '/proj/tests/visual-baselines/sub/home.png'")))
    /\ files w' !! u "/proj/tests/visual-baselines/sub/home.png" = None
    /\ files w' !! u "/proj/test-results/visual-actuals/sub/home.png" = Some sample_image.
Proof.
  destruct (refused_copy_propagates (JSON_parse sample_syntax_error)
              (sample_env sample_config refused) sample_page (u "sub/home") no_options
              empty_world sample_image
              (ErrorObj (u "ENOENT: no such file or directory, copyfile '/proj/test-results/visual-actuals/sub/home.png' -> '/proj/tests/visual-baselines/sub/home.png'")))
    as (w' & Hrun & Hfiles & _).
  - exact I.
  - exact I.
  - reflexivity.
  - vm_compute. reflexivity.
  - vm_compute. reflexivity.
  - exists w'. split; [exact Hrun|]. rewrite Hfiles. split; reflexivity.
Defined.

Lemma file_at_baseline_folder_witness :
  exists w',
    expectPageToMatchVisuallyAI (JSON_parse sample_syntax_error)
      (sample_env sample_config refused) sample_page (u "home") no_options
      world_with_blocked_folder
    = (w', Throw (ErrorObj (u "ENOTDIR: not a directory, copyfile '/proj/test-results/visual-actuals/home.png' -> '/proj/tests/visual-baselines/home.png'")))
    /\ files w' !! u "/proj/test-results/visual-actuals/home.png" = Some sample_image.
Proof.
  destruct (file_at_baseline_folder (JSON_parse sample_syntax_error)
              (sample_env sample_config refused) sample_page (u "home") no_options
              world_with_blocked_folder sample_image old_image)
    as (w' & Hrun & Hfile & _).
  - apply (bool_decide_unpack _). vm_compute. exact I.
  - reflexivity.
  - apply (bool_decide_unpack _). vm_compute. exact I.
  - exact I.
  - exact I.
  - reflexivity.
  - apply (bool_decide_unpack _). vm_compute. exact I.
  - right. reflexivity.
  - exists w'. split; [exact Hrun | exact Hfile].
Defined.
